(** * Memory-limit extraction and recovery for AtCoder pages

    A shallow embedding of [onlinejudge_command/atcoder_robust.py] and
    [onlinejudge_command/atcoder_memory_limit_patch.py].

    - Python [str] values are lists of Unicode code points.
    - [re.search], [re.findall] and [re.match] are a backtracking matcher over
      the constructs the source patterns use (literals, classes, greedy
      repetition of a class, greedy optional part, groups, word boundary).
    - [float] is IEEE binary64 with round-to-nearest-even.
    - The coordinators are written in a state-and-exception monad over an
      abstract external world (network, upstream library); the state keeps
      a trace of the calls made to the collaborators.
    - Calls of [logger] have no effect on results and are left out. *)

From Stdlib Require Import String Ascii ZArith QArith List Bool Lia.
Import ListNotations.
Open Scope Z_scope.

(** ** Strings *)

(** A Python string: its code points, in order. *)
Definition str := list Z.

(** An ASCII literal of this file as a Python string. *)
Definition py (lit : string) : str :=
  map (fun a => Z.of_nat (nat_of_ascii a)) (list_ascii_of_string lit).
Arguments py lit%_string.

(** The code point of an ASCII character. *)
Definition ch (a : ascii) : Z := Z.of_nat (nat_of_ascii a).
Arguments ch a%_char.

Fixpoint str_eqb (a b : str) : bool :=
  match a, b with
  | [], [] => true
  | x :: a', y :: b' => (x =? y) && str_eqb a' b'
  | _, _ => false
  end.

Fixpoint starts_with (needle hay : str) : bool :=
  match needle, hay with
  | [], _ => true
  | x :: n', y :: h' => (x =? y) && starts_with n' h'
  | _ :: _, [] => false
  end.

(** [needle in hay] *)
Fixpoint contains (needle hay : str) : bool :=
  starts_with needle hay ||
  match hay with
  | [] => false
  | _ :: h' => contains needle h'
  end.

(** [hay.replace(old, new, 1)] *)
Fixpoint replace_first (old new hay : str) : str :=
  if starts_with old hay then new ++ skipn (length old) hay
  else match hay with
       | [] => []
       | c :: h' => c :: replace_first old new h'
       end.

(** ** Floating point

    [float(text)] and the arithmetic on its result: binary64 values, rounded
    to nearest, ties to even.  Only values that are not negative occur. *)

Inductive pyfloat :=
| Finite (q : Q)
| Infinity.

(** Nearest integer to [num / den], ties to even ([0 <= num], [0 < den]). *)
Definition nearest_even (num den : Z) : Z :=
  let q := num / den in
  let r := num mod den in
  if 2 * r <? den then q
  else if den <? 2 * r then q + 1
  else if Z.even q then q else q + 1.

(** The binary64 value nearest to the rational [x >= 0]. *)
Definition round_binary64 (x : Q) : pyfloat :=
  let n := Qnum x in
  let d := Zpos (Qden x) in
  if n <=? 0 then Finite 0
  else
    let e0 := Z.log2 n - Z.log2 d in
    (* e = floor (log2 (n/d)) *)
    let e := if 0 <=? e0
             then (if d * 2 ^ e0 <=? n then e0 else e0 - 1)
             else (if d <=? n * 2 ^ (- e0) then e0 else e0 - 1) in
    let sh := Z.max e (-1022) - 52 in
    let m := if 0 <=? sh then nearest_even n (d * 2 ^ sh)
             else nearest_even (n * 2 ^ (- sh)) d in
    if 2 ^ 1024 <=? (if 0 <=? sh then m * 2 ^ sh else 0)
    then Infinity
    else Finite (if 0 <=? sh then inject_Z (m * 2 ^ sh)
                 else Qred (Qmake m (Z.to_pos (2 ^ (- sh))))).

Definition fmul (x : pyfloat) (k : Z) : pyfloat :=
  match x with
  | Finite q => round_binary64 (Qred (q * inject_Z k))
  | Infinity => Infinity
  end.

Definition fdiv (x : pyfloat) (k : Z) : pyfloat :=
  match x with
  | Finite q => round_binary64 (Qred (q / inject_Z k))
  | Infinity => Infinity
  end.

(** [lo <= x <= hi] for integers [lo], [hi]. *)
Definition in_range (lo hi : Z) (x : pyfloat) : bool :=
  match x with
  | Finite q => Qle_bool (inject_Z lo) q && Qle_bool q (inject_Z hi)
  | Infinity => false
  end.

(** ** Exceptions of the built-ins and results *)

Inductive pyerr := ValueError | TypeError | AttributeError | ModuleNotFoundError.

Inductive result (A : Type) :=
| Ok (a : A)
| Raise (e : pyerr).
Arguments Ok {A} a.
Arguments Raise {A} e.

Definition rbind {A B : Type} (m : result A) (f : A -> result B) : result B :=
  match m with
  | Ok a => f a
  | Raise e => Raise e
  end.

Notation "x <- m ;; f" := (rbind m (fun x => f))
  (at level 61, m at next level, right associativity).

(** [x.method()] or [f(x)] where [x] may be [None]: the call raises [e]. *)
Definition not_none {A : Type} (e : pyerr) (x : option A) : result A :=
  match x with
  | Some a => Ok a
  | None => Raise e
  end.

(** ** The Unicode character database

    Python classifies characters with tables that are not part of the
    repository.  The ASCII rows are written out below; the rows of the other
    code points are a parameter of the development. *)

Record ucd := {
  (** decimal value of a character of category Nd ([Py_UNICODE_TODECIMAL]) *)
  uni_decimal : Z -> option Z;
  (** [Py_UNICODE_ISSPACE] *)
  uni_space : Z -> bool;
  (** [Py_UNICODE_ISALNUM] *)
  uni_alnum : Z -> bool;
  (** [uni_ieq c x]: under [re.IGNORECASE] the character [c] matches the
      lower-case ASCII letter [x] of a pattern (its lower case is [x], or one
      of the case equivalents that [re] adds to [x]) *)
  uni_ieq : Z -> Z -> bool;
  (** [str.upper] of one character *)
  uni_upper : Z -> str
}.

(** The table with no row outside ASCII: what the definitions below see on an
    ASCII text. *)
Definition ascii_rows : ucd := {|
  uni_decimal := fun _ => None;
  uni_space := fun _ => false;
  uni_alnum := fun _ => false;
  uni_ieq := fun _ _ => false;
  uni_upper := fun c => [c]
|}.

Definition is_ascii (c : Z) : bool := (0 <=? c) && (c <? 128).
Definition between (lo hi c : Z) : bool := (lo <=? c) && (c <=? hi).

(** ** Regular expressions: syntax *)

Inductive atom :=
| Lit (c : Z)      (* a character without case, matched as it is *)
| LitI (c : Z)     (* a letter under IGNORECASE, given in lower case *)
| Digit            (* \d *)
| Space.           (* \s *)

Inductive cclass :=
| One (a : atom)
| AnyOf (l : list atom)      (* [...]  *)
| NoneOf (l : list atom).    (* [^...] *)

Inductive regex :=
| Eps
| Chr (k : cclass)
| Many (k : cclass)               (* k*, greedy *)
| Opt (r : regex)                 (* r?, greedy *)
| Seq (r1 r2 : regex)
| Group (i : nat) (r : regex)     (* the i-th capturing group *)
| WordBoundary.                   (* \b *)

Notation "r1 +> r2" := (Seq r1 r2) (at level 60, right associativity).

(** One character of a pattern compiled with [re.IGNORECASE]. *)
Definition chr_i (c : Z) : regex :=
  if between 65 90 c then Chr (One (LitI (c + 32)))
  else if between 97 122 c then Chr (One (LitI c))
  else Chr (One (Lit c)).

(** A run of literal characters of a pattern compiled with [re.IGNORECASE]. *)
Fixpoint text_i (l : str) : regex :=
  match l with
  | [] => Eps
  | [c] => chr_i c
  | c :: t => chr_i c +> text_i t
  end.

(** A run of literal characters without case. *)
Fixpoint text_exact (l : str) : regex :=
  match l with
  | [] => Eps
  | [c] => Chr (One (Lit c))
  | c :: t => Chr (One (Lit c)) +> text_exact t
  end.

(** k+ *)
Definition Many1 (k : cclass) : regex := Chr k +> Many k.

(** ** Python's [str] methods, [float] and [re] over a character database *)

Section Python.
Variable U : ucd.

Definition decimal_of (c : Z) : option Z :=
  if is_ascii c then (if between 48 57 c then Some (c - 48) else None)
  else uni_decimal U c.

Definition is_digit (c : Z) : bool :=
  match decimal_of c with Some _ => true | None => false end.

Definition is_space (c : Z) : bool :=
  if is_ascii c then between 9 13 c || between 28 32 c
  else uni_space U c.

Definition is_alnum (c : Z) : bool :=
  if is_ascii c then between 48 57 c || between 65 90 c || between 97 122 c
  else uni_alnum U c.

(** [\w] *)
Definition is_word (c : Z) : bool := is_alnum c || (c =? 95).

(** [c] matches the lower-case ASCII letter [x] under [re.IGNORECASE]. *)
Definition ieq (c x : Z) : bool :=
  if is_ascii c then (if between 65 90 c then c + 32 else c) =? x
  else uni_ieq U c x.

Definition upper_char (c : Z) : str :=
  if is_ascii c then (if between 97 122 c then [c - 32] else [c])
  else uni_upper U c.

(** [text.upper()] *)
Definition upper (text : str) : str := flat_map upper_char text.

Fixpoint lstrip (text : str) : str :=
  match text with
  | c :: t => if is_space c then lstrip t else text
  | [] => []
  end.

Definition rstrip (text : str) : str := rev (lstrip (rev text)).

(** [text.strip()] *)
Definition strip (text : str) : str := rstrip (lstrip text).

(** *** [float(text)]

    The literals [digits], [digits.digits], [digits.] and [.digits], in any
    decimal digits of Unicode.  Python reads more (signs, exponents, blanks
    around, underscores, inf and nan); every other text is [ValueError]
    here, so an extractor that never raises in this model never raises. *)

Fixpoint digits_value (acc : Z) (l : str) : option Z :=
  match l with
  | [] => Some acc
  | c :: t =>
      match decimal_of c with
      | Some d => digits_value (10 * acc + d) t
      | None => None
      end
  end.

Fixpoint split_point (l : str) : str * option str :=
  match l with
  | [] => ([], None)
  | c :: t =>
      if c =? 46 then ([], Some t)
      else let (i, f) := split_point t in (c :: i, f)
  end.

Definition py_float (text : str) : result pyfloat :=
  let (int_part, frac) := split_point text in
  let frac_part := match frac with Some f => f | None => [] end in
  match int_part ++ frac_part with
  | [] => Raise ValueError
  | digits =>
      match digits_value 0 digits with
      | Some n =>
          Ok (round_binary64
                (Qred (Qmake n (Z.to_pos (10 ^ Z.of_nat (length frac_part))))))
      | None => Raise ValueError
      end
  end.

(** *** The matcher *)

Definition in_atom (a : atom) (c : Z) : bool :=
  match a with
  | Lit x => c =? x
  | LitI x => ieq c x
  | Digit => is_digit c
  | Space => is_space c
  end.

Definition in_class (k : cclass) (c : Z) : bool :=
  match k with
  | One a => in_atom a c
  | AnyOf l => existsb (fun a => in_atom a c) l
  | NoneOf l => negb (existsb (fun a => in_atom a c) l)
  end.

(** A position of the matcher in the subject: the text before it (last
    character first), the text after it, and the groups closed so far. *)
Record mstate := {
  before : str;
  rest : str;
  caps : list (nat * str)
}.

Definition at_boundary (st : mstate) : bool :=
  xorb (match before st with c :: _ => is_word c | [] => false end)
       (match rest st with c :: _ => is_word c | [] => false end).

Definition close_group (i : nat) (opened closed : mstate) : mstate :=
  {| before := before closed;
     rest := rest closed;
     caps := (i, firstn (length (rest opened) - length (rest closed)) (rest opened))
               :: caps closed |}.

Section Matcher.
Context {A : Type}.

(** [many_k k cps outer b l]: the greedy loop of [k*] at the position
    [(b, l)]: the longest run first, then shorter ones. *)
Fixpoint many_k (k : cclass) (cps : list (nat * str))
    (outer : mstate -> option A) (b l : str) : option A :=
  let here := {| before := b; rest := l; caps := cps |} in
  match l with
  | c :: t =>
      if in_class k c
      then match many_k k cps outer (c :: b) t with
           | Some a => Some a
           | None => outer here
           end
      else outer here
  | [] => outer here
  end.

(** [exec r outer st] runs [r] at [st] and hands every way it can end, in the
    order a backtracking engine tries them, to [outer], until one succeeds. *)
Fixpoint exec (r : regex) (outer : mstate -> option A) (st : mstate) : option A :=
  match r with
  | Eps => outer st
  | Chr k =>
      match rest st with
      | c :: t =>
          if in_class k c
          then outer {| before := c :: before st; rest := t; caps := caps st |}
          else None
      | [] => None
      end
  | Many k => many_k k (caps st) outer (before st) (rest st)
  | Opt r1 =>
      match exec r1 outer st with
      | Some a => Some a
      | None => outer st
      end
  | Seq r1 r2 => exec r1 (exec r2 outer) st
  | Group i r1 => exec r1 (fun st' => outer (close_group i st st')) st
  | WordBoundary => if at_boundary st then outer st else None
  end.

End Matcher.

(** A successful match: the final position, with its groups. *)
Definition match_at (r : regex) (b l : str) : option mstate :=
  exec r (fun st => Some st) {| before := b; rest := l; caps := [] |}.

(** [re.match(r, text, re.IGNORECASE)] *)
Definition re_match (r : regex) (text : str) : option mstate :=
  match_at r [] text.

Fixpoint search_from (r : regex) (b l : str) : option mstate :=
  match match_at r b l with
  | Some m => Some m
  | None =>
      match l with
      | c :: t => search_from r (c :: b) t
      | [] => None
      end
  end.

(** [re.search(r, text, re.IGNORECASE)]: the first start position, from the
    left, at which [r] matches. *)
Definition re_search (r : regex) (text : str) : option mstate :=
  search_from r [] text.

(** [match.group(i)]: [None] when the group took no part in the match. *)
Fixpoint group (i : nat) (cps : list (nat * str)) : option str :=
  match cps with
  | [] => None
  | (j, w) :: cps' => if Nat.eqb i j then Some w else group i cps'
  end.

(** [re.findall] of a pattern with one group that matches no empty text:
    successive matches from the left, none overlapping the one before, each
    giving its group 1 (the empty string when the group took no part).
    [skip] characters are still covered by the last match. *)
Fixpoint findall_from (r : regex) (skip : nat) (b l : str) : list str :=
  match skip with
  | S n =>
      match l with
      | c :: t => findall_from r n (c :: b) t
      | [] => []
      end
  | O =>
      match match_at r b l with
      | Some m =>
          match group 1 (caps m) with Some w => w | None => [] end ::
          match l with
          | c :: t => findall_from r (length l - length (rest m) - 1) (c :: b) t
          | [] => []
          end
      | None =>
          match l with
          | c :: t => findall_from r O (c :: b) t
          | [] => []
          end
      end
  end.

Definition re_findall (r : regex) (text : str) : list str :=
  findall_from r O [] text.

End Python.

(** ** Fragments of the patterns of both files *)

(** U+30E1 U+30E2 U+30EA U+5236 U+9650: the Japanese label, characters
    without case. *)
Definition memory_limit_ja : str := [12513; 12514; 12522; 21046; 38480].

Definition sp : cclass := One Space.
Definition dg : cclass := One Digit.
(** r"[KMGT]" *)
Definition kmgt : cclass := AnyOf [LitI (ch "k"); LitI (ch "m"); LitI (ch "g"); LitI (ch "t")].
(** r"[:\s]" *)
Definition colon_sp : cclass := AnyOf [Lit (ch ":"); Space].
(** r"[^>]" and r"[^<]" *)
Definition not_gt : cclass := NoneOf [Lit (ch ">")].
Definition not_lt : cclass := NoneOf [Lit (ch "<")].
Definition letter_b : regex := Chr (One (LitI (ch "b"))).

(** r"\d+(?:\.\d+)?" *)
Definition number_re : regex :=
  Many1 dg +> Opt (Chr (One (Lit (ch "."))) +> Many1 dg).

(** r"\d+(?:\.\d+)?\s*[KMGT]?B" *)
Definition token_re : regex :=
  number_re +> Many sp +> Opt (Chr kmgt) +> letter_b.

(** r"[^<]*[KMGT]?B[^<]*" *)
Definition cell_re : regex :=
  Many not_lt +> Opt (Chr kmgt) +> letter_b +> Many not_lt.

(** r"[^<]*\d+[^<]*[KMGT]?B" *)
Definition numbered_cell_re : regex :=
  Many not_lt +> Many1 dg +> Many not_lt +> Opt (Chr kmgt) +> letter_b.

(** r"Memory\s+Limit" *)
Definition label_en : regex :=
  text_i (py "Memory") +> Many1 sp +> text_i (py "Limit").

(** ** Exceptions and effects of the coordinators

    What is outside the repository (the network, the upstream library) is an
    abstract world that the collaborators read and change. *)

Section Effects.
Variable E : Type.   (* what an exception of a collaborator carries *)

Inductive exn :=
| AssertionError (e : E)      (* the failure both files target *)
| Builtin (e : pyerr)         (* raised by a built-in; under [Exception] *)
| OtherException (e : E)      (* any other class under [Exception] *)
| BaseOnly (e : E).           (* KeyboardInterrupt, SystemExit, ...:
                                 under [BaseException] only *)

(** [except AssertionError] *)
Definition is_AssertionError (e : exn) : bool :=
  match e with AssertionError _ => true | _ => false end.

(** [except Exception] *)
Definition is_Exception (e : exn) : bool :=
  match e with BaseOnly _ => false | _ => true end.

Inductive outcome (A : Type) :=
| Return (a : A)
| Throw (e : exn).

Variable S : Type.   (* the mutable state *)

Definition M (A : Type) : Type := S -> outcome A * S.

Definition ret {A : Type} (a : A) : M A := fun st => (Return A a, st).

Definition throw {A : Type} (e : exn) : M A := fun st => (Throw A e, st).

Definition bind {A B : Type} (m : M A) (f : A -> M B) : M B :=
  fun st =>
    match m st with
    | (Return _ a, st') => f a st'
    | (Throw _ e, st') => (Throw B e, st')
    end.

(** [try: body / except C as e: handler e] *)
Definition try_except {A : Type} (body : M A) (C : exn -> bool)
    (handler : exn -> M A) : M A :=
  fun st =>
    match body st with
    | (Throw _ e, st') => if C e then handler e st' else (Throw A e, st')
    | done => done
    end.

(** [try: body / finally: cleanup] *)
Definition try_finally {A : Type} (body : M A) (cleanup : M unit) : M A :=
  fun st =>
    match body st with
    | (r, st') =>
        match cleanup st' with
        | (Return _ _, st'') => (r, st'')
        | (Throw _ e, st'') => (Throw A e, st'')
        end
    end.

(** A call of a built-in or of the extractor. *)
Definition lift_result {A : Type} (r : result A) : M A :=
  match r with
  | Ok a => ret a
  | Raise e => throw (Builtin e)
  end.

End Effects.

Arguments AssertionError {E} e.
Arguments Builtin {E} e.
Arguments OtherException {E} e.
Arguments BaseOnly {E} e.
Arguments is_AssertionError {E} e.
Arguments is_Exception {E} e.
Arguments Return {E A} a.
Arguments Throw {E A} e.
Arguments ret {E S A} a _.
Arguments throw {E S A} e _.
Arguments bind {E S A B} m f _.
Arguments try_except {E S A} body C handler _.
Arguments try_finally {E S A} body cleanup _.
Arguments lift_result {E S A} r _.

Notation "x <~ m ;; f" := (bind m (fun x => f))
  (at level 61, m at next level, right associativity).

(** ** [onlinejudge_command/atcoder_robust.py] *)

Module atcoder_robust.

(** r"Memory\s+Limit[:\s]*(\d+(?:\.\d+)?\s*[KMGT]?B)" *)
Definition pat_inline_en : regex :=
  label_en +> Many colon_sp +> Group 1 token_re.

(** The same with the Japanese label in place of r"Memory\s+Limit". *)
Definition pat_inline_ja : regex :=
  text_exact memory_limit_ja +> Many colon_sp +> Group 1 token_re.

(** r"<th[^>]*>Memory\s+Limit</th>\s*<td[^>]*>(CELL)</td>", where CELL is
    r"[^<]*[KMGT]?B[^<]*" *)
Definition pat_row_en : regex :=
  text_i (py "<th") +> Many not_gt +> text_i (py ">") +> label_en +>
  text_i (py "</th>") +> Many sp +> text_i (py "<td") +> Many not_gt +>
  text_i (py ">") +> Group 1 cell_re +> text_i (py "</td>").

(** The same with the Japanese label in place of r"Memory\s+Limit". *)
Definition pat_row_ja : regex :=
  text_i (py "<th") +> Many not_gt +> text_i (py ">") +>
  text_exact memory_limit_ja +>
  text_i (py "</th>") +> Many sp +> text_i (py "<td") +> Many not_gt +>
  text_i (py ">") +> Group 1 cell_re +> text_i (py "</td>").

(** r"(\d+(?:\.\d+)?\s*[KMGT]?B)\s*memory" *)
Definition pat_before_memory : regex :=
  Group 1 token_re +> Many sp +> text_i (py "memory").

(** r"limit[^>]*>([^<]*\d+[^<]*[KMGT]?B)": the group is [numbered_cell_re] *)
Definition pat_after_limit : regex :=
  text_i (py "limit") +> Many not_gt +> text_i (py ">") +>
  Group 1 numbered_cell_re.

Definition patterns : list regex :=
  [ pat_inline_en; pat_inline_ja; pat_row_en; pat_row_ja;
    pat_before_memory; pat_after_limit ].

(** r"\b(\d+(?:\.\d+)?\s*[KMGT]?B)\b" *)
Definition pat_scan : regex :=
  WordBoundary +> Group 1 token_re +> WordBoundary.

(** r"(\d+(?:\.\d+)?)\s*([KMGT]?)B" *)
Definition pat_split : regex :=
  Group 1 number_re +> Many sp +> Group 2 (Opt (Chr kmgt)) +> letter_b.

Section Extractor.
Variable U : ucd.

(** The loop [for pattern in patterns]: [Ok (Some _)] is its [return],
    [Ok None] its normal end. *)
Fixpoint labeled (todo : list regex) (html : str) : result (option str) :=
  match todo with
  | [] => Ok None
  | pattern :: todo' =>
      match re_search U pattern html with
      | Some m =>
          g <- not_none AttributeError (group 1 (caps m)) ;;
          Ok (Some (strip U g))
      | None => labeled todo' html
      end
  end.

Definition mb_value (number : pyfloat) (unit : str) : pyfloat :=
  if str_eqb unit (py "KB") then fdiv number 1024
  else if str_eqb unit (py "GB") then fmul number 1024
  else if str_eqb unit (py "TB") then fmul (fmul number 1024) 1024
  else number.

(** The loop [for value in common_memory_values], giving
    [memory_candidates]. *)
Fixpoint candidates (values : list str) : result (list str) :=
  match values with
  | [] => Ok []
  | value :: values' =>
      match re_match U pat_split value with
      | Some m =>
          number <- not_none TypeError (group 1 (caps m)) ;;
          number <- py_float U number ;;
          unit <- not_none AttributeError (group 2 (caps m)) ;;
          let unit := upper U unit in
          kept <- candidates values' ;;
          Ok (if in_range 64 8192 (mb_value number unit)
              then value :: kept else kept)
      | None => candidates values'
      end
  end.

Definition parse_memory_limit_from_html (html : str) : result (option str) :=
  found <- labeled patterns html ;;
  match found with
  | Some memory_limit => Ok (Some memory_limit)
  | None =>
      memory_candidates <- candidates (re_findall U pat_scan html) ;;
      match memory_candidates with
      | memory_limit :: _ => Ok (Some memory_limit)
      | [] => Ok None
      end
  end.

End Extractor.

(** The block that puts the recovered limit into the page (lines 146 to 154). *)

Definition label_missing (html : str) : bool :=
  negb (contains (py "Memory Limit") html) &&
  negb (contains memory_limit_ja html).

Definition memory_section (parsed_memory_limit : str) : str :=
  py "<tr><th>Memory Limit</th><td>" ++ parsed_memory_limit ++ py "</td></tr>".

Definition with_memory_section (html parsed_memory_limit : str) : str :=
  let memory_section := memory_section parsed_memory_limit in
  if contains (py "</table>") html
  then replace_first (py "</table>") (memory_section ++ py "</table>") html
  else py "<table>" ++ memory_section ++ py "</table>" ++ html.

(** The page after the lines 146 to 154. *)
Definition injected (html parsed_memory_limit : str) : str :=
  if label_missing html
  then with_memory_section html parsed_memory_limit
  else html.

(** *** [RobustAtCoderProblem] *)

Inductive case_type := sample | system.

(** The [session] argument: [None] or a session object. *)
Inductive session_arg := NoSession | TheSession.

Section Wrapper.
Variable U : ucd.
Variables World Url Resp Getter TestCase E : Type.

(** A response: one the network gave, or the [MockResponse] of the wrapper
    (its content, its status code, and the response it takes headers and
    url from). *)
Inductive response :=
| Fetched (r : Resp)
| MockResponse (content : str) (status_code : Z) (resp : response).

(** A value of the attribute [session.get]: a method of the collaborator, or
    the closure [mock_get] with the variables it captures. *)
Inductive getter :=
| BoundGet (g : Getter)
| mock_get (html : str) (resp : response) (original_get : getter).

(** The collaborators. *)
Variable url_eqb : Url -> Url -> bool.
(** [self._original.get_url()] *)
Variable get_url : Url.
(** a [get] of the collaborator *)
Variable bound_get : Getter -> Url -> World -> outcome E Resp * World.
(** [resp.text] and [resp.raise_for_status()] of a fetched response *)
Variable resp_text : Resp -> str.
Variable status_error : Resp -> option (exn E).
(** [self._original.download_sample_cases(session=session)] and
    [download_system_cases]: they see the world and [session.get], and may
    change both. *)
Variable original_download :
  case_type -> session_arg -> World -> getter ->
  outcome E (list TestCase) * (World * getter).
(** whether [requests] and [onlinejudge.type] can be imported *)
Variable importable : bool.

Inductive event :=
| Download (c : case_type) (hook : getter)   (* a call of the original operation *)
| Get (url : Url).                           (* a call of [session.get] by the wrapper *)

Record wstate := {
  world : World;
  session_get : getter;      (* the attribute [get] of the session object *)
  trace : list event         (* the calls made so far *)
}.

Local Notation "'W'" := (M E wstate).

Definition text (r : response) : str :=
  match r with
  | Fetched x => resp_text x
  | MockResponse content _ _ => content
  end.

(** [MockResponse] has no method [raise_for_status]. *)
Definition raise_for_status (r : response) : W unit :=
  match r with
  | Fetched x =>
      match status_error x with
      | Some e => throw e
      | None => ret tt
      end
  | MockResponse _ _ _ => throw (Builtin AttributeError)
  end.

(** Calling a value of [session.get]. *)
Fixpoint call_get (g : getter) (url : Url) (w : World) : outcome E response * World :=
  match g with
  | BoundGet n =>
      match bound_get n url w with
      | (Return r, w') => (Return (Fetched r), w')
      | (Throw e, w') => (Throw e, w')
      end
  | mock_get html resp original_get =>
      if url_eqb url get_url
      then (Return (MockResponse html 200 resp), w)
      else call_get original_get url w
  end.

(** Reading and writing the attribute [session.get]. *)
Definition read_get (session : session_arg) : W getter :=
  fun st =>
    match session with
    | NoSession => (Throw (Builtin AttributeError), st)
    | TheSession => (Return (session_get st), st)
    end.

Definition write_get (session : session_arg) (g : getter) : W unit :=
  fun st =>
    match session with
    | NoSession => (Throw (Builtin AttributeError), st)
    | TheSession =>
        (Return tt, {| world := world st; session_get := g; trace := trace st |})
    end.

(** [session.get(url)] *)
Definition session_get_call (session : session_arg) (url : Url) : W response :=
  g <~ read_get session ;;
  fun st =>
    let (r, w') := call_get g url (world st) in
    (r, {| world := w'; session_get := session_get st;
           trace := trace st ++ [Get url] |}).

(** A call of the original operation. *)
Definition original_download_cases (c : case_type) (session : session_arg)
  : W (list TestCase) :=
  fun st =>
    let '(r, (w', g')) := original_download c session (world st) (session_get st) in
    (r, {| world := w'; session_get := g';
           trace := trace st ++ [Download c (session_get st)] |}).

(** The lines from [original_get = session.get] to the [finally]. *)
Definition retry_with_mock (c : case_type) (session : session_arg)
    (html : str) (resp : response) : W (list TestCase) :=
  original_get <~ read_get session ;;
  _ <~ write_get session (mock_get html resp original_get) ;;
  try_finally (original_download_cases c session)
              (write_get session original_get).

(** [import requests] and [from onlinejudge.type import TestCase] (lines 123
    and 124): they stand before the [try], and raise where a library is
    missing. *)
Definition import_libraries : W unit :=
  if importable then ret tt else throw (Builtin ModuleNotFoundError).

Definition _download_with_robust_parsing (c : case_type) (session : session_arg)
  : W (list TestCase) :=
  _ <~ import_libraries ;;
  try_except
    (resp <~ session_get_call session get_url ;;
     _ <~ raise_for_status resp ;;
     let html := text resp in
     parsed_memory_limit <~ lift_result (parse_memory_limit_from_html U html) ;;
     match parsed_memory_limit with
     | Some ((_ :: _) as parsed_memory_limit) =>
         let html := injected html parsed_memory_limit in
         retry_with_mock c session html resp
     | _ => ret []
     end)
    is_Exception
    (fun _ => ret []).

Definition download_sample_cases (session : session_arg) : W (list TestCase) :=
  try_except (original_download_cases sample session)
    is_AssertionError
    (fun _ => _download_with_robust_parsing sample session).

Definition download_system_cases (session : session_arg) : W (list TestCase) :=
  try_except (original_download_cases system session)
    is_AssertionError
    (fun _ => _download_with_robust_parsing system session).

End Wrapper.

Arguments Fetched {Resp} r.
Arguments MockResponse {Resp} content status_code resp.
Arguments BoundGet {Resp Getter} g.
Arguments mock_get {Resp Getter} html resp original_get.
Arguments Download {Url Resp Getter} c hook.
Arguments Get {Url Resp Getter} url.
Arguments Build_wstate {World Url Resp Getter} world session_get trace.
Arguments world {World Url Resp Getter} w.
Arguments session_get {World Url Resp Getter} w.
Arguments trace {World Url Resp Getter} w.

(** *** [wrap_atcoder_problem] *)

(** The end of a function that starts with an import from the upstream
    library: its value, or the [ImportError] of the import. *)
Inductive imported (A : Type) :=
| Imported (a : A)
| ImportError.

Arguments Imported {A} a.
Arguments ImportError {A}.

Section Wrap.
(** The objects of the caller, and [isinstance(o, AtCoderProblem)] for
    them. *)
Variable Obj : Type.
Variable is_AtCoderProblem : Obj -> bool.

(** What [wrap_atcoder_problem] is given and gives: an object of the caller,
    or an instance of [RobustAtCoderProblem] (a class without a base class)
    with its attribute [_original]. *)
Inductive pyobject :=
| Object (o : Obj)
| RobustAtCoderProblem (_original : pyobject).

(** [isinstance(problem, AtCoderProblem)] *)
Definition isinstance_AtCoderProblem (p : pyobject) : bool :=
  match p with
  | Object o => is_AtCoderProblem o
  | RobustAtCoderProblem _ => false
  end.

Definition wrap_atcoder_problem (installed : bool) (problem : pyobject)
  : imported pyobject :=
  if installed
  then if isinstance_AtCoderProblem problem
       then Imported (RobustAtCoderProblem problem)
       else Imported problem
  else ImportError.

End Wrap.

Arguments Object {Obj} o.
Arguments RobustAtCoderProblem {Obj} _original.

End atcoder_robust.

(** ** [onlinejudge_command/atcoder_memory_limit_patch.py] *)

Module atcoder_memory_limit_patch.

(** r"Memory\s+Limit[:\s]*(\d+(?:\.\d+)?\s*[KMGT]?B)" *)
Definition pat_inline_en : regex :=
  label_en +> Many colon_sp +> Group 1 token_re.

(** The same with the Japanese label in place of r"Memory\s+Limit". *)
Definition pat_inline_ja : regex :=
  text_exact memory_limit_ja +> Many colon_sp +> Group 1 token_re.

(** r"<th[^>]*>Memory\s+Limit</th>\s*<td[^>]*>(CELL)</td>", where CELL is
    r"[^<]*[KMGT]?B[^<]*" *)
Definition pat_row_en : regex :=
  text_i (py "<th") +> Many not_gt +> text_i (py ">") +> label_en +>
  text_i (py "</th>") +> Many sp +> text_i (py "<td") +> Many not_gt +>
  text_i (py ">") +> Group 1 cell_re +> text_i (py "</td>").

(** The same with the Japanese label in place of r"Memory\s+Limit". *)
Definition pat_row_ja : regex :=
  text_i (py "<th") +> Many not_gt +> text_i (py ">") +>
  text_exact memory_limit_ja +>
  text_i (py "</th>") +> Many sp +> text_i (py "<td") +> Many not_gt +>
  text_i (py ">") +> Group 1 cell_re +> text_i (py "</td>").

(** r"(\d+(?:\.\d+)?\s*[KMGT]?B)\s*memory" *)
Definition pat_before_memory : regex :=
  Group 1 token_re +> Many sp +> text_i (py "memory").

(** r"limit[^>]*>([^<]*\d+[^<]*[KMGT]?B)": the group is [numbered_cell_re] *)
Definition pat_after_limit : regex :=
  text_i (py "limit") +> Many not_gt +> text_i (py ">") +>
  Group 1 numbered_cell_re.

Definition patterns : list regex :=
  [ pat_inline_en; pat_inline_ja; pat_row_en; pat_row_ja;
    pat_before_memory; pat_after_limit ].

(** r"\b(\d+(?:\.\d+)?\s*[KMGT]?B)\b" *)
Definition pat_scan : regex :=
  WordBoundary +> Group 1 token_re +> WordBoundary.

(** r"(\d+(?:\.\d+)?)\s*([KMGT]?)B" *)
Definition pat_split : regex :=
  Group 1 number_re +> Many sp +> Group 2 (Opt (Chr kmgt)) +> letter_b.

Section Extractor.
Variable U : ucd.

(** The loop [for pattern in patterns]: [Ok (Some _)] is its [return],
    [Ok None] its normal end. *)
Fixpoint labeled (todo : list regex) (html : str) : result (option str) :=
  match todo with
  | [] => Ok None
  | pattern :: todo' =>
      match re_search U pattern html with
      | Some m =>
          g <- not_none AttributeError (group 1 (caps m)) ;;
          Ok (Some (strip U g))
      | None => labeled todo' html
      end
  end.

Definition mb_value (number : pyfloat) (unit : str) : pyfloat :=
  if str_eqb unit (py "KB") then fdiv number 1024
  else if str_eqb unit (py "GB") then fmul number 1024
  else if str_eqb unit (py "TB") then fmul (fmul number 1024) 1024
  else number.

(** The loop [for value in common_memory_values], giving
    [memory_candidates]. *)
Fixpoint candidates (values : list str) : result (list str) :=
  match values with
  | [] => Ok []
  | value :: values' =>
      match re_match U pat_split value with
      | Some m =>
          number <- not_none TypeError (group 1 (caps m)) ;;
          number <- py_float U number ;;
          unit <- not_none AttributeError (group 2 (caps m)) ;;
          let unit := upper U unit in
          kept <- candidates values' ;;
          Ok (if in_range 64 8192 (mb_value number unit)
              then value :: kept else kept)
      | None => candidates values'
      end
  end.

Definition _patched_parse_memory_limit_from_html (html : str) : result (option str) :=
  found <- labeled patterns html ;;
  match found with
  | Some memory_limit => Ok (Some memory_limit)
  | None =>
      memory_candidates <- candidates (re_findall U pat_scan html) ;;
      match memory_candidates with
      | memory_limit :: _ => Ok (Some memory_limit)
      | [] => Ok None
      end
  end.

End Extractor.

(** The block that puts the recovered limit into the page (lines 128 to 136). *)

Definition label_missing (html : str) : bool :=
  negb (contains (py "Memory Limit") html) &&
  negb (contains memory_limit_ja html).

Definition memory_section (parsed_memory_limit : str) : str :=
  py "<tr><th>Memory Limit</th><td>" ++ parsed_memory_limit ++ py "</td></tr>".

Definition with_memory_section (html parsed_memory_limit : str) : str :=
  let memory_section := memory_section parsed_memory_limit in
  if contains (py "</table>") html
  then replace_first (py "</table>") (memory_section ++ py "</table>") html
  else py "<table>" ++ memory_section ++ py "</table>" ++ html.

(** *** [patched_from_html] *)

Section Patch.
Variable U : ucd.
Variables World Args Data E : Type.

(** [original_from_html(html, problem=..., session=..., response=...,
    timestamp=...)]: the method of the upstream library saved before the
    patch is applied. *)
Variable original_from_html :
  str -> Args -> World -> outcome E Data * World.

Record pstate := {
  world : World;
  trace : list str    (* the page texts given to [original_from_html] so far *)
}.

Local Notation "'P'" := (M E pstate).

Definition original_from_html_call (html : str) (args : Args) : P Data :=
  fun st =>
    let (r, w') := original_from_html html args (world st) in
    (r, {| world := w'; trace := trace st ++ [html] |}).

Definition patched_from_html (html : str) (args : Args) : P Data :=
  try_except (original_from_html_call html args)
    is_AssertionError
    (fun e =>
       try_except
         (parsed_memory_limit <~
            lift_result (_patched_parse_memory_limit_from_html U html) ;;
          match parsed_memory_limit with
          | Some ((_ :: _) as parsed_memory_limit) =>
              if label_missing html
              then original_from_html_call
                     (with_memory_section html parsed_memory_limit) args
              else throw e          (* the bare [raise] *)
          | _ => throw e            (* the bare [raise] *)
          end)
         is_Exception
         (fun patch_error => throw e)).

End Patch.

Arguments Build_pstate {World} world trace.
Arguments world {World} p.
Arguments trace {World} p.

(** *** [apply_atcoder_memory_limit_patch] *)

(** A value of the attribute [AtCoderProblemData._from_html]: the method of
    the upstream library, or the closure [patched_from_html] with the value
    it keeps in [original_from_html]. *)
Inductive from_html :=
| upstream_from_html
| patched (original_from_html : from_html).

(** What the import finds: no library, or the class [AtCoderProblemData]
    with its attribute [_from_html], if it has one. *)
Inductive library :=
| NotInstalled
| AtCoderProblemData (_from_html : option from_html).

(** The function returns nothing and lets no exception out; what it does is
    what it does to the class. *)
Definition apply_atcoder_memory_limit_patch (lib : library) : library :=
  match lib with
  | NotInstalled => NotInstalled                  (* [except ImportError] *)
  | AtCoderProblemData None => lib                (* the early [return] *)
  | AtCoderProblemData (Some original_from_html) =>
      AtCoderProblemData (Some (patched original_from_html))
  end.

Section Installed.
Variable U : ucd.
Variables World Args Data E : Type.
(** the method of the upstream library *)
Variable upstream : str -> Args -> World -> outcome E Data * World.

(** Calling a value of [AtCoderProblemData._from_html]. *)
Fixpoint call_from_html (f : from_html) (html : str) (args : Args) (w : World)
  : outcome E Data * World :=
  match f with
  | upstream_from_html => upstream html args w
  | patched original_from_html =>
      let (r, st) :=
        patched_from_html U World Args Data E (call_from_html original_from_html)
          html args {| world := w; trace := [] |} in
      (r, world st)
  end.

End Installed.

End atcoder_memory_limit_patch.

(** ** [tests/atcoder_robust.py] *)

Module tests_atcoder_robust.

Definition test_cases : list str :=
  [ py "
    <table>
        <tr><th>Time Limit</th><td>2 sec</td></tr>
        <tr><th>Memory Limit</th><td>1024 MB</td></tr>
    </table>
    ";
    py "
    <table>
        <tr><th>" ++ [23455; 34892; 26178; 38291; 21046; 38480]
      ++ py "</th><td>2 sec</td></tr>
        <tr><th>" ++ memory_limit_ja ++ py "</th><td>512 MB</td></tr>
    </table>
    ";
    py "
    <div>Memory Limit: 256 MB</div>
    ";
    py "
    <tr><th>Memory Limit</th><td>2 GB</td></tr>
    ";
    py "
    <div>Some other content without memory info</div>
    ";
    py "
    <div>Memory: 1024 MB for submissions</div>
    <div>Stack: 8 MB</div>
    " ].

Definition expected_results : list (option str) :=
  [ Some (py "1024 MB"); Some (py "512 MB"); Some (py "256 MB");
    Some (py "2 GB"); None; Some (py "1024 MB") ].

(** [result == expected] *)
Definition same (result expected : option str) : bool :=
  match result, expected with
  | Some a, Some b => str_eqb a b
  | None, None => true
  | _, _ => false
  end.

Section Tests.
Variable U : ucd.

(** The loop of [test_memory_limit_parsing], giving [passed]. *)
Fixpoint count_passed (cases : list (str * option str)) (passed : nat)
  : result nat :=
  match cases with
  | [] => Ok passed
  | (html, expected) :: cases' =>
      result <- atcoder_robust.parse_memory_limit_from_html U html ;;
      count_passed cases' (if same result expected then S passed else passed)
  end.

Definition test_memory_limit_parsing : result bool :=
  let total := length test_cases in
  passed <- count_passed (combine test_cases expected_results) 0%nat ;;
  Ok (Nat.eqb passed total).

(** [mock_problem] is an instance of a class of the test: no
    [AtCoderProblem].  The result is whether [wrapped is mock_problem], which
    the test prints, and the value the test returns. *)
Definition test_wrapper_functionality (installed : bool) : bool * bool :=
  let mock_problem := atcoder_robust.Object tt in
  match atcoder_robust.wrap_atcoder_problem unit (fun _ => false) installed
          mock_problem with
  | atcoder_robust.Imported (atcoder_robust.Object tt) => (true, true)
  | atcoder_robust.Imported _ => (false, true)
  | atcoder_robust.ImportError => (false, false)    (* [except Exception] *)
  end.

Definition run_tests (installed : bool) : result bool :=
  test1_passed <- test_memory_limit_parsing ;;
  let test2_passed := snd (test_wrapper_functionality installed) in
  let total_passed :=
    ((if test1_passed then 1 else 0) + (if test2_passed then 1 else 0))%nat in
  Ok (Nat.eqb total_passed 2).

End Tests.

End tests_atcoder_robust.

(** ** [test_memory_limit_patch.py] *)

Module test_memory_limit_patch.

Definition test_cases : list str :=
  [ py "
    <table>
        <tr><th>Time Limit</th><td>2 sec</td></tr>
        <tr><th>Memory Limit</th><td>1024 MB</td></tr>
    </table>
    ";
    py "
    <table>
        <tr><th>" ++ [23455; 34892; 26178; 38291; 21046; 38480]
      ++ py "</th><td>2 sec</td></tr>
        <tr><th>" ++ memory_limit_ja ++ py "</th><td>512 MB</td></tr>
    </table>
    ";
    py "
    <div>Memory Limit: 256 MB</div>
    ";
    py "
    <tr><th>Memory Limit</th><td>2 GB</td></tr>
    ";
    py "
    <div>Some other content without memory info</div>
    ";
    py "
    <div>Memory: 1024 MB for submissions</div>
    <div>Stack: 8 MB</div>
    " ].

Definition expected_results : list (option str) :=
  [ Some (py "1024 MB"); Some (py "512 MB"); Some (py "256 MB");
    Some (py "2 GB"); None; Some (py "1024 MB") ].

(** [result == expected] *)
Definition same (result expected : option str) : bool :=
  match result, expected with
  | Some a, Some b => str_eqb a b
  | None, None => true
  | _, _ => false
  end.

Section Tests.
Variable U : ucd.

(** The loop of [run_tests]: the status it prints for each case, [true] for
    the check mark. *)
Fixpoint statuses (cases : list (str * option str)) : result (list bool) :=
  match cases with
  | [] => Ok []
  | (html, expected) :: cases' =>
      result <-
        atcoder_memory_limit_patch._patched_parse_memory_limit_from_html U html ;;
      rest <- statuses cases' ;;
      Ok (same result expected :: rest)
  end.

Definition run_tests : result (list bool) :=
  statuses (combine test_cases expected_results).

End Tests.

End test_memory_limit_patch.

(** * Specifications *)

Module Robust := atcoder_robust.
Module Patch := atcoder_memory_limit_patch.

(** [a] occurs in [b] as a contiguous piece. *)
Definition infix (a b : str) : Prop := exists x y, b = x ++ a ++ y.

(** ** What the matcher accepts *)

Fixpoint no_group (r : regex) : bool :=
  match r with
  | Group _ _ => false
  | Opt r1 => no_group r1
  | Seq r1 r2 => no_group r1 && no_group r2
  | _ => true
  end.

(** The group [i], with body [G], is met exactly once on every way through
    [r]. *)
Inductive on_spine (i : nat) (G : regex) : regex -> Prop :=
| spine_here : on_spine i G (Group i G)
| spine_left r1 r2 :
    on_spine i G r1 -> no_group r2 = true -> on_spine i G (r1 +> r2)
| spine_right r1 r2 :
    no_group r1 = true -> on_spine i G r2 -> on_spine i G (r1 +> r2).

(** The position reached from [st] after the word [w], with groups [cps']. *)
Definition after (st : mstate) (w l : str) (cps' : list (nat * str)) : mstate :=
  {| before := rev w ++ before st; rest := l; caps := cps' |}.

Section Vocabulary.
Variable U : ucd.

(** [accepts r b w l cps cps']: between the text [b] before it (last
    character first) and the text [l] after it, the word [w] is a match of
    [r], and matching it turns the groups [cps] into [cps']. *)
Fixpoint accepts (r : regex) (b w l : str) (cps cps' : list (nat * str)) : Prop :=
  match r with
  | Eps => w = [] /\ cps' = cps
  | Chr k => exists c, w = [c] /\ in_class U k c = true /\ cps' = cps
  | Many k => Forall (fun c => in_class U k c = true) w /\ cps' = cps
  | Opt r1 => accepts r1 b w l cps cps' \/ (w = [] /\ cps' = cps)
  | Seq r1 r2 =>
      exists w1 w2 cps1,
        w = w1 ++ w2 /\
        accepts r1 b w1 (w2 ++ l) cps cps1 /\
        accepts r2 (rev w1 ++ b) w2 l cps1 cps'
  | Group i r1 => exists cps1, accepts r1 b w l cps cps1 /\ cps' = (i, w) :: cps1
  | WordBoundary =>
      w = [] /\ cps' = cps /\
      at_boundary U {| before := b; rest := l; caps := cps |} = true
  end.

Definition blank (w : str) : Prop := Forall (fun c => is_space U c = true) w.

(** The text is empty or starts with a character that is not white space. *)
Definition head_kept (w : str) : Prop :=
  match w with
  | c :: _ => is_space U c = false
  | [] => True
  end.

Definition all_digits (w : str) : Prop := Forall (fun c => is_digit U c = true) w.

(** [digits] or [digits.digits], each run of digits not empty. *)
Definition number_form (n : str) : Prop :=
  exists ip,
    ip <> [] /\ all_digits ip /\
    (n = ip \/ exists fp, fp <> [] /\ all_digits fp /\ n = ip ++ 46 :: fp).

(** A number, any run of white space, at most one of the letters K, M, G, T
    and the letter B, the letters in either case. *)
Definition token_form (tok : str) : Prop :=
  exists n ws u z,
    tok = n ++ ws ++ u ++ [z] /\
    number_form n /\ blank ws /\
    (u = [] \/ exists c, u = [c] /\ in_class U kmgt c = true) /\
    ieq U z (ch "b") = true.

(** A text without [<] that holds a letter B, in either case. *)
Definition cell_form (tok : str) : Prop :=
  ~ In (ch "<") tok /\ exists z, In z tok /\ ieq U z (ch "b") = true.

(** The form the specification gives to a token: a number, one space, and
    one of KB, MB, GB, TB in upper case. *)
Definition normalized_token (tok : str) : Prop :=
  exists n unit,
    number_form n /\
    In unit [py "KB"; py "MB"; py "GB"; py "TB"] /\
    tok = n ++ py " " ++ unit.

End Vocabulary.

(** Outside ASCII, a decimal digit or a character that matches a letter
    under IGNORECASE is not white space. *)
Definition table_ok (U : ucd) : Prop :=
  forall c,
    is_ascii c = false ->
    (uni_decimal U c <> None \/ exists x, uni_ieq U c x = true) ->
    uni_space U c = false.

(** ** The six labeled strategies, in words

    What each labeled pattern of [parse_memory_limit_from_html] asks of the
    page, written without the regular expressions.  The lemmas of
    [FormFacts] show that the patterns accept these texts and no others. *)

Inductive strategy :=
| inline_en | inline_ja | row_en | row_ja | before_memory | after_limit.

(** The strategies in the order of the list [patterns]. *)
Definition strategies : list strategy :=
  [inline_en; inline_ja; row_en; row_ja; before_memory; after_limit].

Definition pattern_of (s : strategy) : regex :=
  match s with
  | inline_en => Robust.pat_inline_en
  | inline_ja => Robust.pat_inline_ja
  | row_en => Robust.pat_row_en
  | row_ja => Robust.pat_row_ja
  | before_memory => Robust.pat_before_memory
  | after_limit => Robust.pat_after_limit
  end.

(** The place of a strategy in the list. *)
Definition rank (s : strategy) : nat :=
  match s with
  | inline_en => 0 | inline_ja => 1 | row_en => 2
  | row_ja => 3 | before_memory => 4 | after_limit => 5
  end.

(** The lower-case form of an ASCII letter. *)
Definition small (p : Z) : Z := if between 65 90 p then p + 32 else p.

Section Forms.
Variable U : ucd.

(** The character [c] of the page stands for the character [p] of a label.
    For a letter, [c] is that letter in lower or in upper case, or a
    character outside ASCII that the database pairs with it under
    IGNORECASE; another character stands for itself only. *)
Definition same_char (p c : Z) : bool :=
  if between 65 90 p || between 97 122 p
  then (c =? small p) || (c =? small p - 32)
       || (negb (is_ascii c) && uni_ieq U c (small p))
  else c =? p.

(** [w] reads as the ASCII text [p], letter case apart. *)
Definition reads (w : str) (p : string) : Prop :=
  Forall2 (fun c x => same_char x c = true) w (py p).

(** "Memory", white space (not none), "Limit", letter case apart. *)
Definition label_text (w : str) : Prop :=
  exists m ws l,
    w = m ++ ws ++ l /\ reads m "Memory" /\ ws <> [] /\ blank U ws /\
    reads l "Limit".

(** Colons and white space, in any number and order. *)
Definition separator (w : str) : Prop :=
  Forall (fun c => c = ch ":" \/ is_space U c = true) w.

(** A text without [<] that holds a digit and, after it, ends in the
    letter B. *)
Definition numbered_form (g : str) : Prop :=
  ~ In (ch "<") g /\
  exists x d y z,
    g = x ++ d :: y ++ [z] /\ is_digit U d = true /\ ieq U z (ch "b") = true.

(** A header cell with the label, then a data cell whose text [g] holds no
    [<] and a letter B; the tags may have attributes, white space may stand
    between the cells. *)
Definition row (label : str -> Prop) (w g : str) : Prop :=
  exists th a1 l cth ws td a2 ctd,
    w = th ++ a1 ++ [ch ">"] ++ l ++ cth ++ ws ++ td ++ a2 ++ [ch ">"] ++ g ++ ctd /\
    reads th "<th" /\ ~ In (ch ">") a1 /\ label l /\ reads cth "</th>" /\
    blank U ws /\ reads td "<td" /\ ~ In (ch ">") a2 /\
    cell_form U g /\ reads ctd "</td>".

(** [form s w g]: the text [w] states a limit in the way of the strategy
    [s], and [g] is the part of [w] that the strategy takes. *)
Definition form (s : strategy) (w g : str) : Prop :=
  match s with
  | inline_en =>
      exists l sep,
        w = l ++ sep ++ g /\ label_text l /\ separator sep /\ token_form U g
  | inline_ja =>
      exists sep,
        w = memory_limit_ja ++ sep ++ g /\ separator sep /\ token_form U g
  | row_en => row label_text w g
  | row_ja => row (fun l => l = memory_limit_ja) w g
  | before_memory =>
      exists ws m,
        w = g ++ ws ++ m /\ token_form U g /\ blank U ws /\ reads m "memory"
  | after_limit =>
      exists l a,
        w = l ++ a ++ [ch ">"] ++ g /\ reads l "limit" /\ ~ In (ch ">") a /\
        numbered_form g
  end.

(** Somewhere in the page a limit is stated in the way of [s], with the
    part [g] taken. *)
Definition occurs (s : strategy) (html g : str) : Prop :=
  exists pre w post, html = pre ++ w ++ post /\ form s w g.

(** [tok] is [g] without the white space at its two ends. *)
Definition trimmed (g tok : str) : Prop :=
  exists ws1 ws2,
    g = ws1 ++ tok ++ ws2 /\ blank U ws1 /\ blank U ws2 /\
    head_kept U tok /\ head_kept U (rev tok).

(** A number, any white space, and the letter B in either case: no unit
    letter. *)
Definition bare_b_token (tok : str) : Prop :=
  exists n ws z,
    tok = n ++ ws ++ [z] /\ number_form U n /\ blank U ws /\
    ieq U z (ch "b") = true.

(** The text [x] is empty or starts with a character outside [P]. *)
Definition stops (P : Z -> bool) (x : str) : Prop :=
  match x with
  | [] => True
  | c :: _ => P c = false
  end.

(** What follows a number in a token: white space, a unit letter or the
    letter B. *)
Definition after_number (x : str) : Prop :=
  match x with
  | [] => False
  | c :: _ =>
      is_space U c = true \/ in_class U kmgt c = true \/ ieq U c (ch "b") = true
  end.

End Forms.

(** Outside ASCII, a decimal digit matches none of the letters K, M, G, T
    and B under IGNORECASE, and a character that matches B matches none of
    K, M, G, T. *)
Definition letters_apart (U : ucd) : Prop :=
  forall c,
    is_ascii c = false ->
    (uni_decimal U c <> None ->
     forall x, In x [ch "k"; ch "m"; ch "g"; ch "t"; ch "b"] ->
               uni_ieq U c x = false) /\
    (uni_ieq U c (ch "b") = true ->
     forall x, In x [ch "k"; ch "m"; ch "g"; ch "t"] -> uni_ieq U c x = false).

(** A page that states the limit [tok] in the plainest way of the strategy
    [s], between the texts [pre] and [post]. *)
Definition labeled_page (s : strategy) (pre tok post : str) : str :=
  pre ++
  match s with
  | inline_en => py "Memory Limit: " ++ tok
  | inline_ja => memory_limit_ja ++ py ": " ++ tok
  | row_en => py "<th>Memory Limit</th><td>" ++ tok ++ py "</td>"
  | row_ja => py "<th>" ++ memory_limit_ja ++ py "</th><td>" ++ tok ++ py "</td>"
  | before_memory => tok ++ py " memory"
  | after_limit => py "limit>" ++ tok
  end ++ post.

(** ** The scan, from left to right *)

Section ScanOrder.
Variable U : ucd.

(** Between the text [b] before it (last character first) and the text [y]
    after it, [g] is a token with a word boundary at each end: a value of
    the scan. *)
Definition scan_form (b g y : str) : Prop :=
  token_form U g /\
  at_boundary U {| before := b; rest := g ++ y; caps := [] |} = true /\
  at_boundary U {| before := rev g ++ b; rest := y; caps := [] |} = true.

(** [scanned b l values]: reading [l] from the left, after [b], gives
    [values].  Where no value starts the reading moves one character on;
    where one starts it is the next value, and the reading goes on behind
    it. *)
Inductive scanned : str -> str -> list str -> Prop :=
| scanned_end b : scanned b [] []
| scanned_on b c l values :
    (forall g y, c :: l = g ++ y -> ~ scan_form b g y) ->
    scanned (c :: b) l values ->
    scanned b (c :: l) values
| scanned_value b l g y values :
    l = g ++ y ->
    scan_form b g y ->
    scanned (rev g ++ b) y values ->
    scanned b l (g :: values).

End ScanOrder.

(** ** The runs of the coordinators *)

Section CoordinatorVocabulary.
Variables World Url Resp Getter TestCase Args Data E : Type.
Variable get_url : Url.
Variable original_download :
  Robust.case_type -> Robust.session_arg -> World -> Robust.getter Resp Getter ->
  outcome E (list TestCase) * (World * Robust.getter Resp Getter).
Variable importable : bool.
Variable original_from_html :
  str -> Args -> World -> outcome E Data * World.

Local Abbreviation wstate := (Robust.wstate World Url Resp Getter).
Local Abbreviation TheSession := Robust.TheSession.
Local Abbreviation Download := Robust.Download.
Local Abbreviation Get := Robust.Get.

(** The state of the wrapper after the calls [calls], in the world [w], with
    [session.get] as it was in [st]. *)
Definition then_ (st : wstate) (w : World)
    (calls : list (Robust.event Url Resp Getter)) : wstate :=
  {| Robust.world := w;
     Robust.session_get := Robust.session_get st;
     Robust.trace := Robust.trace st ++ calls |}.

(** The calls of the original operation in a trace. *)
Fixpoint downloads (tr : list (Robust.event Url Resp Getter)) : nat :=
  match tr with
  | [] => 0
  | Robust.Download _ _ :: tr' => S (downloads tr')
  | Robust.Get _ :: tr' => downloads tr'
  end.

(** How [_download_with_robust_parsing] ends. *)
Inductive robust_end (c : Robust.case_type) (st : wstate)
  : outcome E (list TestCase) * wstate -> Prop :=
| end_no_session :
    robust_end c st (Return [], st)
| end_fallback w1 :
    robust_end c st (Return [], then_ st w1 [Get get_url])
| end_interrupted e w1 :
    is_Exception e = false ->
    robust_end c st (Throw e, then_ st w1 [Get get_url])
| end_retried hook r w1 w2 g2 :
    original_download c TheSession w1 hook = (r, (w2, g2)) ->
    robust_end c st
      (match r with
       | Return cases => Return cases
       | Throw e => if is_Exception e then Return [] else Throw e
       end,
       then_ st w2 [Get get_url; Download c hook])
| end_not_importable :
    importable = false ->
    robust_end c st (Throw (Builtin ModuleNotFoundError), st).

(** The state of the patch after [original_from_html] saw the pages [pages],
    in the world [w]. *)
Definition seen (st : Patch.pstate World) (w : World) (pages : list str)
  : Patch.pstate World :=
  {| Patch.world := w; Patch.trace := Patch.trace st ++ pages |}.

(** How [patched_from_html] ends. *)
Inductive patched_end (html : str) (args : Args) (st : Patch.pstate World)
  : outcome E Data * Patch.pstate World -> Prop :=
| end_passed r w1 :
    original_from_html html args (Patch.world st) = (r, w1) ->
    match r with Throw e => is_AssertionError e = false | _ => True end ->
    patched_end html args st (r, seen st w1 [html])
| end_reraised e w1 :
    original_from_html html args (Patch.world st) = (Throw e, w1) ->
    is_AssertionError e = true ->
    patched_end html args st (Throw e, seen st w1 [html])
| end_reparsed e w1 html' r w2 :
    original_from_html html args (Patch.world st) = (Throw e, w1) ->
    is_AssertionError e = true ->
    original_from_html html' args w1 = (r, w2) ->
    patched_end html args st
      (match r with
       | Return data => Return data
       | Throw e2 => if is_Exception e2 then Throw e else Throw e2
       end,
       seen st w2 [html; html']).

End CoordinatorVocabulary.

Arguments then_ {World Url Resp Getter} st w calls.
Arguments downloads {Url Resp Getter} tr.
Arguments robust_end {World Url Resp Getter TestCase E} get_url original_download importable c st _.
Arguments end_no_session {World Url Resp Getter TestCase E} get_url original_download importable c st.
Arguments end_fallback {World Url Resp Getter TestCase E} get_url original_download importable c st w1.
Arguments end_interrupted {World Url Resp Getter TestCase E} get_url original_download importable c st e w1 _.
Arguments end_retried {World Url Resp Getter TestCase E} get_url original_download importable c st hook r w1 w2 g2 _.
Arguments end_not_importable {World Url Resp Getter TestCase E} get_url original_download importable c st _.
Arguments seen {World} st w pages.
Arguments patched_end {World Args Data E} original_from_html html args st _.
Arguments end_passed {World Args Data E} original_from_html html args st r w1 _ _.
Arguments end_reraised {World Args Data E} original_from_html html args st e w1 _ _.
Arguments end_reparsed {World Args Data E} original_from_html html args st e w1 html' r w2 _ _ _.

(** ** A small world for the coordinators

    One page, without a memory limit; a network that always gives it; an
    upstream library that always fails. *)

Definition page_without_limit : str :=
  py "<table><tr><th>Time Limit</th><td>2 sec</td></tr></table>".

Definition one_page_get (g u w : unit) : outcome unit str * unit :=
  (Return page_without_limit, w).

Definition asserting_download (c : Robust.case_type) (session : Robust.session_arg)
    (w : unit) (g : Robust.getter str unit)
  : outcome unit (list unit) * (unit * Robust.getter str unit) :=
  (Throw (AssertionError tt), (w, g)).

Definition broken_download (c : Robust.case_type) (session : Robust.session_arg)
    (w : unit) (g : Robust.getter str unit)
  : outcome unit (list unit) * (unit * Robust.getter str unit) :=
  (Throw (OtherException tt), (w, g)).

Definition asserting_from_html (html : str) (args w : unit)
  : outcome unit unit * unit :=
  (Throw (AssertionError tt), w).

Definition fresh : Robust.wstate unit unit str unit :=
  {| Robust.world := tt;
     Robust.session_get := Robust.BoundGet tt;
     Robust.trace := [] |}.

Definition fresh_patch : Patch.pstate unit :=
  {| Patch.world := tt; Patch.trace := [] |}.

(** A page with a limit and no label, and an upstream library that fails
    until the page it is given (by the network, or as its argument) holds
    the label. *)
Definition page_with_bare_limit : str :=
  py "<div>Memory: 1024 MB for submissions</div>".

Definition bare_limit_get (g u w : unit) : outcome unit str * unit :=
  (Return page_with_bare_limit, w).

Definition needs_label_download (c : Robust.case_type)
    (session : Robust.session_arg) (w : unit) (g : Robust.getter str unit)
  : outcome unit (list str) * (unit * Robust.getter str unit) :=
  match g with
  | Robust.mock_get html _ _ =>
      if contains (py "Memory Limit") html
      then (Return [html], (w, g))
      else (Throw (AssertionError tt), (w, g))
  | Robust.BoundGet _ => (Throw (AssertionError tt), (w, g))
  end.

Definition needs_label_from_html (html : str) (args w : unit)
  : outcome unit str * unit :=
  if contains (py "Memory Limit") html
  then (Return html, w)
  else (Throw (AssertionError tt), w).

(** The user's interrupt, raised by the retried operation. *)
Definition interrupted_download (c : Robust.case_type)
    (session : Robust.session_arg) (w : unit) (g : Robust.getter str unit)
  : outcome unit (list str) * (unit * Robust.getter str unit) :=
  match g with
  | Robust.mock_get _ _ _ => (Throw (BaseOnly tt), (w, g))
  | Robust.BoundGet _ => (Throw (AssertionError tt), (w, g))
  end.

Definition interrupted_from_html (html : str) (args w : unit)
  : outcome unit str * unit :=
  if contains (py "Memory Limit") html
  then (Throw (BaseOnly tt), w)
  else (Throw (AssertionError tt), w).

(** A network that is down, and one that answers with an error status. *)
Definition failing_get (g u w : unit) : outcome unit str * unit :=
  (Throw (OtherException tt), w).

(** A network with two pages: the problem's page at the url [true], another
    page at the url [false]. *)
Definition two_page_get (g : unit) (u : bool) (w : unit)
  : outcome unit str * unit :=
  (Return (if u then page_with_bare_limit else py "another page"), w).

(** The state inside a retry: [session.get] is a [mock_get]. *)
Definition inside_retry : Robust.wstate unit unit str unit :=
  {| Robust.world := tt;
     Robust.session_get :=
       Robust.mock_get page_with_bare_limit
         (Robust.Fetched page_with_bare_limit) (Robust.BoundGet tt);
     Robust.trace := [] |}.

(** ** Pages for the extractor

    A row in mixed letter case whose cell holds white space around a limit
    outside the window; a limit in a [span] after the word "limit"; three
    values without a label. *)

Definition page_with_row : str :=
  py "<TH class=x>memory  LIMIT</th> <Td> 1 tb </TD>".

Definition page_with_limit_span : str :=
  py "limit: <span>up to 1024 MB, really</span>".

Definition page_with_three_values : str :=
  py "a 8 MB b 64 MB c 128 MB".

(** ** Literal text of a pattern

    The character [c] of a pattern compiled with [re.IGNORECASE] matches the
    character [c] of a text. *)

Definition matches_itself (U : ucd) (c : Z) : bool :=
  match chr_i c with
  | Chr k => in_class U k c
  | _ => false
  end.

(** ** The scan, value by value *)

Section ScanVocabulary.
Variable U : ucd.

(** What one round of the loop over the values of the scan decides. *)
Definition plausible (value : str) : bool :=
  match re_match U Robust.pat_split value with
  | Some m =>
      match group 1 (caps m), group 2 (caps m) with
      | Some number, Some unit =>
          match py_float U number with
          | Ok number => in_range 64 8192 (Robust.mb_value number (upper U unit))
          | Raise _ => false
          end
      | _, _ => false
      end
  | None => false
  end.

(** [tok] is the first plausible value of [values]. *)
Definition first_plausible (values : list str) (tok : str) : Prop :=
  exists earlier later,
    values = earlier ++ tok :: later /\
    plausible tok = true /\
    Forall (fun v => plausible v = false) earlier.

End ScanVocabulary.

(** ** Patches upon patches *)

(** The number of closures [patched_from_html] around the upstream method. *)
Fixpoint patches (f : Patch.from_html) : nat :=
  match f with
  | Patch.upstream_from_html => 0
  | Patch.patched g => S (patches g)
  end.

(** The same method, counting its calls in the world. *)
Definition counting {World Args Data E : Type}
    (upstream : str -> Args -> World -> outcome E Data * World)
    (html : str) (args : Args) (w : World * nat)
  : outcome E Data * (World * nat) :=
  let (r, w') := upstream html args (fst w) in
  (r, (w', S (snd w))).

(** ** The characters of the Japanese test page

    A character database with the rows of U+5B9F, U+884C, U+6642, U+9593,
    U+5236, U+9650, U+30E1, U+30E2, U+30EA as Unicode has them: letters,
    no digits, no white space, without case. *)

Definition japanese_letter (c : Z) : bool :=
  existsb (Z.eqb c)
    [23455; 34892; 26178; 38291; 21046; 38480; 12513; 12514; 12522].

Definition with_japanese_letters (U : ucd) : ucd :=
  {| uni_decimal := fun c => if japanese_letter c then None else uni_decimal U c;
     uni_space := fun c => if japanese_letter c then false else uni_space U c;
     uni_alnum := fun c => if japanese_letter c then true else uni_alnum U c;
     uni_ieq := fun c x => if japanese_letter c then false else uni_ieq U c x;
     uni_upper := fun c => if japanese_letter c then [c] else uni_upper U c |}.

(** * Proofs *)

(** ** What the matcher accepts *)

Section MatcherFacts.
Variable U : ucd.

Lemma firstn_consumed (w l : str) :
  firstn (length (w ++ l) - length l) (w ++ l) = w.
Proof.
  rewrite length_app.
  replace (length w + length l - length l)%nat with (length w + 0)%nat by lia.
  rewrite firstn_app_2. simpl. apply app_nil_r.
Qed.

Lemma many_k_sound (A : Type) (k : cclass) (cps : list (nat * str))
    (outer : mstate -> option A) (l b : str) (a : A) :
  many_k U k cps outer b l = Some a ->
  exists w l',
    l = w ++ l' /\ Forall (fun c => in_class U k c = true) w /\
    outer {| before := rev w ++ b; rest := l'; caps := cps |} = Some a.
Proof.
  revert b. induction l as [|c t IH]; intros b H; simpl in H.
  - exists [], []. auto.
  - destruct (in_class U k c) eqn:Hc.
    + destruct (many_k U k cps outer (c :: b) t) eqn:Hm.
      * inversion H; subst a0; clear H.
        destruct (IH _ Hm) as (w & l' & -> & Hw & Ho).
        exists (c :: w), l'. repeat split; auto.
        simpl. rewrite <- app_assoc. exact Ho.
      * exists [], (c :: t). auto.
    + exists [], (c :: t). auto.
Qed.

Lemma exec_sound (r : regex) :
  forall (A : Type) (outer : mstate -> option A) (st : mstate) (a : A),
    exec U r outer st = Some a ->
    exists w l cps',
      rest st = w ++ l /\
      accepts U r (before st) w l (caps st) cps' /\
      outer (after st w l cps') = Some a.
Proof.
  induction r as [ |k|k|r1 IH1|r1 IH1 r2 IH2|i r1 IH1| ];
    intros A outer st a H; simpl in H.
  - exists [], (rest st), (caps st). simpl. destruct st; auto.
  - destruct (rest st) as [|c t] eqn:Hr; [discriminate|].
    destruct (in_class U k c) eqn:Hc; [|discriminate].
    exists [c], t, (caps st). simpl. split; [reflexivity|]. split; eauto.
  - destruct (many_k_sound _ _ _ _ _ _ _ H) as (w & l' & Hl & Hw & Ho).
    exists w, l', (caps st). simpl. auto.
  - destruct (exec U r1 outer st) eqn:He.
    + inversion H; subst a0; clear H.
      destruct (IH1 _ _ _ _ He) as (w & l & cps' & Hl & Ha & Ho).
      exists w, l, cps'. simpl. auto.
    + exists [], (rest st), (caps st). simpl. destruct st; auto.
  - destruct (IH1 _ _ _ _ H) as (w1 & l1 & cps1 & Hl1 & Ha1 & Ho1).
    destruct (IH2 _ _ _ _ Ho1) as (w2 & l & cps' & Hl2 & Ha2 & Ho2).
    simpl in Hl2, Ha2. subst l1.
    exists (w1 ++ w2), l, cps'. split; [rewrite Hl1; apply app_assoc|].
    split.
    + simpl. exists w1, w2, cps1. auto.
    + unfold after in *. simpl in *.
      rewrite rev_app_distr, <- app_assoc. exact Ho2.
  - destruct (IH1 _ _ _ _ H) as (w & l & cps1 & Hl & Ha & Ho).
    exists w, l, ((i, w) :: cps1). split; [exact Hl|]. split.
    + simpl. eauto.
    + unfold close_group, after in *. simpl in Ho.
      rewrite Hl, firstn_consumed in Ho. exact Ho.
  - destruct (at_boundary U st) eqn:Hb; [|discriminate].
    exists [], (rest st), (caps st). simpl. destruct st; auto.
Qed.

Lemma match_at_sound (r : regex) (b l : str) (m : mstate) :
  match_at U r b l = Some m ->
  exists w l',
    l = w ++ l' /\ accepts U r b w l' [] (caps m) /\
    before m = rev w ++ b /\ rest m = l'.
Proof.
  intros H. apply exec_sound in H.
  destruct H as (w & l' & cps' & Hl & Ha & Ho). simpl in *.
  inversion Ho; subst m; clear Ho. simpl.
  exists w, l'. repeat split; auto.
Qed.

Lemma search_from_sound (r : regex) (l b : str) (m : mstate) :
  search_from U r b l = Some m ->
  exists pre w l',
    l = pre ++ w ++ l' /\ accepts U r (rev pre ++ b) w l' [] (caps m).
Proof.
  revert b. induction l as [|c t IH]; intros b H; simpl in H.
  - destruct (match_at U r b []) eqn:Hm; [|discriminate].
    inversion H; subst m0; clear H.
    destruct (match_at_sound _ _ _ _ Hm) as (w & l' & Hl & Ha & _).
    exists [], w, l'. auto.
  - destruct (match_at U r b (c :: t)) eqn:Hm.
    + inversion H; subst m0; clear H.
      destruct (match_at_sound _ _ _ _ Hm) as (w & l' & Hl & Ha & _).
      exists [], w, l'. auto.
    + destruct (IH _ H) as (pre & w & l' & -> & Ha).
      exists (c :: pre), w, l'. split; [reflexivity|].
      simpl. rewrite <- app_assoc. exact Ha.
Qed.

Lemma re_search_sound (r : regex) (text : str) (m : mstate) :
  re_search U r text = Some m ->
  exists pre w l',
    text = pre ++ w ++ l' /\ accepts U r (rev pre) w l' [] (caps m).
Proof.
  intros H. destruct (search_from_sound _ _ _ _ H) as (pre & w & l' & Hl & Ha).
  rewrite app_nil_r in Ha. eauto.
Qed.

Lemma re_match_sound (r : regex) (text : str) (m : mstate) :
  re_match U r text = Some m ->
  exists w l', text = w ++ l' /\ accepts U r [] w l' [] (caps m).
Proof.
  intros H. destruct (match_at_sound _ _ _ _ H) as (w & l' & Hl & Ha & _).
  eauto.
Qed.

Lemma findall_from_sound (r : regex) (l : str) :
  forall (skip : nat) (b v : str),
    In v (findall_from U r skip b l) ->
    exists pre w l' cps,
      l = pre ++ w ++ l' /\ accepts U r (rev pre ++ b) w l' [] cps /\
      v = match group 1 cps with Some g => g | None => [] end.
Proof.
  induction l as [|c t IH]; intros skip b v H.
  - destruct skip; simpl in H; [|contradiction].
    destruct (match_at U r b []) eqn:Hm; [|contradiction].
    destruct H as [H|[]].
    destruct (match_at_sound _ _ _ _ Hm) as (w & l' & Hl & Ha & _).
    exists [], w, l', (caps m). auto.
  - assert (Hshift : forall n,
               In v (findall_from U r n (c :: b) t) ->
               exists pre w l' cps,
                 c :: t = pre ++ w ++ l' /\ accepts U r (rev pre ++ b) w l' [] cps /\
                 v = match group 1 cps with Some g => g | None => [] end).
    { intros n Hn. destruct (IH _ _ _ Hn) as (pre & w & l' & cps & -> & Ha & Hv).
      exists (c :: pre), w, l', cps. split; [reflexivity|].
      simpl. rewrite <- app_assoc. auto. }
    destruct skip; simpl in H; [|eauto].
    destruct (match_at U r b (c :: t)) eqn:Hm; [|eauto].
    destruct H as [H|H]; [|eauto].
    destruct (match_at_sound _ _ _ _ Hm) as (w & l' & Hl & Ha & _).
    exists [], w, l', (caps m). auto.
Qed.

(** *** Where a group is, and what it holds after a match *)

Lemma accepts_no_group (r : regex) :
  forall b w l cps cps',
    no_group r = true -> accepts U r b w l cps cps' -> cps' = cps.
Proof.
  induction r as [ |k|k|r1 IH1|r1 IH1 r2 IH2|i r1 IH1| ];
    intros b w l cps cps' Hn Ha; simpl in *.
  - tauto.
  - destruct Ha as (c & _ & _ & ->); reflexivity.
  - tauto.
  - destruct Ha as [Ha|[_ ->]]; eauto.
  - apply andb_true_iff in Hn. destruct Hn as [Hn1 Hn2].
    destruct Ha as (w1 & w2 & cps1 & _ & Ha1 & Ha2).
    rewrite (IH2 _ _ _ _ _ Hn2 Ha2). eauto.
  - discriminate.
  - tauto.
Qed.

Lemma spine_capture (i : nat) (G r : regex) :
  on_spine i G r -> no_group G = true ->
  forall b w l cps cps',
    accepts U r b w l cps cps' ->
    exists x g y,
      w = x ++ g ++ y /\ cps' = (i, g) :: cps /\
      accepts U G (rev x ++ b) g (y ++ l) cps cps.
Proof.
  intros Hs HG. induction Hs as [|r1 r2 Hs IH Hn|r1 r2 Hn Hs IH];
    intros b w l cps cps' Ha; simpl in Ha.
  - destruct Ha as (cps1 & Ha & ->).
    pose proof (accepts_no_group _ _ _ _ _ _ HG Ha) as ->.
    exists [], w, []. simpl. rewrite app_nil_r. auto.
  - destruct Ha as (w1 & w2 & cps1 & -> & Ha1 & Ha2).
    pose proof (accepts_no_group _ _ _ _ _ _ Hn Ha2) as ->.
    destruct (IH _ _ _ _ _ Ha1) as (x & g & y & -> & -> & Hg).
    exists x, g, (y ++ w2). rewrite <- !app_assoc in *. auto.
  - destruct Ha as (w1 & w2 & cps1 & -> & Ha1 & Ha2).
    pose proof (accepts_no_group _ _ _ _ _ _ Hn Ha1) as ->.
    destruct (IH _ _ _ _ _ Ha2) as (x & g & y & -> & -> & Hg).
    exists (w1 ++ x), g, y. rewrite rev_app_distr, <- !app_assoc in *. auto.
Qed.

End MatcherFacts.

(** ** Facts on [str.strip] and [float] *)

Section StringFacts.
Variable U : ucd.

Lemma infix_refl (a : str) : infix a a.
Proof. exists [], []. simpl. now rewrite app_nil_r. Qed.

Lemma infix_trans (a b c : str) : infix a b -> infix b c -> infix a c.
Proof.
  intros (x & y & ->) (x' & y' & ->).
  exists (x' ++ x), (y ++ y'). now rewrite <- !app_assoc.
Qed.

Lemma lstrip_split (w : str) : exists ws, w = ws ++ lstrip U w /\ blank U ws.
Proof.
  induction w as [|c t (ws & Ht & Hws)]; simpl.
  - exists []. split; [reflexivity|constructor].
  - destruct (is_space U c) eqn:Hc.
    + exists (c :: ws). split; [simpl; congruence|constructor; auto].
    + exists []. split; [reflexivity|constructor].
Qed.

Lemma lstrip_head (w : str) : head_kept U (lstrip U w).
Proof.
  induction w as [|c t IH]; simpl; [exact I|].
  destruct (is_space U c) eqn:Hc; [exact IH|exact Hc].
Qed.

Lemma lstrip_kept (w : str) : head_kept U w -> lstrip U w = w.
Proof. destruct w as [|c t]; simpl; [reflexivity|]. now intros ->. Qed.

Lemma head_kept_prefix (a b : str) : head_kept U (a ++ b) -> head_kept U a.
Proof. destruct a; simpl; auto. Qed.

Lemma strip_split (w : str) :
  exists a b, w = a ++ strip U w ++ b /\ blank U a /\ blank U b.
Proof.
  unfold strip, rstrip.
  destruct (lstrip_split w) as (a & Ha & Hba).
  destruct (lstrip_split (rev (lstrip U w))) as (b & Hb & Hbb).
  exists a, (rev b). split; [|split; [exact Hba|now apply Forall_rev]].
  rewrite <- rev_app_distr, <- Hb, rev_involutive. exact Ha.
Qed.

Lemma strip_infix (w : str) : infix (strip U w) w.
Proof. destruct (strip_split w) as (a & b & H & _). now exists a, b. Qed.

Lemma strip_strip (w : str) : strip U (strip U w) = strip U w.
Proof.
  unfold strip, rstrip.
  set (y := lstrip U w). set (z := lstrip U (rev y)).
  assert (Hz : head_kept U z) by apply lstrip_head.
  assert (Hrz : head_kept U (rev z)).
  { destruct (lstrip_split (rev y)) as (ws & Hy & _). fold z in Hy.
    apply (f_equal (@rev Z)) in Hy. rewrite rev_involutive, rev_app_distr in Hy.
    apply head_kept_prefix with (b := rev ws). rewrite <- Hy. apply lstrip_head. }
  rewrite (lstrip_kept _ Hrz), rev_involutive, (lstrip_kept _ Hz). reflexivity.
Qed.

(** A text that starts and ends with characters that are not white space is
    its own [strip]. *)
Lemma strip_kept (c d : Z) (mid : str) :
  is_space U c = false -> is_space U d = false ->
  strip U (c :: mid ++ [d]) = c :: mid ++ [d].
Proof.
  intros Hc Hd. unfold strip, rstrip.
  rewrite (lstrip_kept (c :: mid ++ [d]) Hc).
  assert (Hr : rev (c :: mid ++ [d]) = d :: rev (c :: mid)).
  { change (c :: mid ++ [d]) with ((c :: mid) ++ [d]).
    rewrite rev_app_distr. reflexivity. }
  rewrite Hr, lstrip_kept by exact Hd.
  rewrite <- Hr. apply rev_involutive.
Qed.

Lemma strip_keeps (w : str) (c : Z) :
  In c w -> is_space U c = false -> In c (strip U w).
Proof.
  intros Hin Hc. destruct (strip_split w) as (a & b & Hw & Ha & Hb).
  rewrite Hw in Hin. unfold blank in *. rewrite Forall_forall in Ha, Hb.
  apply in_app_or in Hin. destruct Hin as [Hin|Hin].
  - apply Ha in Hin. congruence.
  - apply in_app_or in Hin. destruct Hin as [Hin|Hin]; [exact Hin|].
    apply Hb in Hin. congruence.
Qed.

(** *** Numbers *)

Lemma digit_not_point (c : Z) : is_digit U c = true -> (c =? 46) = false.
Proof.
  intros H. destruct (c =? 46) eqn:E; [|reflexivity].
  apply Z.eqb_eq in E. subst c. discriminate H.
Qed.

Lemma split_point_digits (ip : str) :
  all_digits U ip -> split_point ip = (ip, None).
Proof.
  induction 1 as [|c t Hc _ IH]; simpl; [reflexivity|].
  now rewrite (digit_not_point _ Hc), IH.
Qed.

Lemma split_point_fraction (ip fp : str) :
  all_digits U ip -> split_point (ip ++ 46 :: fp) = (ip, Some fp).
Proof.
  induction 1 as [|c t Hc _ IH]; simpl; [reflexivity|].
  now rewrite (digit_not_point _ Hc), IH.
Qed.

Lemma digits_value_some (w : str) :
  all_digits U w -> forall acc, exists n, digits_value U acc w = Some n.
Proof.
  induction 1 as [|c t Hc _ IH]; intros acc; simpl; [eauto|].
  unfold is_digit in Hc. destruct (decimal_of U c); [apply IH|discriminate].
Qed.

(** [float] accepts every text of the form of a number. *)
Lemma py_float_number (n : str) :
  number_form U n -> exists x, py_float U n = Ok x.
Proof.
  intros (ip & Hne & Hip & [->|(fp & _ & Hfp & ->)]); unfold py_float.
  - rewrite (split_point_digits _ Hip). cbv beta iota zeta.
    rewrite app_nil_r.
    destruct (digits_value_some _ Hip 0) as (v & Hv).
    destruct ip as [|c t]; [congruence|].
    rewrite Hv. eauto.
  - rewrite (split_point_fraction _ _ Hip). cbv beta iota zeta.
    assert (Hall : all_digits U (ip ++ fp)) by (apply Forall_app; auto).
    destruct (digits_value_some _ Hall 0) as (v & Hv).
    destruct (ip ++ fp) as [|z rest] eqn:E.
    + destruct ip; [congruence|discriminate].
    + rewrite Hv. eauto.
Qed.

End StringFacts.

(** ** What the groups of the patterns hold *)

Section PatternFacts.
Variable U : ucd.

Ltac break :=
  repeat match goal with
         | H : exists _, _ |- _ => destruct H
         | H : _ /\ _ |- _ => destruct H
         end.

Lemma accepts_many1 (k : cclass) b w l cps cps' :
  accepts U (Many1 k) b w l cps cps' ->
  w <> [] /\ Forall (fun c => in_class U k c = true) w /\ cps' = cps.
Proof.
  unfold Many1. cbn [accepts]. intros H. break. subst.
  split; [discriminate|]. split; [|reflexivity].
  constructor; assumption.
Qed.

Lemma accepts_number_re b w l cps cps' :
  accepts U number_re b w l cps cps' -> number_form U w.
Proof.
  unfold number_re. cbn [accepts].
  intros (w1 & w2 & cps1 & -> & H1 & [H2|[-> _]]).
  - destruct H2 as (p & w3 & cps2 & -> & (c & -> & Hc & _) & H3).
    apply accepts_many1 in H1, H3. break.
    apply Z.eqb_eq in Hc. subst c.
    exists w1. split; [assumption|]. split; [assumption|].
    right. exists w3. auto.
  - apply accepts_many1 in H1. break.
    exists w1. rewrite app_nil_r. auto.
Qed.

Lemma accepts_unit_letter b w l cps cps' :
  accepts U (Opt (Chr kmgt)) b w l cps cps' ->
  w = [] \/ exists c, w = [c] /\ in_class U kmgt c = true.
Proof.
  cbn [accepts]. intros [(c & -> & Hc & _)|[-> _]]; eauto.
Qed.

Lemma accepts_letter_b b w l cps cps' :
  accepts U letter_b b w l cps cps' ->
  exists z, w = [z] /\ ieq U z (ch "b") = true.
Proof.
  unfold letter_b. cbn [accepts]. intros (c & -> & Hc & _). eauto.
Qed.

Lemma accepts_token_re b w l cps cps' :
  accepts U token_re b w l cps cps' -> token_form U w.
Proof.
  unfold token_re. cbn [accepts].
  intros (n & w1 & cps1 & -> & Hn & ws & w2 & cps2 & -> & (Hws & _) &
          u & w3 & cps3 & -> & Hu & Hb).
  apply accepts_number_re in Hn. apply (accepts_unit_letter [] _ []) in Hu.
  apply accepts_letter_b in Hb. destruct Hb as (z & -> & Hz).
  exists n, ws, u, z. split; [reflexivity|]. tauto.
Qed.

Lemma not_lt_char (c : Z) : in_class U not_lt c = true -> c <> ch "<".
Proof.
  intros H ->. discriminate H.
Qed.

Lemma ieq_char_not_lt (c x : Z) : ieq U c x = true -> x <> ch "<" -> c <> ch "<".
Proof.
  intros H Hx ->. apply Hx. cbv in H.
  destruct x as [|x|x]; try discriminate H.
  symmetry. apply Z.eqb_eq. exact H.
Qed.

Lemma unit_letter_not_lt (c : Z) : in_class U kmgt c = true -> c <> ch "<".
Proof.
  intros H ->. discriminate H.
Qed.

Lemma not_lt_run (w : str) :
  Forall (fun c => in_class U not_lt c = true) w -> ~ In (ch "<") w.
Proof.
  intros H Hin. rewrite Forall_forall in H.
  exact (not_lt_char _ (H _ Hin) eq_refl).
Qed.

Lemma unit_letter_run (u : str) :
  u = [] \/ (exists c, u = [c] /\ in_class U kmgt c = true) -> ~ In (ch "<") u.
Proof.
  intros [->|(c & -> & Hc)] Hin; [exact Hin|].
  destruct Hin as [Hin|[]]. exact (unit_letter_not_lt _ Hc Hin).
Qed.

Lemma accepts_cell_re b w l cps cps' :
  accepts U cell_re b w l cps cps' -> cell_form U w.
Proof.
  unfold cell_re. cbn [accepts].
  intros (x & w1 & cps1 & -> & (Hx & _) & u & w2 & cps2 & -> & Hu &
          zs & y & cps3 & -> & Hb & (Hy & _)).
  apply (accepts_unit_letter [] _ []) in Hu. apply accepts_letter_b in Hb.
  destruct Hb as (z & -> & Hz). split.
  - rewrite !in_app_iff. intros [H|[H|[H|H]]].
    + exact (not_lt_run _ Hx H).
    + exact (unit_letter_run _ Hu H).
    + destruct H as [H|[]].
      apply (ieq_char_not_lt _ _ Hz); [now cbv|exact H].
    + exact (not_lt_run _ Hy H).
  - exists z. split; [|exact Hz]. rewrite !in_app_iff. simpl. tauto.
Qed.

Lemma accepts_numbered_cell_re b w l cps cps' :
  accepts U numbered_cell_re b w l cps cps' -> cell_form U w.
Proof.
  unfold numbered_cell_re. cbn [accepts].
  intros (x & w1 & cps1 & -> & (Hx & _) & ds & w2 & cps2 & -> & Hds &
          y & w3 & cps3 & -> & (Hy & _) & u & w4 & cps4 & -> & Hu & Hb).
  apply accepts_many1 in Hds. destruct Hds as (_ & Hds & _).
  apply (accepts_unit_letter [] _ []) in Hu. apply accepts_letter_b in Hb.
  destruct Hb as (z & -> & Hz). split.
  - rewrite !in_app_iff. intros [H|[H|[H|[H|H]]]].
    + exact (not_lt_run _ Hx H).
    + rewrite Forall_forall in Hds. specialize (Hds _ H). discriminate Hds.
    + exact (not_lt_run _ Hy H).
    + exact (unit_letter_run _ Hu H).
    + destruct H as [H|[]].
      apply (ieq_char_not_lt _ _ Hz); [now cbv|exact H].
  - exists z. split; [|exact Hz]. rewrite !in_app_iff. simpl. tauto.
Qed.

End PatternFacts.

(** ** The extractor *)

Section ExtractorFacts.
Variable U : ucd.

Ltac find_spine :=
  repeat first
    [ apply spine_here
    | apply spine_right; [reflexivity|]
    | apply spine_left; [|reflexivity] ].

(** Every labeled pattern meets its group 1 exactly once; the group is a
    token, a cell or a numbered cell. *)
Lemma patterns_spine (p : regex) :
  In p Robust.patterns ->
  exists G,
    on_spine 1 G p /\ no_group G = true /\
    (G = token_re \/ G = cell_re \/ G = numbered_cell_re).
Proof.
  unfold Robust.patterns. simpl In.
  intros [<-|[<-|[<-|[<-|[<-|[<-|[]]]]]]].
  - exists token_re. split; [unfold Robust.pat_inline_en; find_spine|auto].
  - exists token_re. split; [unfold Robust.pat_inline_ja; find_spine|auto].
  - exists cell_re. split; [unfold Robust.pat_row_en; find_spine|auto].
  - exists cell_re. split; [unfold Robust.pat_row_ja; find_spine|auto].
  - exists token_re. split; [unfold Robust.pat_before_memory; find_spine|auto].
  - exists numbered_cell_re.
    split; [unfold Robust.pat_after_limit; find_spine|auto].
Qed.

Lemma scan_spine : on_spine 1 token_re Robust.pat_scan.
Proof. unfold Robust.pat_scan. find_spine. Qed.

(** A successful search of a pattern with group 1 on its spine: the group
    holds a piece of the text that its body accepts. *)
Lemma search_group (p G : regex) (html : str) (m : mstate) :
  on_spine 1 G p -> no_group G = true ->
  re_search U p html = Some m ->
  exists g b l,
    group 1 (caps m) = Some g /\ infix g html /\ accepts U G b g l [] [].
Proof.
  intros Hs HG H.
  destruct (re_search_sound _ _ _ _ H) as (pre & w & l' & -> & Ha).
  destruct (spine_capture _ _ _ _ Hs HG _ _ _ _ _ Ha) as (x & g & y & -> & Hc & Hg).
  exists g, (rev x ++ rev pre), (y ++ l'). rewrite Hc. simpl.
  split; [reflexivity|]. split; [|exact Hg].
  exists (pre ++ x), (y ++ l'). now rewrite <- !app_assoc.
Qed.

Lemma labeled_found (todo : list regex) (html tok : str) :
  Robust.labeled U todo html = Ok (Some tok) ->
  exists p m g,
    In p todo /\ re_search U p html = Some m /\
    group 1 (caps m) = Some g /\ tok = strip U g.
Proof.
  induction todo as [|p todo IH]; simpl; [discriminate|].
  destruct (re_search U p html) as [m|] eqn:Hm.
  - destruct (group 1 (caps m)) as [g|] eqn:Hg; simpl; [|discriminate].
    intros H. inversion H; subst tok. exists p, m, g. auto.
  - intros H. destruct (IH H) as (q & m & g & Hq & Hr).
    exists q, m, g. auto.
Qed.

Lemma labeled_total (todo : list regex) (html : str) :
  (forall p, In p todo -> exists G, on_spine 1 G p /\ no_group G = true) ->
  exists r, Robust.labeled U todo html = Ok r.
Proof.
  induction todo as [|p todo IH]; intros Hall; simpl; [eauto|].
  destruct (re_search U p html) as [m|] eqn:Hm.
  - destruct (Hall p (or_introl eq_refl)) as (G & Hs & HG).
    destruct (search_group _ _ _ _ Hs HG Hm) as (g & _ & _ & -> & _).
    simpl. eauto.
  - apply IH. intros q Hq. apply Hall. now right.
Qed.

(** What [re.match] of the splitting pattern gives: a number in group 1 and
    a group 2. *)
Lemma split_groups (value : str) (m : mstate) :
  re_match U Robust.pat_split value = Some m ->
  exists n u,
    group 1 (caps m) = Some n /\ group 2 (caps m) = Some u /\
    number_form U n /\
    (u = [] \/ exists c, u = [c] /\ in_class U kmgt c = true).
Proof.
  intros H. destruct (re_match_sound _ _ _ _ H) as (w & l' & _ & Ha).
  revert Ha. unfold Robust.pat_split. cbn [accepts].
  intros (n & w1 & cps1 & _ & (cps0 & Hn & ->) & ws & w2 & cps2 & _ &
          (_ & ->) & u & w3 & cps3 & _ & (cps4 & Hu & ->) & Hb).
  pose proof (accepts_no_group U number_re _ _ _ _ _ eq_refl Hn) as ->.
  assert (Hu' := Hu).
  apply (accepts_no_group U (Opt (Chr kmgt)) [] _ [] _ _ eq_refl) in Hu'.
  subst cps4.
  apply (accepts_no_group U letter_b _ _ _ _ _ eq_refl) in Hb. rewrite Hb.
  exists n, u. simpl. split; [reflexivity|]. split; [reflexivity|].
  split; [exact (accepts_number_re U _ _ _ _ _ Hn)|].
  exact (accepts_unit_letter U [] _ [] _ _ Hu).
Qed.

Lemma candidates_total (values : list str) :
  exists kept, Robust.candidates U values = Ok kept.
Proof.
  induction values as [|value values (kept & IH)]; simpl; [eauto|].
  destruct (re_match U Robust.pat_split value) as [m|] eqn:Hm; [|eauto].
  destruct (split_groups _ _ Hm) as (n & u & Hg1 & Hg2 & Hn & _).
  rewrite Hg1. cbn [not_none rbind].
  destruct (py_float_number U _ Hn) as (x & ->). cbn [rbind].
  rewrite Hg2. cbn [not_none rbind].
  rewrite IH. cbn [rbind]. eauto.
Qed.

Lemma candidates_subset (values kept : list str) :
  Robust.candidates U values = Ok kept -> incl kept values.
Proof.
  revert kept. induction values as [|value values IH]; simpl; intros kept H.
  - inversion H. apply incl_refl.
  - destruct (re_match U Robust.pat_split value) as [m|].
    + destruct (group 1 (caps m)) as [n|]; cbn [not_none rbind] in H;
        [|discriminate].
      destruct (py_float U n); cbn [rbind] in H; [|discriminate].
      destruct (group 2 (caps m)); cbn [not_none rbind] in H; [|discriminate].
      destruct (Robust.candidates U values) as [kept'|]; cbn [rbind] in H;
        [|discriminate].
      specialize (IH _ eq_refl).
      destruct (in_range 64 8192 _); inversion H; subst kept.
      * apply incl_cons; [now left|now apply incl_tl].
      * now apply incl_tl.
    + apply incl_tl. now apply IH.
Qed.

(** Every value the scan collects is a token, and a piece of the text. *)
Lemma scan_values (html v : str) :
  In v (re_findall U Robust.pat_scan html) ->
  token_form U v /\ infix v html.
Proof.
  intros H.
  destruct (findall_from_sound U _ _ _ _ _ H) as (pre & w & l' & cps & -> & Ha & ->).
  destruct (spine_capture U _ _ _ scan_spine eq_refl _ _ _ _ _ Ha)
    as (x & g & y & -> & -> & Hg).
  simpl. split; [exact (accepts_token_re U _ _ _ _ _ Hg)|].
  exists (pre ++ x), (y ++ l'). now rewrite <- !app_assoc.
Qed.

Lemma candidates_filter (values : list str) :
  Robust.candidates U values = Ok (filter (plausible U) values).
Proof.
  induction values as [|value values IH]; simpl; [reflexivity|].
  unfold plausible at 1.
  destruct (re_match U Robust.pat_split value) as [m|] eqn:Hm; [|exact IH].
  destruct (split_groups _ _ Hm) as (n & u & Hg1 & Hg2 & Hn & _).
  rewrite Hg1, Hg2. cbn [not_none rbind].
  destruct (py_float_number U _ Hn) as (x & ->). cbn [rbind].
  rewrite IH. cbn [rbind].
  now destruct (in_range 64 8192 (Robust.mb_value x (upper U u))).
Qed.

Lemma filter_first (A : Type) (f : A -> bool) (l : list A) :
  match filter f l with
  | [] => Forall (fun v => f v = false) l
  | x :: _ =>
      exists earlier later,
        l = earlier ++ x :: later /\ f x = true /\
        Forall (fun v => f v = false) earlier
  end.
Proof.
  induction l as [|a l IH]; simpl; [constructor|].
  destruct (f a) eqn:Ha.
  - exists [], l. auto.
  - destruct (filter f l) as [|x rest].
    + now constructor.
    + destruct IH as (earlier & later & -> & Hx & Hall).
      exists (a :: earlier), later. auto.
Qed.

End ExtractorFacts.

(** ** The character database, as far as the claims need it *)

Lemma ascii_rows_ok : table_ok ascii_rows.
Proof. intros c _ _. reflexivity. Qed.

Ltac leb_cases :=
  repeat match goal with
         | |- context [(?a <=? ?b)] => destruct (Z.leb_spec a b)
         | |- context [(?a <? ?b)] => destruct (Z.ltb_spec a b)
         | |- context [(?a =? ?b)] => destruct (Z.eqb_spec a b)
         | H : context [(?a <=? ?b)] |- _ => destruct (Z.leb_spec a b)
         | H : context [(?a <? ?b)] |- _ => destruct (Z.ltb_spec a b)
         | H : context [(?a =? ?b)] |- _ => destruct (Z.eqb_spec a b)
         end.

Lemma digit_not_space (U : ucd) (c : Z) :
  table_ok U -> is_digit U c = true -> is_space U c = false.
Proof.
  intros HU. unfold is_digit, decimal_of, is_space.
  destruct (is_ascii c) eqn:Ha.
  - unfold between. intros H. leb_cases; simpl in *; try reflexivity;
      try discriminate; lia.
  - intros H. apply HU; [exact Ha|]. left.
    destruct (uni_decimal U c); [discriminate|discriminate H].
Qed.

Lemma letter_b_not_space (U : ucd) (c : Z) :
  table_ok U -> ieq U c (ch "b") = true -> is_space U c = false.
Proof.
  intros HU. unfold ieq, is_space.
  destruct (is_ascii c) eqn:Ha.
  - unfold between. change (ch "b") with 98. intros H.
    leb_cases; simpl in *; try reflexivity; try discriminate; lia.
  - intros H. apply HU; [exact Ha|]. right. eauto.
Qed.

Lemma token_strip (U : ucd) (tok : str) :
  table_ok U -> token_form U tok -> strip U tok = tok.
Proof.
  intros HU (n & ws & u & z & -> & (ip & Hne & Hip & Hn) & _ & _ & Hz).
  destruct ip as [|c ip']; [congruence|].
  assert (Hc : is_space U c = false)
    by (apply (digit_not_space U c HU); now inversion Hip).
  pose proof (letter_b_not_space U z HU Hz) as Hzs.
  destruct Hn as [->|(fp & _ & _ & ->)].
  - replace ((c :: ip') ++ ws ++ u ++ [z]) with (c :: (ip' ++ ws ++ u) ++ [z])
      by (simpl; now rewrite <- !app_assoc).
    now apply strip_kept.
  - replace (((c :: ip') ++ 46 :: fp) ++ ws ++ u ++ [z])
      with (c :: (ip' ++ 46 :: fp ++ ws ++ u) ++ [z])
      by (simpl; rewrite <- !app_assoc; simpl; now rewrite <- !app_assoc).
    now apply strip_kept.
Qed.

Lemma cell_strip (U : ucd) (g : str) :
  table_ok U -> cell_form U g -> cell_form U (strip U g).
Proof.
  intros HU (Hlt & z & Hin & Hz). split.
  - intros H. apply Hlt. destruct (strip_infix U g) as (x & y & Hg).
    rewrite Hg, !in_app_iff. auto.
  - exists z. split; [|exact Hz].
    apply strip_keeps; [exact Hin|]. now apply letter_b_not_space.
Qed.

(** ** What the matcher finds

    The matcher is complete for the words that [accepts] describes: where
    some way through the pattern is accepted and the rest of the match goes
    on from there, the backtracking search ends with a match. *)

Section MatcherCompleteness.
Variable U : ucd.

Lemma many_k_complete (A : Type) (k : cclass) (cps : list (nat * str))
    (outer : mstate -> option A) (w l : str) :
  forall b,
    Forall (fun c => in_class U k c = true) w ->
    outer {| before := rev w ++ b; rest := l; caps := cps |} <> None ->
    many_k U k cps outer b (w ++ l) <> None.
Proof.
  induction w as [|c w IH]; intros b Hw Ho.
  - simpl in *. destruct l as [|c t]; simpl; [exact Ho|].
    destruct (in_class U k c); [|exact Ho].
    destruct (many_k U k cps outer (c :: b) t); [discriminate|exact Ho].
  - inversion Hw as [|c' w' Hc Hw']; subst. simpl. rewrite Hc.
    specialize (IH (c :: b) Hw').
    simpl in Ho. rewrite <- app_assoc in Ho. specialize (IH Ho).
    destruct (many_k U k cps outer (c :: b) (w ++ l)); [discriminate|congruence].
Qed.

Lemma exec_complete (r : regex) :
  forall (A : Type) (outer : mstate -> option A) (st : mstate) w l cps',
    rest st = w ++ l ->
    accepts U r (before st) w l (caps st) cps' ->
    outer (after st w l cps') <> None ->
    exec U r outer st <> None.
Proof.
  induction r as [ |k|k|r1 IH1|r1 IH1 r2 IH2|i r1 IH1| ];
    intros A outer st w l cps' Hr Ha Ho; simpl in Ha |- *.
  - destruct Ha as (-> & ->). destruct st as [b r c]; simpl in *. subst r.
    exact Ho.
  - destruct Ha as (c & -> & Hc & ->). rewrite Hr. simpl. rewrite Hc. exact Ho.
  - destruct Ha as (Hw & ->). rewrite Hr.
    now apply many_k_complete.
  - destruct (exec U r1 outer st) eqn:He; [discriminate|].
    destruct Ha as [Ha|(-> & ->)].
    + exfalso. now apply (IH1 _ outer st w l cps' Hr Ha Ho).
    + destruct st as [b r c]; simpl in *. subst r. exact Ho.
  - destruct Ha as (w1 & w2 & cps1 & -> & Ha1 & Ha2).
    rewrite <- app_assoc in Hr.
    apply (IH1 _ _ st w1 (w2 ++ l) cps1 Hr Ha1).
    apply (IH2 _ outer (after st w1 (w2 ++ l) cps1) w2 l cps'); simpl; auto.
    unfold after in *. simpl in *. now rewrite rev_app_distr, <- app_assoc in Ho.
  - destruct Ha as (cps1 & Ha & ->).
    apply (IH1 _ _ st w l cps1 Hr Ha).
    unfold close_group, after in *. simpl. now rewrite Hr, firstn_consumed.
  - destruct Ha as (-> & -> & Hb). destruct st as [b r c]; simpl in *. subst r.
    rewrite Hb. exact Ho.
Qed.

Lemma match_at_complete (r : regex) (b w l : str) cps' :
  accepts U r b w l [] cps' -> match_at U r b (w ++ l) <> None.
Proof.
  intros Ha. unfold match_at.
  apply (exec_complete r _ _ _ w l cps'); simpl; auto. discriminate.
Qed.

Lemma search_from_complete (r : regex) (pre w l : str) cps' :
  forall b,
    accepts U r (rev pre ++ b) w l [] cps' ->
    search_from U r b (pre ++ w ++ l) <> None.
Proof.
  induction pre as [|c pre IH]; intros b Ha.
  - simpl in Ha. apply match_at_complete in Ha. simpl.
    destruct (w ++ l) as [|c t]; simpl;
      destruct (match_at U r b _); congruence.
  - simpl in Ha. rewrite <- app_assoc in Ha. simpl in Ha.
    apply IH in Ha. simpl.
    destruct (match_at U r b (c :: pre ++ w ++ l)); [discriminate|exact Ha].
Qed.

Lemma re_search_complete (r : regex) (pre w l : str) cps' :
  accepts U r (rev pre) w l [] cps' ->
  re_search U r (pre ++ w ++ l) <> None.
Proof.
  intros Ha. apply (search_from_complete r pre w l cps').
  now rewrite app_nil_r.
Qed.

End MatcherCompleteness.

(** ** Texts that the fragments of the patterns accept *)

Section AcceptedTexts.
Variable U : ucd.

Lemma chr_i_accepts (c : Z) b l cps :
  matches_itself U c = true -> accepts U (chr_i c) b [c] l cps cps.
Proof.
  unfold matches_itself, chr_i.
  destruct (between 65 90 c); [|destruct (between 97 122 c)];
    intros H; simpl; eauto.
Qed.

Lemma text_i_accepts (s : str) :
  forall b l cps,
    forallb (matches_itself U) s = true -> accepts U (text_i s) b s l cps cps.
Proof.
  induction s as [|c t IH]; intros b l cps H; [simpl; auto|].
  simpl in H. apply andb_true_iff in H. destruct H as [Hc Ht].
  destruct t as [|c' t'].
  - now apply chr_i_accepts.
  - change (text_i (c :: c' :: t')) with (chr_i c +> text_i (c' :: t')).
    exists [c], (c' :: t'), cps. split; [reflexivity|].
    split; [now apply chr_i_accepts|now apply IH].
Qed.

Lemma text_exact_accepts (s : str) :
  forall b l cps, accepts U (text_exact s) b s l cps cps.
Proof.
  induction s as [|c t IH]; intros b l cps; [simpl; auto|].
  assert (Hc : forall b l, accepts U (Chr (One (Lit c))) b [c] l cps cps).
  { intros b' l'. exists c. simpl. rewrite Z.eqb_refl. auto. }
  destruct t as [|c' t'].
  - apply Hc.
  - change (text_exact (c :: c' :: t'))
      with (Chr (One (Lit c)) +> text_exact (c' :: t')).
    exists [c], (c' :: t'), cps. split; [reflexivity|]. split; [apply Hc|apply IH].
Qed.

Lemma seq_accepts (r1 r2 : regex) b w1 w2 l cps cps1 cps' :
  accepts U r1 b w1 (w2 ++ l) cps cps1 ->
  accepts U r2 (rev w1 ++ b) w2 l cps1 cps' ->
  accepts U (r1 +> r2) b (w1 ++ w2) l cps cps'.
Proof. intros H1 H2. exists w1, w2, cps1. auto. Qed.

Lemma many1_accepts (k : cclass) (w : str) b l cps :
  w <> [] -> Forall (fun c => in_class U k c = true) w ->
  accepts U (Many1 k) b w l cps cps.
Proof.
  intros Hne Hw. destruct w as [|c w]; [congruence|].
  inversion Hw; subst.
  apply (seq_accepts _ _ b [c] w l cps cps cps); simpl; eauto.
Qed.

Lemma label_en_accepts b l cps :
  accepts U label_en b (py "Memory Limit") l cps cps.
Proof.
  unfold label_en.
  apply (seq_accepts _ _ b (py "Memory") (py " Limit") l cps cps cps).
  - apply text_i_accepts. reflexivity.
  - apply (seq_accepts _ _ _ (py " ") (py "Limit") l cps cps cps).
    + apply many1_accepts; [discriminate|]. repeat constructor.
    + apply text_i_accepts. reflexivity.
Qed.

Lemma number_form_accepts (n : str) b l cps :
  number_form U n -> accepts U number_re b n l cps cps.
Proof.
  intros (ip & Hne & Hip & Hn). unfold number_re.
  destruct Hn as [->|(fp & Hfne & Hfp & ->)].
  - rewrite <- (app_nil_r ip).
    apply (seq_accepts _ _ b ip [] l cps cps cps).
    + now apply many1_accepts.
    + right. auto.
  - apply (seq_accepts _ _ b ip (46 :: fp) l cps cps cps).
    + now apply many1_accepts.
    + left. apply (seq_accepts _ _ _ [46] fp l cps cps cps).
      * exists 46. auto.
      * now apply many1_accepts.
Qed.

Lemma token_form_accepts (tok : str) b l cps :
  token_form U tok -> accepts U token_re b tok l cps cps.
Proof.
  intros (n & ws & u & z & -> & Hn & Hws & Hu & Hz). unfold token_re.
  apply (seq_accepts _ _ b n (ws ++ u ++ [z]) l cps cps cps).
  - now apply number_form_accepts.
  - apply (seq_accepts _ _ _ ws (u ++ [z]) l cps cps cps).
    + split; [exact Hws|reflexivity].
    + apply (seq_accepts _ _ _ u [z] l cps cps cps).
      * destruct Hu as [->|(c & -> & Hc)]; [right; auto|left].
        exists c. auto.
      * exists z. auto.
Qed.

Lemma cell_accepts (cell : str) b l cps :
  cell_form U cell -> accepts U cell_re b cell l cps cps.
Proof.
  intros (Hlt & z & Hin & Hz).
  destruct (in_split _ _ Hin) as (x & y & ->).
  assert (Hrun : forall w, (forall c, In c w -> c <> ch "<") ->
                           Forall (fun c => in_class U not_lt c = true) w).
  { intros w Hw. apply Forall_forall. intros c Hc. simpl.
    destruct (Z.eqb_spec c (ch "<")) as [->|_]; [now destruct (Hw _ Hc)|reflexivity]. }
  unfold cell_re.
  apply (seq_accepts _ _ b x (z :: y) l cps cps cps).
  - split; [|reflexivity]. apply Hrun. intros c Hc ->. apply Hlt.
    rewrite in_app_iff. auto.
  - apply (seq_accepts _ _ _ [] (z :: y) l cps cps cps); [right; auto|].
    apply (seq_accepts _ _ _ [z] y l cps cps cps); [exists z; auto|].
    split; [|reflexivity]. apply Hrun. intros c Hc ->. apply Hlt.
    rewrite in_app_iff. simpl. auto.
Qed.

Lemma group_accepts (i : nat) (r : regex) b w l cps :
  accepts U r b w l cps cps -> accepts U (Group i r) b w l cps ((i, w) :: cps).
Proof. intros H. exists cps. auto. Qed.

Lemma token_form_splits (tok : str) :
  token_form U tok -> exists cps, accepts U Robust.pat_split [] tok [] [] cps.
Proof.
  intros (n & ws & u & z & -> & Hn & Hws & Hu & Hz).
  exists [(2%nat, u); (1%nat, n)]. unfold Robust.pat_split.
  apply (seq_accepts _ _ [] n (ws ++ u ++ [z]) [] [] [(1%nat, n)] _).
  - apply group_accepts. now apply number_form_accepts.
  - apply (seq_accepts _ _ _ ws (u ++ [z]) [] _ [(1%nat, n)] _).
    + split; [exact Hws|reflexivity].
    + apply (seq_accepts _ _ _ u [z] [] _ [(2%nat, u); (1%nat, n)] _).
      * apply group_accepts.
        destruct Hu as [->|(c & -> & Hc)]; [right; auto|left].
        exists c. auto.
      * exists z. auto.
Qed.

Lemma token_form_no_lt (tok : str) : token_form U tok -> ~ In (ch "<") tok.
Proof.
  intros (n & ws & u & z & -> & (ip & _ & Hip & Hn) & Hws & Hu & Hz) Hin.
  assert (Hd : forall w, all_digits U w -> ~ In (ch "<") w).
  { intros w Hw H. unfold all_digits in Hw. rewrite Forall_forall in Hw.
    specialize (Hw _ H). vm_compute in Hw. discriminate Hw. }
  rewrite !in_app_iff in Hin. destruct Hin as [Hin|[Hin|[Hin|[Hin|[]]]]].
  - destruct Hn as [->|(fp & _ & Hfp & ->)]; [now apply (Hd ip)|].
    rewrite in_app_iff in Hin. destruct Hin as [Hin|[Hin|Hin]];
      [now apply (Hd ip)|discriminate Hin|now apply (Hd fp)].
  - unfold blank in Hws. rewrite Forall_forall in Hws.
    specialize (Hws _ Hin). vm_compute in Hws. discriminate Hws.
  - destruct Hu as [->|(c & -> & Hc)]; [destruct Hin|].
    destruct Hin as [Heq|[]]. exact (unit_letter_not_lt U _ Hc Heq).
  - apply (ieq_char_not_lt U z (ch "b") Hz); [discriminate|exact Hin].
Qed.

Lemma token_form_letter_b (tok : str) :
  token_form U tok -> exists z, In z tok /\ ieq U z (ch "b") = true.
Proof.
  intros (n & ws & u & z & -> & _ & _ & _ & Hz). exists z.
  split; [|exact Hz]. rewrite !in_app_iff. simpl. auto.
Qed.

End AcceptedTexts.

(** ** The six strategies: what their patterns accept *)

Section FormFacts.
Variable U : ucd.

Ltac break :=
  repeat match goal with
         | H : exists _, _ |- _ => destruct H
         | H : _ /\ _ |- _ => destruct H
         end.

Lemma ieq_small_letter (c x : Z) :
  between 97 122 x = true ->
  ieq U c x
  = (c =? x) || (c =? x - 32) || (negb (is_ascii c) && uni_ieq U c x).
Proof.
  unfold ieq, is_ascii, between. intros Hx.
  destruct (uni_ieq U c x);
    leb_cases; simpl in *; try reflexivity; try discriminate; lia.
Qed.

Lemma same_char_letter (p c : Z) :
  same_char U p c
  = if between 65 90 p then ieq U c (p + 32)
    else if between 97 122 p then ieq U c p
    else c =? p.
Proof.
  unfold same_char, small.
  destruct (between 65 90 p) eqn:Hup.
  - cbn [orb]. rewrite ieq_small_letter; [reflexivity|].
    unfold between in *. leb_cases; simpl in *; try reflexivity;
      try discriminate; lia.
  - destruct (between 97 122 p) eqn:Hlow; cbn [orb]; [|reflexivity].
    now rewrite ieq_small_letter.
Qed.

Lemma accepts_chr_i (p : Z) b w l cps cps' :
  accepts U (chr_i p) b w l cps cps' <->
  exists c, w = [c] /\ same_char U p c = true /\ cps' = cps.
Proof.
  setoid_rewrite same_char_letter. unfold chr_i.
  destruct (between 65 90 p); [|destruct (between 97 122 p)]; simpl; tauto.
Qed.

Lemma accepts_text_i (p : str) :
  forall b w l cps cps',
    accepts U (text_i p) b w l cps cps' <->
    Forall2 (fun c x => same_char U x c = true) w p /\ cps' = cps.
Proof.
  induction p as [|x p IH]; intros b w l cps cps'.
  - simpl. split.
    + intros (-> & ->). auto.
    + intros (H & ->). inversion H. auto.
  - destruct p as [|y p'].
    + change (text_i [x]) with (chr_i x). rewrite accepts_chr_i. split.
      * intros (c & -> & Hc & ->). auto.
      * intros (H & ->). inversion H as [|c x' w' p' Hc Hw]; subst.
        inversion Hw; subst. eauto.
    + change (text_i (x :: y :: p')) with (chr_i x +> text_i (y :: p')).
      cbn [accepts]. split.
      * intros (w1 & w2 & cps1 & -> & H1 & H2).
        apply accepts_chr_i in H1. destruct H1 as (c & -> & Hc & ->).
        apply IH in H2. destruct H2 as (H2 & ->). split; [|reflexivity].
        constructor; assumption.
      * intros (H & ->). inversion H as [|c x' w' p'' Hc Hw]; subst.
        exists [c], w', cps. split; [reflexivity|]. split.
        -- apply accepts_chr_i. eauto.
        -- apply IH. auto.
Qed.

Lemma accepts_reads (p : string) b w l cps cps' :
  accepts U (text_i (py p)) b w l cps cps' <-> reads U w p /\ cps' = cps.
Proof. apply accepts_text_i. Qed.

Lemma accepts_text_exact (p : str) :
  forall b w l cps cps',
    accepts U (text_exact p) b w l cps cps' <-> w = p /\ cps' = cps.
Proof.
  induction p as [|x p IH]; intros b w l cps cps'.
  - simpl. tauto.
  - destruct p as [|y p'].
    + simpl. split.
      * intros (c & -> & Hc & ->). apply Z.eqb_eq in Hc. subst. auto.
      * intros (-> & ->). exists x. rewrite Z.eqb_refl. auto.
    + change (text_exact (x :: y :: p'))
        with (Chr (One (Lit x)) +> text_exact (y :: p')).
      cbn [accepts]. split.
      * intros (w1 & w2 & cps1 & -> & (c & -> & Hc & ->) & H2).
        simpl in Hc. apply Z.eqb_eq in Hc. subst c.
        apply IH in H2. destruct H2 as (-> & ->). auto.
      * intros (-> & ->). exists [x], (y :: p'), cps.
        split; [reflexivity|]. split.
        -- exists x. simpl. rewrite Z.eqb_refl. auto.
        -- apply IH. auto.
Qed.

Lemma reads_gt (w : str) : reads U w ">" <-> w = [ch ">"].
Proof.
  unfold reads. split.
  - intros H. inversion H as [|c x w' p' Hc Hw]; subst. inversion Hw; subst.
    change (same_char U 62 c) with (c =? 62) in Hc.
    apply Z.eqb_eq in Hc. now subst.
  - intros ->. repeat constructor.
Qed.

Lemma accepts_many1_iff (k : cclass) b w l cps cps' :
  accepts U (Many1 k) b w l cps cps' <->
  w <> [] /\ Forall (fun c => in_class U k c = true) w /\ cps' = cps.
Proof.
  split; [apply accepts_many1|].
  intros (Hne & Hw & ->). now apply many1_accepts.
Qed.

Lemma accepts_label_en b w l cps cps' :
  accepts U label_en b w l cps cps' <-> label_text U w /\ cps' = cps.
Proof.
  unfold label_en. cbn [accepts]. split.
  - intros (m & w1 & cps1 & -> & Hm & ws & lm & cps2 & -> & Hws & Hl).
    apply accepts_reads in Hm, Hl. apply accepts_many1_iff in Hws.
    destruct Hm as (Hm & ->), Hl as (Hl & ->), Hws as (Hne & Hws & ->).
    split; [|reflexivity]. exists m, ws, lm. auto.
  - intros ((m & ws & lm & -> & Hm & Hne & Hws & Hl) & ->).
    exists m, (ws ++ lm), cps. split; [reflexivity|]. split.
    + apply accepts_reads. auto.
    + exists ws, lm, cps. split; [reflexivity|]. split.
      * apply accepts_many1_iff. auto.
      * apply accepts_reads. auto.
Qed.

Lemma colon_sp_run (w : str) :
  Forall (fun c => in_class U colon_sp c = true) w <-> separator U w.
Proof.
  unfold separator. rewrite !Forall_forall.
  assert (H : forall c, in_class U colon_sp c = true <->
                        c = ch ":" \/ is_space U c = true).
  { intros c. simpl. rewrite orb_false_r, orb_true_iff, Z.eqb_eq. tauto. }
  split; intros Hw c Hc; apply H; auto.
Qed.

Lemma not_gt_run (w : str) :
  Forall (fun c => in_class U not_gt c = true) w <-> ~ In (ch ">") w.
Proof.
  rewrite Forall_forall. split.
  - intros H Hin. specialize (H _ Hin). discriminate H.
  - intros H c Hc. simpl. rewrite orb_false_r.
    destruct (Z.eqb_spec c (ch ">")) as [->|_]; [now destruct H|reflexivity].
Qed.

Lemma not_lt_run_iff (w : str) :
  Forall (fun c => in_class U not_lt c = true) w <-> ~ In (ch "<") w.
Proof.
  rewrite Forall_forall. split.
  - intros H Hin. specialize (H _ Hin). discriminate H.
  - intros H c Hc. simpl. rewrite orb_false_r.
    destruct (Z.eqb_spec c (ch "<")) as [->|_]; [now destruct H|reflexivity].
Qed.

Lemma accepts_token_iff b w l cps cps' :
  accepts U token_re b w l cps cps' <-> token_form U w /\ cps' = cps.
Proof.
  split.
  - intros H. split; [now apply accepts_token_re in H|].
    exact (accepts_no_group U token_re _ _ _ _ _ eq_refl H).
  - intros (H & ->). now apply token_form_accepts.
Qed.

Lemma accepts_cell_iff b w l cps cps' :
  accepts U cell_re b w l cps cps' <-> cell_form U w /\ cps' = cps.
Proof.
  split.
  - intros H. split; [now apply accepts_cell_re in H|].
    exact (accepts_no_group U cell_re _ _ _ _ _ eq_refl H).
  - intros (H & ->). now apply cell_accepts.
Qed.

Lemma accepts_numbered_iff b w l cps cps' :
  accepts U numbered_cell_re b w l cps cps' <-> numbered_form U w /\ cps' = cps.
Proof.
  split.
  - intros H. split;
      [|exact (accepts_no_group U numbered_cell_re _ _ _ _ _ eq_refl H)].
    split; [exact (proj1 (accepts_numbered_cell_re U _ _ _ _ _ H))|].
    revert H. unfold numbered_cell_re. cbn [accepts].
    intros (x & w1 & cps1 & -> & (Hx & _) & ds & w2 & cps2 & -> & Hds &
            y & w3 & cps3 & -> & (Hy & _) & u & w4 & cps4 & -> & Hu & Hb).
    apply accepts_many1 in Hds. destruct Hds as (Hne & Hds & _).
    apply accepts_letter_b in Hb. destruct Hb as (z & -> & Hz).
    destruct ds as [|d ds]; [congruence|].
    exists x, d, (ds ++ y ++ u), z. split.
    + simpl. now rewrite <- !app_assoc.
    + split; [|exact Hz]. inversion Hds; subst. assumption.
  - intros ((Hlt & x & d & y & z & -> & Hd & Hz) & ->).
    assert (Hx : ~ In (ch "<") x)
      by (intros H; apply Hlt; rewrite in_app_iff; auto).
    assert (Hy : ~ In (ch "<") y)
      by (intros H; apply Hlt; rewrite in_app_iff; right; right;
          rewrite in_app_iff; auto).
    unfold numbered_cell_re.
    apply (seq_accepts U _ _ b x (d :: y ++ [z]) l cps cps cps).
    { split; [now apply not_lt_run_iff|reflexivity]. }
    apply (seq_accepts U _ _ _ [d] (y ++ [z]) l cps cps cps).
    { apply many1_accepts; [discriminate|]. repeat constructor. exact Hd. }
    apply (seq_accepts U _ _ _ y [z] l cps cps cps).
    { split; [now apply not_lt_run_iff|reflexivity]. }
    apply (seq_accepts U _ _ _ [] [z] l cps cps cps); [right; auto|].
    exists z. auto.
Qed.

Lemma accepts_group1 (G : regex) (P : str -> Prop) :
  (forall b w l cps cps', accepts U G b w l cps cps' <-> P w /\ cps' = cps) ->
  forall b w l cps cps',
    accepts U (Group 1 G) b w l cps cps' <-> P w /\ cps' = (1%nat, w) :: cps.
Proof.
  intros HG b w l cps cps'. cbn [accepts]. split.
  - intros (cps1 & H & ->). apply HG in H. destruct H as (H & ->). auto.
  - intros (H & ->). exists cps. split; [|reflexivity]. apply HG. auto.
Qed.

Lemma accepts_many_iff (k : cclass) b w l cps cps' :
  accepts U (Many k) b w l cps cps' <->
  Forall (fun c => in_class U k c = true) w /\ cps' = cps.
Proof. reflexivity. Qed.

Lemma accepts_inline (L : regex) (P : str -> Prop) :
  (forall b w l cps cps', accepts U L b w l cps cps' <-> P w /\ cps' = cps) ->
  forall b w l cps',
    accepts U (L +> Many colon_sp +> Group 1 token_re) b w l [] cps' <->
    exists g,
      (exists lab sep,
          w = lab ++ sep ++ g /\ P lab /\ separator U sep /\ token_form U g) /\
      cps' = [(1%nat, g)].
Proof.
  intros HL b w l cps'. cbn [accepts]. split.
  - intros (lab & w1 & cps1 & -> & Hlab & sep & g & cps2 & -> & (Hsep & ->) &
            cps3 & Hg & ->).
    apply HL in Hlab. destruct Hlab as (Hlab & ->).
    apply accepts_token_iff in Hg. destruct Hg as (Hg & ->).
    exists g. split; [|reflexivity].
    exists lab, sep. split; [reflexivity|]. split; [exact Hlab|].
    split; [now apply colon_sp_run|exact Hg].
  - intros (g & (lab & sep & -> & Hlab & Hsep & Hg) & ->).
    exists lab, (sep ++ g), []. split; [reflexivity|].
    split; [apply HL; auto|].
    exists sep, g, []. split; [reflexivity|].
    split; [split; [now apply colon_sp_run|reflexivity]|].
    exists []. split; [|reflexivity]. apply accepts_token_iff. auto.
Qed.

Lemma accepts_row (L : regex) (P : str -> Prop) :
  (forall b w l cps cps', accepts U L b w l cps cps' <-> P w /\ cps' = cps) ->
  forall b w l cps',
    accepts U
      (text_i (py "<th") +> Many not_gt +> text_i (py ">") +> L +>
       text_i (py "</th>") +> Many sp +> text_i (py "<td") +> Many not_gt +>
       text_i (py ">") +> Group 1 cell_re +> text_i (py "</td>"))
      b w l [] cps' <->
    exists g, row U P w g /\ cps' = [(1%nat, g)].
Proof.
  intros HL b w l cps'. cbn [accepts]. split.
  - intros (th & w1 & c1 & -> & Hth &
            a1 & w2 & c2 & -> & (Ha1 & ->) &
            gt1 & w3 & c3 & -> & Hgt1 &
            lab & w4 & c4 & -> & Hlab &
            cth & w5 & c5 & -> & Hcth &
            ws & w6 & c6 & -> & (Hws & ->) &
            td & w7 & c7 & -> & Htd &
            a2 & w8 & c8 & -> & (Ha2 & ->) &
            gt2 & w9 & c9 & -> & Hgt2 &
            g & ctd & c10 & -> & (c11 & Hg & ->) & Hctd).
    apply (accepts_reads "<th") in Hth. destruct Hth as (Hth & ->).
    apply (accepts_reads ">") in Hgt1. destruct Hgt1 as (Hgt1 & ->).
    apply HL in Hlab. destruct Hlab as (Hlab & ->).
    apply (accepts_reads "</th>") in Hcth. destruct Hcth as (Hcth & ->).
    apply (accepts_reads "<td") in Htd. destruct Htd as (Htd & ->).
    apply (accepts_reads ">") in Hgt2. destruct Hgt2 as (Hgt2 & ->).
    apply accepts_cell_iff in Hg. destruct Hg as (Hg & ->).
    apply (accepts_reads "</td>") in Hctd. destruct Hctd as (Hctd & ->).
    apply reads_gt in Hgt1, Hgt2. subst gt1 gt2.
    exists g. split; [|reflexivity].
    exists th, a1, lab, cth, ws, td, a2, ctd.
    split; [reflexivity|]. split; [exact Hth|].
    split; [now apply not_gt_run|]. split; [exact Hlab|].
    split; [exact Hcth|]. split; [exact Hws|]. split; [exact Htd|].
    split; [now apply not_gt_run|]. split; [exact Hg|exact Hctd].
  - intros (g & (th & a1 & lab & cth & ws & td & a2 & ctd & -> &
                 Hth & Ha1 & Hlab & Hcth & Hws & Htd & Ha2 & Hg & Hctd) & ->).
    assert (Hgt : forall b l cps, accepts U (text_i (py ">")) b [ch ">"] l cps cps).
    { intros b' l' cps. apply (accepts_reads ">"). split; [|reflexivity].
      now apply reads_gt. }
    eexists th, _, []. split; [reflexivity|].
    split; [apply (accepts_reads "<th"); auto|].
    eexists a1, _, []. split; [reflexivity|].
    split; [split; [now apply not_gt_run|reflexivity]|].
    eexists [ch ">"], _, []. split; [reflexivity|]. split; [apply Hgt|].
    eexists lab, _, []. split; [reflexivity|]. split; [apply HL; auto|].
    eexists cth, _, []. split; [reflexivity|].
    split; [apply (accepts_reads "</th>"); auto|].
    eexists ws, _, []. split; [reflexivity|].
    split; [split; [exact Hws|reflexivity]|].
    eexists td, _, []. split; [reflexivity|].
    split; [apply (accepts_reads "<td"); auto|].
    eexists a2, _, []. split; [reflexivity|].
    split; [split; [now apply not_gt_run|reflexivity]|].
    eexists [ch ">"], _, []. split; [reflexivity|]. split; [apply Hgt|].
    exists g, ctd, [(1%nat, g)]. split; [reflexivity|]. split.
    + exists []. split; [|reflexivity]. apply accepts_cell_iff. auto.
    + apply (accepts_reads "</td>"). auto.
Qed.

Lemma accepts_exact_label b w l cps cps' :
  accepts U (text_exact memory_limit_ja) b w l cps cps' <->
  w = memory_limit_ja /\ cps' = cps.
Proof. apply accepts_text_exact. Qed.

(** A labeled pattern accepts exactly the words of its form, and leaves the
    capture in group 1. *)
Lemma accepts_form (s : strategy) b w l cps' :
  accepts U (pattern_of s) b w l [] cps' <->
  exists g, form U s w g /\ cps' = [(1%nat, g)].
Proof.
  destruct s; simpl pattern_of; cbn [form].
  - apply (accepts_inline label_en (label_text U)). apply accepts_label_en.
  - unfold Robust.pat_inline_ja.
    rewrite (accepts_inline (text_exact memory_limit_ja)
               (fun lab => lab = memory_limit_ja) accepts_exact_label).
    split.
    + intros (g & (lab & sep & -> & -> & Hsep & Hg) & ->). eauto 6.
    + intros (g & (sep & -> & Hsep & Hg) & ->).
      exists g. split; [|reflexivity]. exists memory_limit_ja, sep. auto.
  - apply (accepts_row label_en (label_text U)). apply accepts_label_en.
  - apply (accepts_row (text_exact memory_limit_ja)
             (fun lab => lab = memory_limit_ja)). apply accepts_exact_label.
  - unfold Robust.pat_before_memory. cbn [accepts]. split.
    + intros (g & w1 & c1 & -> & (c2 & Hg & ->) & ws & m & c3 & -> &
              (Hws & ->) & Hm).
      apply accepts_token_iff in Hg. destruct Hg as (Hg & ->).
      apply (accepts_reads "memory") in Hm. destruct Hm as (Hm & ->).
      exists g. split; [|reflexivity]. exists ws, m. auto.
    + intros (g & (ws & m & -> & Hg & Hws & Hm) & ->).
      exists g, (ws ++ m), [(1%nat, g)]. split; [reflexivity|]. split.
      * exists []. split; [|reflexivity]. apply accepts_token_iff. auto.
      * exists ws, m, [(1%nat, g)]. split; [reflexivity|].
        split; [split; [exact Hws|reflexivity]|].
        apply (accepts_reads "memory"). auto.
  - unfold Robust.pat_after_limit. cbn [accepts]. split.
    + intros (lm & w1 & c1 & -> & Hlm & a & w2 & c2 & -> & (Ha & ->) &
              gt & g & c3 & -> & Hgt & c4 & Hg & ->).
      apply (accepts_reads "limit") in Hlm. destruct Hlm as (Hlm & ->).
      apply (accepts_reads ">") in Hgt. destruct Hgt as (Hgt & ->).
      apply reads_gt in Hgt. subst gt.
      apply accepts_numbered_iff in Hg. destruct Hg as (Hg & ->).
      exists g. split; [|reflexivity]. exists lm, a.
      split; [reflexivity|]. split; [exact Hlm|].
      split; [now apply not_gt_run|exact Hg].
    + intros (g & (lm & a & -> & Hlm & Ha & Hg) & ->).
      exists lm, (a ++ [ch ">"] ++ g), []. split; [reflexivity|].
      split; [apply (accepts_reads "limit"); auto|].
      exists a, ([ch ">"] ++ g), []. split; [reflexivity|].
      split; [split; [now apply not_gt_run|reflexivity]|].
      exists [ch ">"], g, []. split; [reflexivity|]. split.
      * apply (accepts_reads ">"). split; [now apply reads_gt|reflexivity].
      * exists []. split; [|reflexivity]. apply accepts_numbered_iff. auto.
Qed.

Lemma search_occurs (s : strategy) (html : str) (m : mstate) :
  re_search U (pattern_of s) html = Some m ->
  exists g, group 1 (caps m) = Some g /\ occurs U s html g.
Proof.
  intros H. destruct (re_search_sound U _ _ _ H) as (pre & w & post & -> & Ha).
  apply accepts_form in Ha. destruct Ha as (g & Hf & Hc).
  exists g. rewrite Hc. split; [reflexivity|]. exists pre, w, post. auto.
Qed.

Lemma occurs_search (s : strategy) (html g : str) :
  occurs U s html g -> re_search U (pattern_of s) html <> None.
Proof.
  intros (pre & w & post & -> & Hf).
  apply (re_search_complete U _ pre w post [(1%nat, g)]).
  apply accepts_form. eauto.
Qed.

Lemma strip_trimmed (g : str) : trimmed U g (strip U g).
Proof.
  destruct (strip_split U g) as (a & b & Hg & Ha & Hb).
  exists a, b. split; [exact Hg|]. split; [exact Ha|]. split; [exact Hb|].
  unfold strip, rstrip.
  set (y := lstrip U g). set (z := lstrip U (rev y)).
  rewrite rev_involutive. split; [|apply lstrip_head].
  destruct (lstrip_split U (rev y)) as (ws & Hy & _). fold z in Hy.
  apply (f_equal (@rev Z)) in Hy. rewrite rev_involutive, rev_app_distr in Hy.
  apply (head_kept_prefix U) with (b := rev ws). rewrite <- Hy.
  apply lstrip_head.
Qed.

(** The loop over the labeled patterns, in words. *)
Lemma labeled_strategies (ss : list strategy) (html : str) :
  exists r,
    Robust.labeled U (map pattern_of ss) html = Ok r /\
    match r with
    | Some tok =>
        exists s g earlier later,
          ss = earlier ++ s :: later /\
          occurs U s html g /\
          (forall s' g', In s' earlier -> ~ occurs U s' html g') /\
          tok = strip U g
    | None => forall s g, In s ss -> ~ occurs U s html g
    end.
Proof.
  induction ss as [|s ss (r & Hr & IH)]; simpl.
  - exists None. split; [reflexivity|]. intros s g [].
  - destruct (re_search U (pattern_of s) html) as [m|] eqn:Hm.
    + destruct (search_occurs _ _ _ Hm) as (g & -> & Ho). simpl.
      exists (Some (strip U g)). split; [reflexivity|].
      exists s, g, [], ss. split; [reflexivity|]. split; [exact Ho|].
      split; [intros s' g' []|reflexivity].
    + assert (Hno : forall g, ~ occurs U s html g).
      { intros g Ho. now apply (occurs_search _ _ _ Ho). }
      exists r. split; [exact Hr|]. destruct r as [tok|].
      * destruct IH as (s0 & g & earlier & later & -> & Ho & Hearlier & ->).
        exists s0, g, (s :: earlier), later. split; [reflexivity|].
        split; [exact Ho|]. split; [|reflexivity].
        intros s' g' [<-|Hin]; [apply Hno|now apply Hearlier].
      * intros s' g' [<-|Hin]; [apply Hno|now apply IH].
Qed.

End FormFacts.

(** ** The loop over the labeled patterns, in words *)

Section StrategyFacts.
Variable U : ucd.

Lemma strategies_split (earlier later : list strategy) (s : strategy) :
  strategies = earlier ++ s :: later ->
  forall s', In s' earlier <-> (rank s' < rank s)%nat.
Proof.
  unfold strategies. intros H s'.
  destruct earlier as [|e1 [|e2 [|e3 [|e4 [|e5 [|e6 rest]]]]]];
    simpl in H; inversion H; subst; simpl;
    try (destruct rest; discriminate);
    destruct s'; simpl; split; intros; try lia; try tauto;
    repeat match goal with
           | H : _ \/ _ |- _ => destruct H
           | H : False |- _ => destruct H
           end; try discriminate; try lia; tauto.
Qed.

(** The result of the loop over the labeled patterns, in words. *)
Lemma labeled_result (html : str) :
  (exists s g tok,
      occurs U s html g /\
      (forall s' g', (rank s' < rank s)%nat -> ~ occurs U s' html g') /\
      trimmed U g tok /\ tok = strip U g /\
      Robust.labeled U Robust.patterns html = Ok (Some tok)) \/
  ((forall s g, ~ occurs U s html g) /\
   Robust.labeled U Robust.patterns html = Ok None).
Proof.
  destruct (labeled_strategies U strategies html) as ([tok|] & Hr & H).
  - destruct H as (s & g & earlier & later & Hsplit & Ho & Hearlier & ->).
    left. exists s, g, (strip U g). split; [exact Ho|]. split.
    + intros s' g' Hlt. apply Hearlier.
      now apply (strategies_split _ _ _ Hsplit).
    + split; [apply strip_trimmed|]. split; [reflexivity|exact Hr].
  - right. split; [|exact Hr]. intros s g. apply H.
    destruct s; simpl; tauto.
Qed.

Lemma rank_injective (s s' : strategy) : rank s = rank s' -> s = s'.
Proof. destruct s, s'; simpl; intros H; congruence. Qed.

Lemma blank_prefix (ws tok x rest : str) (d : Z) :
  blank U ws -> is_space U d = false ->
  ws ++ tok = x ++ d :: rest ->
  exists x', x = ws ++ x' /\ tok = x' ++ d :: rest.
Proof.
  revert x. induction ws as [|c ws IH]; intros x Hws Hd H.
  - exists x. auto.
  - inversion Hws as [|c' ws' Hc Hws']; subst.
    destruct x as [|c0 x]; simpl in H; inversion H; subst.
    + congruence.
    + destruct (IH x Hws' Hd H2) as (x' & -> & ->). exists x'. auto.
Qed.

Lemma blank_suffix (g ws z : str) (c : Z) :
  blank U ws -> is_space U c = false -> g ++ ws = z ++ [c] -> ws = [].
Proof.
  intros Hws Hc H. destruct ws as [|a ws] using rev_ind; [reflexivity|].
  rewrite app_assoc in H. apply app_inj_tail in H. destruct H as (_ & ->).
  unfold blank in Hws. rewrite Forall_app in Hws. destruct Hws as (_ & Hws).
  inversion Hws; subst. congruence.
Qed.

Lemma numbered_trimmed (g tok : str) :
  table_ok U -> numbered_form U g -> trimmed U g tok -> numbered_form U tok.
Proof.
  intros HU (Hlt & x & d & y & z & Hg & Hd & Hz) (ws1 & ws2 & Hsplit & H1 & H2 & _).
  assert (ws2 = []) as ->.
  { apply (blank_suffix (ws1 ++ tok) ws2 (x ++ d :: y) z H2).
    - now apply letter_b_not_space.
    - rewrite <- app_assoc, <- Hsplit, Hg. now rewrite <- app_assoc. }
  rewrite app_nil_r in Hsplit.
  destruct (blank_prefix ws1 tok x (y ++ [z]) d H1) as (x' & -> & ->).
  - now apply digit_not_space.
  - now rewrite <- Hsplit, Hg.
  - split.
    + intros Hin. apply Hlt. rewrite Hg, <- app_assoc, in_app_iff. auto.
    + exists x', d, y, z. auto.
Qed.

Lemma token_form_no_space_ends (tok : str) :
  table_ok U -> token_form U tok ->
  head_kept U tok /\ head_kept U (rev tok) /\ tok <> [].
Proof.
  intros HU Ht. pose proof (token_strip U tok HU Ht) as Hs.
  destruct (strip_trimmed U tok) as (a & b & _ & _ & _ & H1 & H2).
  rewrite Hs in H1, H2. split; [exact H1|]. split; [exact H2|].
  destruct Ht as (n & ws & u & z & -> & _). intros H.
  apply (f_equal (@length Z)) in H. rewrite !length_app in H. simpl in H. lia.
Qed.

Lemma labeled_no_form (html : str) :
  (forall s g, ~ occurs U s html g) ->
  Robust.labeled U Robust.patterns html = Ok None.
Proof.
  intros Hnone.
  destruct (labeled_result html) as [(s & g & _ & Ho & _)|(_ & H)];
    [now destruct (Hnone s g)|exact H].
Qed.

Lemma search_none_no_form (s : strategy) (html : str) :
  re_search U (pattern_of s) html = None -> forall g, ~ occurs U s html g.
Proof. intros H g Ho. now apply (occurs_search U _ _ _ Ho). Qed.

End StrategyFacts.

(** ** The parts of a token are read in one way *)

Lemma ascii_rows_apart : letters_apart ascii_rows.
Proof. intros c _. split; [intros H; now destruct H|discriminate]. Qed.

Section TokenParts.
Variable U : ucd.
Hypothesis HU : table_ok U.
Hypothesis HA : letters_apart U.

Lemma run_unique (P : Z -> bool) (a a' x x' : str) :
  Forall (fun c => P c = true) a -> Forall (fun c => P c = true) a' ->
  stops P x -> stops P x' ->
  a ++ x = a' ++ x' -> a = a' /\ x = x'.
Proof.
  revert a'. induction a as [|c a IH]; intros a' Ha Ha' Hx Hx' H.
  - destruct a' as [|c' a']; [auto|].
    simpl in H. subst x. inversion Ha'; subst. simpl in Hx. congruence.
  - inversion Ha; subst. destruct a' as [|c' a'].
    + simpl in H. subst x'. simpl in Hx'. congruence.
    + inversion Ha'; subst. simpl in H. inversion H; subst.
      destruct (IH a') as (-> & ->); auto.
Qed.

Lemma digit_no_letter (c x : Z) :
  is_digit U c = true -> ieq U c x = true ->
  ~ In x [ch "k"; ch "m"; ch "g"; ch "t"; ch "b"].
Proof.
  unfold is_digit, decimal_of, ieq. destruct (is_ascii c) eqn:Ha.
  - unfold between. intros H1 H2 Hin.
    simpl in Hin. change (ch "k") with 107 in Hin. change (ch "m") with 109 in Hin.
    change (ch "g") with 103 in Hin. change (ch "t") with 116 in Hin.
    change (ch "b") with 98 in Hin.
    leb_cases; simpl in *; try discriminate; lia.
  - intros H1 H2 Hin. destruct (HA c Ha) as (Hd & _).
    rewrite (Hd ltac:(destruct (uni_decimal U c); [discriminate|discriminate H1])
                x Hin) in H2.
    discriminate.
Qed.

Lemma unit_letter_spelled (c : Z) :
  in_class U kmgt c = true ->
  exists x, In x [ch "k"; ch "m"; ch "g"; ch "t"] /\ ieq U c x = true.
Proof.
  unfold kmgt. cbn [in_class existsb in_atom]. rewrite !orb_true_iff.
  intros [H|[H|[H|[H|H]]]]; [..|discriminate H];
    eexists; (split; [|exact H]); simpl; auto.
Qed.

Lemma digit_no_unit (c : Z) :
  is_digit U c = true -> in_class U kmgt c = false.
Proof.
  intros Hd. destruct (in_class U kmgt c) eqn:Hk; [|reflexivity].
  destruct (unit_letter_spelled c Hk) as (x & Hx & Hc).
  destruct (digit_no_letter c x Hd Hc). simpl in *. tauto.
Qed.

Lemma digit_no_b (c : Z) : is_digit U c = true -> ieq U c (ch "b") = false.
Proof.
  intros Hd. destruct (ieq U c (ch "b")) eqn:Hb; [|reflexivity].
  destruct (digit_no_letter c (ch "b") Hd Hb). simpl. tauto.
Qed.

Lemma letter_not_space (c x : Z) :
  ieq U c x = true -> between 97 122 x = true -> is_space U c = false.
Proof.
  unfold ieq, is_space. destruct (is_ascii c) eqn:Ha.
  - unfold between. intros H Hx.
    leb_cases; simpl in *; try reflexivity; try discriminate; lia.
  - intros H _. apply HU; [exact Ha|]. right. eauto.
Qed.

Lemma unit_not_space (c : Z) :
  in_class U kmgt c = true -> is_space U c = false.
Proof.
  intros Hk. destruct (unit_letter_spelled c Hk) as (x & Hx & Hc).
  apply (letter_not_space c x Hc).
  simpl in Hx. destruct Hx as [<-|[<-|[<-|[<-|[]]]]]; reflexivity.
Qed.

Lemma unit_not_b (c : Z) :
  in_class U kmgt c = true -> ieq U c (ch "b") = false.
Proof.
  intros Hk. destruct (ieq U c (ch "b")) eqn:Hb; [|reflexivity].
  destruct (unit_letter_spelled c Hk) as (x & Hx & Hc).
  revert Hb Hc. unfold ieq. destruct (is_ascii c) eqn:Ha.
  - intros Hb Hc. apply Z.eqb_eq in Hb, Hc. rewrite Hb in Hc. subst x.
    simpl in Hx. destruct Hx as [H|[H|[H|[H|[]]]]]; discriminate H.
  - intros Hb Hc. destruct (HA c Ha) as (_ & Hk').
    rewrite (Hk' Hb x Hx) in Hc. discriminate.
Qed.

Lemma tail_after_number (ws u : str) (z : Z) (l : str) :
  blank U ws ->
  (u = [] \/ exists c, u = [c] /\ in_class U kmgt c = true) ->
  ieq U z (ch "b") = true ->
  after_number U (ws ++ u ++ [z] ++ l).
Proof.
  intros Hws Hu Hz. destruct ws as [|c ws].
  - destruct Hu as [->|(c & -> & Hc)]; unfold after_number;
      cbn [app]; auto.
  - inversion Hws; subst. unfold after_number. cbn [app]. auto.
Qed.

Lemma after_number_stops_digit (x : str) :
  after_number U x -> stops (is_digit U) x.
Proof.
  destruct x as [|c x]; [intros []|]. unfold after_number, stops.
  intros [H|[H|H]]; destruct (is_digit U c) eqn:Hd; try reflexivity.
  - rewrite (digit_not_space U c HU Hd) in H. discriminate.
  - rewrite (digit_no_unit c Hd) in H. discriminate.
  - rewrite (digit_no_b c Hd) in H. discriminate.
Qed.

Lemma after_number_no_point (x : str) : after_number U (46 :: x) -> False.
Proof.
  unfold after_number. intros [H|[H|H]]; vm_compute in H; discriminate H.
Qed.

Lemma point_stops_digit (x : str) : stops (is_digit U) (46 :: x).
Proof. reflexivity. Qed.

Lemma number_unique (n n' x x' : str) :
  number_form U n -> number_form U n' ->
  after_number U x -> after_number U x' ->
  n ++ x = n' ++ x' -> n = n' /\ x = x'.
Proof.
  intros (ip & _ & Hip & Hn) (ip' & _ & Hip' & Hn') Hx Hx' H.
  destruct Hn as [->|(fp & _ & Hfp & ->)],
           Hn' as [->|(fp' & _ & Hfp' & ->)].
  - apply (run_unique (is_digit U)); auto using after_number_stops_digit.
  - rewrite <- app_assoc in H. simpl in H.
    destruct (run_unique (is_digit U) ip ip' x (46 :: fp' ++ x') Hip Hip'
                (after_number_stops_digit _ Hx) (point_stops_digit _) H)
      as (_ & ->).
    now destruct (after_number_no_point _ Hx).
  - rewrite <- app_assoc in H. simpl in H.
    destruct (run_unique (is_digit U) ip ip' (46 :: fp ++ x) x' Hip Hip'
                (point_stops_digit _) (after_number_stops_digit _ Hx') H)
      as (_ & <-).
    now destruct (after_number_no_point _ Hx').
  - rewrite <- !app_assoc in H. simpl in H.
    destruct (run_unique (is_digit U) ip ip' (46 :: fp ++ x) (46 :: fp' ++ x')
                Hip Hip' (point_stops_digit _) (point_stops_digit _) H)
      as (-> & H2).
    inversion H2 as [H3].
    destruct (run_unique (is_digit U) fp fp' x x' Hfp Hfp'
                (after_number_stops_digit _ Hx) (after_number_stops_digit _ Hx') H3)
      as (-> & ->).
    auto.
Qed.

Lemma unit_tail_stops_space (u : str) (z : Z) (l : str) :
  (u = [] \/ exists c, u = [c] /\ in_class U kmgt c = true) ->
  ieq U z (ch "b") = true ->
  stops (is_space U) (u ++ [z] ++ l).
Proof.
  intros [->|(c & -> & Hc)] Hz; unfold stops; cbn [app].
  - now apply letter_b_not_space.
  - now apply unit_not_space.
Qed.

(** The parts of a token are read in one way only. *)
Lemma token_parts_unique (n ws u : str) (z : Z) (n' ws' u' : str) (z' : Z)
    (l' : str) :
  number_form U n -> blank U ws ->
  (u = [] \/ exists c, u = [c] /\ in_class U kmgt c = true) ->
  ieq U z (ch "b") = true ->
  number_form U n' -> blank U ws' ->
  (u' = [] \/ exists c, u' = [c] /\ in_class U kmgt c = true) ->
  ieq U z' (ch "b") = true ->
  n ++ ws ++ u ++ [z] = n' ++ ws' ++ u' ++ [z'] ++ l' ->
  n' = n /\ u' = u /\ l' = [].
Proof.
  intros Hn Hws Hu Hz Hn' Hws' Hu' Hz' H.
  destruct (number_unique n n' (ws ++ u ++ [z] ++ []) (ws' ++ u' ++ [z'] ++ l')
              Hn Hn') as (-> & H2).
  { now apply tail_after_number. }
  { now apply tail_after_number. }
  { simpl. exact H. }
  split; [reflexivity|].
  destruct (run_unique (is_space U) ws ws' (u ++ [z] ++ []) (u' ++ [z'] ++ l')
              Hws Hws') as (_ & H3).
  { now apply unit_tail_stops_space. }
  { now apply unit_tail_stops_space. }
  { exact H2. }
  destruct Hu as [->|(c & -> & Hc)], Hu' as [->|(c' & -> & Hc')];
    cbn [app] in H3.
  - inversion H3; subst. auto.
  - discriminate H3.
  - inversion H3; subst. rewrite (unit_not_b _ Hc) in Hz'. discriminate.
  - inversion H3; subst. auto.
Qed.

(** What the second regular expression reads in a token. *)
Lemma token_split (n ws u : str) (z : Z) :
  number_form U n -> blank U ws ->
  (u = [] \/ exists c, u = [c] /\ in_class U kmgt c = true) ->
  ieq U z (ch "b") = true ->
  exists m,
    re_match U Robust.pat_split (n ++ ws ++ u ++ [z]) = Some m /\
    group 1 (caps m) = Some n /\ group 2 (caps m) = Some u.
Proof.
  intros Hn Hws Hu Hz.
  assert (Ht : token_form U (n ++ ws ++ u ++ [z])).
  { exists n, ws, u, z. auto. }
  destruct (token_form_splits U _ Ht) as (cps & Ha).
  pose proof (match_at_complete U _ _ _ _ _ Ha) as Hm.
  rewrite app_nil_r in Hm.
  fold (re_match U Robust.pat_split (n ++ ws ++ u ++ [z])) in Hm.
  destruct (re_match U Robust.pat_split (n ++ ws ++ u ++ [z])) as [m|] eqn:Hre;
    [|congruence].
  exists m. split; [reflexivity|].
  destruct (re_match_sound U _ _ _ Hre) as (w & l' & Hw & Hacc).
  revert Hacc. unfold Robust.pat_split. cbn [accepts].
  intros (n' & w1 & cps1 & -> & (cps0 & Hn' & ->) & ws' & w2 & cps2 & -> &
          (Hws' & ->) & u' & w3 & cps3 & -> & (cps4 & Hu' & ->) & Hb).
  pose proof (accepts_no_group U number_re _ _ _ _ _ eq_refl Hn') as ->.
  assert (Hu'' := Hu').
  apply (accepts_no_group U (Opt (Chr kmgt)) [] _ [] _ _ eq_refl) in Hu''.
  subst cps4.
  pose proof (accepts_no_group U letter_b _ _ _ _ _ eq_refl Hb) as Hc.
  apply accepts_number_re in Hn'. apply (accepts_unit_letter U [] _ []) in Hu'.
  apply accepts_letter_b in Hb. destruct Hb as (z' & -> & Hz').
  destruct (token_parts_unique n ws u z n' ws' u' z' l' Hn Hws Hu Hz Hn' Hws' Hu' Hz')
    as (-> & -> & _).
  { rewrite Hw. now rewrite <- !app_assoc. }
  rewrite Hc. simpl. auto.
Qed.

(** What the round of the scan loop decides for a token. *)
Lemma plausible_token (n ws u : str) (z : Z) (x : pyfloat) :
  number_form U n -> blank U ws ->
  (u = [] \/ exists c, u = [c] /\ in_class U kmgt c = true) ->
  ieq U z (ch "b") = true ->
  py_float U n = Ok x ->
  plausible U (n ++ ws ++ u ++ [z])
  = in_range 64 8192 (Robust.mb_value x (upper U u)).
Proof.
  intros Hn Hws Hu Hz Hx.
  destruct (token_split n ws u z Hn Hws Hu Hz) as (m & Hm & Hg1 & Hg2).
  unfold plausible. now rewrite Hm, Hg1, Hg2, Hx.
Qed.

End TokenParts.

(** ** Tokens stated in the way of a strategy *)

Section StatedTokens.
Variable U : ucd.

Lemma bare_b_token_form (tok : str) : bare_b_token U tok -> token_form U tok.
Proof.
  intros (n & ws & z & -> & Hn & Hws & Hz). exists n, ws, [], z.
  split; [reflexivity|]. auto.
Qed.

Lemma token_form_cell (tok : str) : token_form U tok -> cell_form U tok.
Proof.
  intros H. split; [now apply (token_form_no_lt U)|].
  now apply (token_form_letter_b U).
Qed.

Lemma token_form_numbered (tok : str) : token_form U tok -> numbered_form U tok.
Proof.
  intros H. split; [now apply (token_form_no_lt U)|].
  destruct H as (n & ws & u & z & -> & (ip & Hne & Hip & Hn) & _ & _ & Hz).
  destruct ip as [|d ip]; [congruence|]. inversion Hip; subst.
  destruct Hn as [->|(fp & _ & _ & ->)].
  - exists [], d, (ip ++ ws ++ u), z. split; [|auto].
    simpl. now rewrite <- !app_assoc.
  - exists [], d, (ip ++ 46 :: fp ++ ws ++ u), z. split; [|auto].
    simpl. rewrite <- !app_assoc. simpl. now rewrite <- !app_assoc.
Qed.

Lemma label_text_spelled : label_text U (py "Memory Limit").
Proof.
  exists (py "Memory"), (py " "), (py "Limit").
  split; [reflexivity|]. split; [repeat constructor|].
  split; [discriminate|]. split; repeat constructor.
Qed.

Lemma separator_colon_space : separator U (py ": ").
Proof.
  constructor; [now left|]. constructor; [now right|constructor].
Qed.

(** A token stated in the form of a strategy is an occurrence of that
    form. *)
Lemma labeled_page_occurs (s : strategy) (pre tok post : str) :
  token_form U tok -> occurs U s (labeled_page s pre tok post) tok.
Proof.
  intros Ht. unfold labeled_page, occurs. exists pre. eexists. exists post.
  split; [reflexivity|]. destruct s; cbn [form].
  - exists (py "Memory Limit"), (py ": ").
    split; [reflexivity|]. split; [apply label_text_spelled|].
    split; [apply separator_colon_space|exact Ht].
  - exists (py ": "). split; [reflexivity|].
    split; [apply separator_colon_space|exact Ht].
  - exists (py "<th"), [], (py "Memory Limit"), (py "</th>"), [], (py "<td"), [],
      (py "</td>").
    split; [reflexivity|]. split; [repeat constructor|].
    split; [intros []|]. split; [apply label_text_spelled|].
    split; [repeat constructor|]. split; [constructor|].
    split; [repeat constructor|]. split; [intros []|].
    split; [now apply token_form_cell|repeat constructor].
  - exists (py "<th"), [], memory_limit_ja, (py "</th>"), [], (py "<td"), [],
      (py "</td>").
    split; [reflexivity|]. split; [repeat constructor|].
    split; [intros []|]. split; [reflexivity|].
    split; [repeat constructor|]. split; [constructor|].
    split; [repeat constructor|]. split; [intros []|].
    split; [now apply token_form_cell|repeat constructor].
  - exists (py " "), (py "memory"). split; [reflexivity|].
    split; [exact Ht|]. split; repeat constructor.
  - exists (py "limit"), []. split; [reflexivity|].
    split; [repeat constructor|]. split; [intros []|].
    now apply token_form_numbered.
Qed.

End StatedTokens.

(** ** The scan reads from left to right *)

Section ScanOrderFacts.
Variable U : ucd.

Lemma token_form_not_empty (g : str) : token_form U g -> g <> [].
Proof.
  intros (n & ws & u & z & -> & _) H.
  apply (f_equal (@length Z)) in H. rewrite !length_app in H. simpl in H. lia.
Qed.

Lemma accepts_scan b w l cps' :
  accepts U Robust.pat_scan b w l [] cps' <->
  scan_form U b w l /\ cps' = [(1%nat, w)].
Proof.
  unfold Robust.pat_scan, scan_form. cbn [accepts]. split.
  - intros (w1 & w2 & cps1 & -> & (-> & -> & Hb1) & g & w3 & cps2 & -> &
            (cps3 & Hg & ->) & (-> & -> & Hb2)).
    apply accepts_token_iff in Hg. destruct Hg as (Hg & ->).
    simpl in *. rewrite ?app_nil_r in *. auto.
  - intros ((Hg & Hb1 & Hb2) & ->).
    exists [], w, []. split; [reflexivity|]. split; [auto|].
    exists w, [], [(1%nat, w)]. split; [now rewrite app_nil_r|]. split.
    + exists []. split; [|reflexivity]. apply accepts_token_iff. auto.
    + simpl. rewrite ?app_nil_r. auto.
Qed.

Lemma findall_skip (r : regex) (x : str) :
  forall b l,
    findall_from U r (length x) b (x ++ l) = findall_from U r 0 (rev x ++ b) l.
Proof.
  induction x as [|c x IH]; intros b l; [reflexivity|].
  simpl. rewrite IH, <- app_assoc. reflexivity.
Qed.

Lemma findall_scanned (n : nat) :
  forall b l,
    (length l <= n)%nat ->
    scanned U b l (findall_from U Robust.pat_scan 0 b l).
Proof.
  induction n as [|n IH]; intros b l Hlen.
  - destruct l as [|c l]; [|simpl in Hlen; lia].
    simpl. destruct (match_at U Robust.pat_scan b []) as [m|] eqn:Hm;
      [|constructor].
    destruct (match_at_sound U _ _ _ _ Hm) as (w & l' & Hl & Ha & _).
    apply accepts_scan in Ha. destruct Ha as ((Hg & _) & _).
    destruct w; [now destruct (token_form_not_empty _ Hg)|discriminate].
  - destruct l as [|c l].
    { apply (IH b []). simpl. lia. }
    cbn [findall_from].
    destruct (match_at U Robust.pat_scan b (c :: l)) as [m|] eqn:Hm.
    + destruct (match_at_sound U _ _ _ _ Hm) as (w & l' & Hl & Ha & _ & Hrest).
      apply accepts_scan in Ha. destruct Ha as (Hs & Hc).
      rewrite Hc, Hrest. cbn [group Nat.eqb].
      destruct w as [|c' w].
      { destruct Hs as (Hg & _). now destruct (token_form_not_empty _ Hg). }
      simpl in Hl. inversion Hl; subst c' l.
      apply (scanned_value U b (c :: w ++ l') (c :: w) l');
        [reflexivity|exact Hs|].
      replace (length (c :: w ++ l') - length l' - 1)%nat with (length w)
        by (cbn [length]; rewrite length_app; lia).
      rewrite findall_skip.
      replace (rev (c :: w) ++ b) with (rev w ++ c :: b)
        by (simpl; now rewrite <- app_assoc).
      apply IH. simpl in Hlen. rewrite length_app in Hlen. lia.
    + apply scanned_on.
      * intros g y Heq Hs.
        assert (Ha : accepts U Robust.pat_scan b g y [] [(1%nat, g)]).
        { apply accepts_scan. auto. }
        apply match_at_complete in Ha. rewrite <- Heq in Ha. congruence.
      * apply IH. simpl in Hlen. lia.
Qed.

Lemma re_findall_scanned (html : str) :
  scanned U [] html (re_findall U Robust.pat_scan html).
Proof. apply (findall_scanned (length html)). lia. Qed.

Section OneReading.
Hypothesis HU : table_ok U.
Hypothesis HA : letters_apart U.

Lemma token_prefix_unique (g g' y y' : str) :
  token_form U g -> token_form U g' -> g ++ y = g' ++ y' -> g = g'.
Proof.
  intros (n & ws & u & z & -> & Hn & Hws & Hu & Hz)
         (n' & ws' & u' & z' & -> & Hn' & Hws' & Hu' & Hz') H.
  apply app_eq_app in H. destruct H as (k & [(H & _)|(H & _)]).
  - rewrite <- !app_assoc in H.
    destruct (token_parts_unique U HU HA n ws u z n' ws' u' z' k
                Hn Hws Hu Hz Hn' Hws' Hu' Hz' H) as (_ & _ & ->).
    rewrite H. reflexivity.
  - rewrite <- !app_assoc in H.
    destruct (token_parts_unique U HU HA n' ws' u' z' n ws u z k
                Hn' Hws' Hu' Hz' Hn Hws Hu Hz H) as (_ & _ & ->).
    rewrite H. reflexivity.
Qed.

Lemma scanned_unique (b l : str) (values values' : list str) :
  scanned U b l values -> scanned U b l values' -> values = values'.
Proof.
  intros H. revert values'.
  induction H as [b|b c l values Hno _ IH|b l g y values Hl Hs _ IH];
    intros values' H'.
  - inversion H' as [| |b' l' g y values'' Hl Hs]; subst; [reflexivity|].
    destruct Hs as (Hg & _). destruct g; [|discriminate].
    now destruct (token_form_not_empty _ Hg).
  - inversion H' as [|b' c' l' values'' Hno' Hrest|b' l' g y values'' Hl Hs];
      subst.
    + now apply IH.
    + now destruct (Hno g y).
  - inversion H' as [|b' c' l' values'' Hno' Hrest|b' l' g' y' values'' Hl' Hs' Hrest];
      subst.
    + destruct Hs as (Hg & _). destruct g; [|discriminate].
      now destruct (token_form_not_empty _ Hg).
    + now destruct (Hno' g y).
    + assert (g' = g) as ->.
      { destruct Hs as (Hg & _), Hs' as (Hg' & _).
        symmetry. now apply (token_prefix_unique g g' y y'). }
      apply app_inv_head in Hl'. subst y'. f_equal. now apply IH.
Qed.

End OneReading.

End ScanOrderFacts.

(** ** Claims on the extractor *)

Section ExtractorClaims.
Variable U : ucd.

Lemma labeled_none (todo : list regex) (html : str) :
  (forall p, In p todo -> re_search U p html = None) ->
  Robust.labeled U todo html = Ok None.
Proof.
  induction todo as [|q todo IH]; intros H; simpl; [reflexivity|].
  rewrite (H q) by now left. apply IH. intros p Hp. apply H. now right.
Qed.

(** C1. The labeled patterns are the six of the source, in their order.
    When a limit is stated somewhere in the page in the way of a strategy
    (the label in any letter case), and in the way of no strategy before it
    in the list, the result is the part [g] that this strategy takes from
    such a statement, without the white space at its two ends, whatever the
    number in it.  The plausibility scan decides the result only when the
    page states a limit in none of the six ways. *)
Theorem labeled_match_wins :
  Robust.patterns =
    map pattern_of
      [inline_en; inline_ja; row_en; row_ja; before_memory; after_limit] /\
  (forall html s g0,
      occurs U s html g0 ->
      (forall s' g', (rank s' < rank s)%nat -> ~ occurs U s' html g') ->
      exists g tok,
        occurs U s html g /\ trimmed U g tok /\
        Robust.parse_memory_limit_from_html U html = Ok (Some tok)) /\
  (forall html,
      (forall s g, ~ occurs U s html g) ->
      Robust.parse_memory_limit_from_html U html =
      (memory_candidates <- Robust.candidates U (re_findall U Robust.pat_scan html) ;;
       Ok (hd_error memory_candidates))).
Proof.
  split; [reflexivity|]. split.
  - intros html s g0 Ho Hfirst.
    destruct (labeled_result U html)
      as [(s1 & g & tok & Ho1 & Hfirst1 & Htrim & _ & Hl)|(Hnone & _)];
      [|now destruct (Hnone s g0)].
    assert (s1 = s) as ->.
    { apply rank_injective.
      destruct (Nat.lt_trichotomy (rank s1) (rank s)) as [Hlt|[Heq|Hgt]];
        [|exact Heq|].
      - now destruct (Hfirst s1 g Hlt).
      - now destruct (Hfirst1 s g0 Hgt). }
    exists g, tok. split; [exact Ho1|]. split; [exact Htrim|].
    unfold Robust.parse_memory_limit_from_html. now rewrite Hl.
  - intros html Hnone. unfold Robust.parse_memory_limit_from_html.
    destruct (labeled_result U html)
      as [(s1 & g & tok & Ho1 & _)|(_ & ->)]; [now destruct (Hnone s1 g)|].
    cbn [rbind].
    destruct (Robust.candidates U (re_findall U Robust.pat_scan html))
      as [[|c kept]|e]; reflexivity.
Qed.

(** C2. The scan compares the number alone with the window: the unit is
    read as one letter, and one letter is never "KB", "GB" or "TB", so no
    conversion is applied.  A page whose only token is "2 GB" (2048 MB)
    gives nothing, and "100 KB" (less than 1 MB) is returned. *)
Theorem scan_ignores_unit :
  (forall number u,
      u = [] \/ (exists c, u = [c] /\ is_ascii c = true) ->
      Robust.mb_value number (upper U u) = number) /\
  Robust.parse_memory_limit_from_html U
    (py "<div>Memory: 2 GB for submissions</div>") = Ok None /\
  Robust.parse_memory_limit_from_html U (py "2 GB") = Ok None /\
  Robust.candidates U [py "2 GB"] = Ok [] /\
  Robust.parse_memory_limit_from_html U
    (py "<div>Stack: 100 KB</div>") = Ok (Some (py "100 KB")).
Proof.
  split; [|repeat split; vm_compute; reflexivity].
  intros number u [->|(c & -> & Hc)]; [reflexivity|].
  unfold upper, upper_char. simpl. rewrite Hc.
  destruct (between 97 122 c); unfold Robust.mb_value; simpl;
    now rewrite !andb_false_r.
Qed.

(** C3, as amended.  On a character database that is [table_ok], a token
    the extractor returns is a piece of the page, copied as it is there (not
    brought to one spelling), not empty and with no white space at its ends.
    What it looks like depends on the strategy that gave it, the first of the
    list that the page states a limit for.  From the two inline strategies and
    from the one before "memory" it is the part taken itself: a number, any
    white space, at most one unit letter and a B, in the letter case of the
    page.  From the two row strategies it is the text of the data cell
    without the white space at its ends: a text without [<] that holds a B.
    From the strategy after "limit" it is the part taken, trimmed: a text
    without [<] that holds a digit and ends in B.  When the page states a
    limit in none of the six ways it is the first plausible value of the
    scan, again a number with its unit. *)
Theorem token_is_page_text (html tok : str) :
  table_ok U ->
  Robust.parse_memory_limit_from_html U html = Ok (Some tok) ->
  infix tok html /\ tok <> [] /\ head_kept U tok /\ head_kept U (rev tok) /\
  ((exists s g,
       occurs U s html g /\
       (forall s' g', (rank s' < rank s)%nat -> ~ occurs U s' html g') /\
       trimmed U g tok /\
       match s with
       | inline_en | inline_ja | before_memory => tok = g /\ token_form U tok
       | row_en | row_ja => cell_form U tok
       | after_limit => numbered_form U tok
       end) \/
   ((forall s g, ~ occurs U s html g) /\
    first_plausible U (re_findall U Robust.pat_scan html) tok /\
    token_form U tok)).
Proof.
  intros HU. unfold Robust.parse_memory_limit_from_html.
  destruct (labeled_result U html)
    as [(s & g & t & Ho & Hfirst & Htrim & Hstrip & ->)|(Hnone & ->)];
    cbn [rbind].
  - intros H. inversion H; subst tok; clear H. subst t.
    assert (Hg : infix g html).
    { destruct Ho as (pre & w & post & -> & Hf).
      assert (Hw : infix g w).
      { destruct s; cbn [form] in Hf.
        - destruct Hf as (l & sep & -> & _). exists (l ++ sep), [].
          now rewrite app_nil_r, <- app_assoc.
        - destruct Hf as (sep & -> & _). exists (memory_limit_ja ++ sep), [].
          now rewrite app_nil_r, <- app_assoc.
        - destruct Hf as (th & a1 & l & cth & ws & td & a2 & ctd & -> & _).
          exists (th ++ a1 ++ [ch ">"] ++ l ++ cth ++ ws ++ td ++ a2 ++ [ch ">"]), ctd.
          now rewrite <- !app_assoc.
        - destruct Hf as (th & a1 & l & cth & ws & td & a2 & ctd & -> & _).
          exists (th ++ a1 ++ [ch ">"] ++ l ++ cth ++ ws ++ td ++ a2 ++ [ch ">"]), ctd.
          now rewrite <- !app_assoc.
        - destruct Hf as (ws & m & -> & _). now exists [], (ws ++ m).
        - destruct Hf as (l & a & -> & _). exists (l ++ a ++ [ch ">"]), [].
          now rewrite app_nil_r, <- !app_assoc. }
      apply (infix_trans _ _ _ Hw). now exists pre, post. }
    assert (Hin : infix (strip U g) html)
      by exact (infix_trans _ _ _ (strip_infix U g) Hg).
    assert (Hshape : match s with
                     | inline_en | inline_ja | before_memory =>
                         strip U g = g /\ token_form U (strip U g)
                     | row_en | row_ja => cell_form U (strip U g)
                     | after_limit => numbered_form U (strip U g)
                     end).
    { destruct Ho as (pre & w & post & _ & Hf).
      destruct s; cbn [form] in Hf.
      - destruct Hf as (l & sep & _ & _ & _ & Ht).
        rewrite (token_strip U g HU Ht). auto.
      - destruct Hf as (sep & _ & _ & Ht).
        rewrite (token_strip U g HU Ht). auto.
      - destruct Hf as (th & a1 & l & cth & ws & td & a2 & ctd & _ & _ & _ & _ &
                        _ & _ & _ & _ & Hc & _). now apply cell_strip.
      - destruct Hf as (th & a1 & l & cth & ws & td & a2 & ctd & _ & _ & _ & _ &
                        _ & _ & _ & _ & Hc & _). now apply cell_strip.
      - destruct Hf as (ws & m & _ & Ht & _).
        rewrite (token_strip U g HU Ht). auto.
      - destruct Hf as (l & a & _ & _ & _ & Hn).
        apply (numbered_trimmed U g); [exact HU|exact Hn|apply strip_trimmed]. }
    assert (Hb : exists z, In z (strip U g) /\ ieq U z (ch "b") = true).
    { destruct s.
      - now apply (token_form_letter_b U).
      - now apply (token_form_letter_b U).
      - exact (proj2 Hshape).
      - exact (proj2 Hshape).
      - now apply (token_form_letter_b U).
      - destruct Hshape as (_ & x & d & y & z & -> & _ & Hz). exists z.
        split; [|exact Hz]. rewrite in_app_iff. right. right.
        rewrite in_app_iff. simpl. auto. }
    destruct Htrim as (ws1 & ws2 & _ & _ & _ & Hh & Hr).
    split; [exact Hin|]. split.
    { destruct Hb as (z & Hz & _). intros He. rewrite He in Hz. exact Hz. }
    split; [exact Hh|]. split; [exact Hr|].
    left. exists s, g. split; [exact Ho|]. split; [exact Hfirst|].
    split; [apply strip_trimmed|].
    destruct s; try exact Hshape; destruct Hshape as (He & Ht); auto.
  - destruct (Robust.candidates U (re_findall U Robust.pat_scan html))
      as [[|c kept]|e] eqn:Hc; cbn [rbind]; try discriminate.
    intros H. inversion H; subst c; clear H.
    assert (Hfirst : first_plausible U (re_findall U Robust.pat_scan html) tok).
    { rewrite candidates_filter in Hc. inversion Hc as [Hf].
      pose proof (filter_first _ (plausible U)
                    (re_findall U Robust.pat_scan html)) as Hx.
      now rewrite Hf in Hx. }
    apply candidates_subset in Hc.
    pose proof (Hc tok (or_introl eq_refl)) as Hin.
    destruct (scan_values U html tok Hin) as (Ht & Hinf).
    destruct (token_form_no_space_ends U tok HU Ht) as (H1 & H2 & H3).
    split; [exact Hinf|]. split; [exact H3|]. split; [exact H1|].
    split; [exact H2|]. right. auto.
Qed.

(** C4. The extractor never raises: on every text it returns a token or
    [None].  On the empty text and on "MB of GB" (unit letters, no digit) it
    returns [None], as it does whenever no labeled pattern matches and no
    candidate survives. *)
Theorem extractor_total :
  (forall html, exists r, Robust.parse_memory_limit_from_html U html = Ok r) /\
  Robust.parse_memory_limit_from_html U [] = Ok None /\
  Robust.parse_memory_limit_from_html U (py "MB of GB") = Ok None /\
  (forall html,
      (forall p, In p Robust.patterns -> re_search U p html = None) ->
      Robust.candidates U (re_findall U Robust.pat_scan html) = Ok [] ->
      Robust.parse_memory_limit_from_html U html = Ok None).
Proof.
  split; [|split; [vm_compute; reflexivity|split; [vm_compute; reflexivity|]]].
  - intros html. unfold Robust.parse_memory_limit_from_html.
    destruct (labeled_total U Robust.patterns html) as ([t|] & ->).
    { intros p Hp. destruct (patterns_spine p Hp) as (G & Hs & HG & _). eauto. }
    + cbn [rbind]. eauto.
    + cbn [rbind].
      destruct (candidates_total U (re_findall U Robust.pat_scan html))
        as ([|c kept] & ->); cbn [rbind]; eauto.
  - intros html Hnone Hc. unfold Robust.parse_memory_limit_from_html.
    rewrite (labeled_none _ _ Hnone). cbn [rbind]. now rewrite Hc.
Qed.

(** C9. The extractor of the patch file and the extractor of the wrapper
    file give the same result on every text. *)
Theorem extractors_agree (html : str) :
  Patch._patched_parse_memory_limit_from_html U html =
  Robust.parse_memory_limit_from_html U html.
Proof.
  unfold Patch._patched_parse_memory_limit_from_html,
    Robust.parse_memory_limit_from_html.
  assert (Hl : forall todo, Patch.labeled U todo html = Robust.labeled U todo html).
  { induction todo as [|p todo IH]; simpl; [reflexivity|]. now rewrite IH. }
  assert (Hc : forall vs, Patch.candidates U vs = Robust.candidates U vs).
  { induction vs as [|v vs IH]; simpl; [reflexivity|]. now rewrite IH. }
  rewrite Hc. change Patch.patterns with Robust.patterns.
  now rewrite Hl.
Qed.

(** C10. The unit letter is optional in every pattern.  A number followed
    by a bare B is found by each of the six labeled patterns on a page that
    states it in the way of that pattern, and the extractor returns a token
    there.  In the scan loop the second regular expression reads the number
    in group 1 and the empty text in group 2; the number is compared with
    the window as it is, as for MB, so a page that states no labeled limit
    and whose only value is such a token gives the token when its number lies
    in the window and [None] otherwise: "100 B" gives "100 B", "5 B"
    gives [None]. *)
Theorem bare_b_is_a_token :
  (forall s tok pre post,
      bare_b_token U tok ->
      (exists m, re_search U (pattern_of s) (labeled_page s pre tok post) = Some m) /\
      (exists found,
          Robust.parse_memory_limit_from_html U (labeled_page s pre tok post)
          = Ok (Some found))) /\
  (table_ok U -> letters_apart U ->
   forall n ws z x,
     number_form U n -> blank U ws -> ieq U z (ch "b") = true ->
     py_float U n = Ok x ->
     (exists m,
         re_match U Robust.pat_split (n ++ ws ++ [z]) = Some m /\
         group 1 (caps m) = Some n /\ group 2 (caps m) = Some []) /\
     Robust.mb_value x (upper U []) = x /\
     plausible U (n ++ ws ++ [z]) = in_range 64 8192 x /\
     plausible U (n ++ ws ++ [ch "M"; z]) = in_range 64 8192 x /\
     (forall html,
         (forall s g, ~ occurs U s html g) ->
         re_findall U Robust.pat_scan html = [n ++ ws ++ [z]] ->
         Robust.parse_memory_limit_from_html U html
         = Ok (if in_range 64 8192 x then Some (n ++ ws ++ [z]) else None))) /\
  re_findall U Robust.pat_scan (py "100 B") = [py "100 B"] /\
  Robust.parse_memory_limit_from_html U (py "100 B") = Ok (Some (py "100 B")) /\
  Robust.parse_memory_limit_from_html U (py "5 B") = Ok None /\
  Robust.labeled U [Robust.pat_inline_en] (py "Memory Limit: 100 B")
    = Ok (Some (py "100 B")) /\
  Robust.labeled U [Robust.pat_inline_ja] (memory_limit_ja ++ py ": 100 B")
    = Ok (Some (py "100 B")) /\
  Robust.labeled U [Robust.pat_row_en]
    (py "<th>Memory Limit</th><td>100 B</td>") = Ok (Some (py "100 B")) /\
  Robust.labeled U [Robust.pat_row_ja]
    (py "<th>" ++ memory_limit_ja ++ py "</th><td>100 B</td>")
    = Ok (Some (py "100 B")) /\
  Robust.labeled U [Robust.pat_before_memory] (py "100 B memory")
    = Ok (Some (py "100 B")) /\
  Robust.labeled U [Robust.pat_after_limit] (py "limit>100 B")
    = Ok (Some (py "100 B")).
Proof.
  split; [|split].
  - intros s tok pre post Hb. apply (bare_b_token_form U) in Hb.
    pose proof (labeled_page_occurs U s pre tok post Hb) as Ho. split.
    + pose proof (occurs_search U s _ _ Ho) as Hs.
      destruct (re_search U (pattern_of s) (labeled_page s pre tok post)) as [m|];
        [eauto|congruence].
    + destruct (labeled_result U (labeled_page s pre tok post))
        as [(s1 & g & t & _ & _ & _ & _ & Hl)|(Hnone & _)].
      * exists t. unfold Robust.parse_memory_limit_from_html. now rewrite Hl.
      * now destruct (Hnone s tok).
  - intros HU HA n ws z x Hn Hws Hz Hx.
    assert (Hbare : plausible U (n ++ ws ++ [z]) = in_range 64 8192 x).
    { apply (plausible_token U HU HA n ws [] z x); auto. }
    split; [apply (token_split U HU HA n ws [] z); auto|].
    split; [reflexivity|]. split; [exact Hbare|]. split.
    + change (n ++ ws ++ [ch "M"; z]) with (n ++ ws ++ [ch "M"] ++ [z]).
      rewrite (plausible_token U HU HA n ws [ch "M"] z x); auto.
      right. exists (ch "M"). split; reflexivity.
    + intros html Hnone Hscan.
      unfold Robust.parse_memory_limit_from_html.
      destruct (labeled_result U html)
        as [(s1 & g & t & Ho1 & _)|(_ & ->)]; [now destruct (Hnone s1 g)|].
      cbn [rbind]. rewrite candidates_filter, Hscan. cbn [rbind filter].
      rewrite Hbare. now destruct (in_range 64 8192 x).
  - repeat split; vm_compute; reflexivity.
Qed.

End ExtractorClaims.

(** ** Putting the recovered limit into the page *)

Lemma starts_with_prefix (needle hay : str) :
  starts_with needle hay = true <-> exists t, hay = needle ++ t.
Proof.
  revert hay. induction needle as [|x n IH]; intros hay; simpl.
  - split; eauto.
  - destruct hay as [|y h].
    + split; [discriminate|]. intros (t & H). discriminate.
    + rewrite andb_true_iff, Z.eqb_eq, IH. split.
      * intros (-> & t & ->). eauto.
      * intros (t & H). inversion H; subst. eauto.
Qed.

Lemma contains_infix (needle hay : str) :
  contains needle hay = true <-> infix needle hay.
Proof.
  induction hay as [|c h IH].
  - simpl. rewrite orb_false_r, starts_with_prefix. split.
    + intros (t & ->). exists [], t. reflexivity.
    + intros (x & y & H). destruct x; [|discriminate]. eauto.
  - cbn [contains]. rewrite orb_true_iff, starts_with_prefix, IH. split.
    + intros [(t & ->)|(x & y & ->)].
      * exists [], t. reflexivity.
      * exists (c :: x), y. reflexivity.
    + intros (x & y & H). destruct x as [|d x].
      * left. eauto.
      * right. inversion H; subst. exists x, y. reflexivity.
Qed.

Lemma skipn_prefix (old t : str) : skipn (length old) (old ++ t) = t.
Proof. induction old; simpl; auto. Qed.

(** [replace(old, new, 1)] rewrites the first occurrence of [old]. *)
Lemma replace_first_spec (old new hay : str) :
  contains old hay = true ->
  exists pre post,
    hay = pre ++ old ++ post /\
    (forall pre' post', hay = pre' ++ old ++ post' ->
                        (length pre <= length pre')%nat) /\
    replace_first old new hay = pre ++ new ++ post.
Proof.
  induction hay as [|c h IH]; intros H.
  - destruct old as [|x o]; [|discriminate H].
    exists [], []. simpl. split; [reflexivity|].
    split; [intros; lia|reflexivity].
  - cbn [contains replace_first] in *.
    destruct (starts_with old (c :: h)) eqn:Hs.
    + destruct (proj1 (starts_with_prefix _ _) Hs) as (t & Ht).
      exists [], t. simpl. split; [exact Ht|].
      split; [intros; simpl; lia|].
      rewrite Ht. now rewrite skipn_prefix.
    + simpl in H. destruct (IH H) as (pre & post & -> & Hmin & Hr).
      exists (c :: pre), post. split; [reflexivity|]. split.
      * intros pre' post' Heq. destruct pre' as [|d pre'].
        -- simpl in Heq.
           assert (starts_with old (c :: pre ++ old ++ post) = true)
             by (apply starts_with_prefix; eauto).
           congruence.
        -- inversion Heq; subst. simpl. apply le_n_S. eauto.
      * simpl. now rewrite Hr.
Qed.

Lemma memory_section_label (tok : str) :
  infix (py "Memory Limit") (Robust.memory_section tok).
Proof.
  exists (py "<tr><th>"), (py "</th><td>" ++ tok ++ py "</td></tr>").
  reflexivity.
Qed.

Lemma with_memory_section_label (html tok : str) :
  Robust.label_missing (Robust.with_memory_section html tok) = false.
Proof.
  assert (H : infix (py "Memory Limit") (Robust.with_memory_section html tok)).
  { unfold Robust.with_memory_section.
    destruct (contains (py "</table>") html) eqn:Hc.
    - destruct (replace_first_spec (py "</table>")
                  (Robust.memory_section tok ++ py "</table>") html Hc)
        as (pre & post & _ & _ & ->).
      apply (infix_trans _ _ _ (memory_section_label tok)).
      exists pre, (py "</table>" ++ post). now rewrite <- !app_assoc.
    - apply (infix_trans _ _ _ (memory_section_label tok)).
      exists (py "<table>"), (py "</table>" ++ html). reflexivity. }
  apply contains_infix in H. unfold Robust.label_missing. now rewrite H.
Qed.

(** C7. A page that holds one of the two labels is left as it is, so a
    second injection changes nothing; otherwise the row is put just before
    the first [</table>], or, without one, a table holding only the row is put
    in front of the page.  Both files have the same block. *)
Theorem injection_is_guarded (html tok : str) :
  (infix (py "Memory Limit") html \/ infix memory_limit_ja html ->
   Robust.injected html tok = html) /\
  (forall tok', Robust.injected (Robust.injected html tok) tok'
                = Robust.injected html tok) /\
  (~ infix (py "Memory Limit") html -> ~ infix memory_limit_ja html ->
   (infix (py "</table>") html ->
    exists pre post,
      html = pre ++ py "</table>" ++ post /\
      (forall pre' post', html = pre' ++ py "</table>" ++ post' ->
                          (length pre <= length pre')%nat) /\
      Robust.injected html tok
      = pre ++ py "<tr><th>Memory Limit</th><td>" ++ tok ++ py "</td></tr>"
            ++ py "</table>" ++ post) /\
   (~ infix (py "</table>") html ->
    Robust.injected html tok
    = py "<table>" ++ py "<tr><th>Memory Limit</th><td>" ++ tok
        ++ py "</td></tr>" ++ py "</table>" ++ html)) /\
  Patch.label_missing html = Robust.label_missing html /\
  Patch.with_memory_section html tok = Robust.with_memory_section html tok.
Proof.
  assert (Hguard : Robust.label_missing html = false <->
                   infix (py "Memory Limit") html \/ infix memory_limit_ja html).
  { unfold Robust.label_missing. rewrite <- !contains_infix.
    destruct (contains (py "Memory Limit") html),
      (contains memory_limit_ja html); simpl; intuition discriminate. }
  split; [|split; [|split; [|split; reflexivity]]].
  - intros H. apply Hguard in H. unfold Robust.injected. now rewrite H.
  - intros tok'. unfold Robust.injected at 2 3.
    destruct (Robust.label_missing html) eqn:Hm.
    + unfold Robust.injected. now rewrite with_memory_section_label.
    + unfold Robust.injected. now rewrite Hm.
  - intros Hen Hja.
    assert (Hm : Robust.label_missing html = true).
    { destruct (Robust.label_missing html); [reflexivity|].
      destruct (proj1 Hguard eq_refl); contradiction. }
    unfold Robust.injected, Robust.with_memory_section. rewrite Hm. split.
    + intros Ht. apply contains_infix in Ht. rewrite Ht.
      destruct (replace_first_spec (py "</table>")
                  (Robust.memory_section tok ++ py "</table>") html Ht)
        as (pre & post & Hh & Hmin & ->).
      exists pre, post. split; [exact Hh|]. split; [exact Hmin|].
      unfold Robust.memory_section. now rewrite <- !app_assoc.
    + intros Ht. rewrite <- contains_infix in Ht.
      destruct (contains (py "</table>") html); [contradiction Ht; reflexivity|].
      unfold Robust.memory_section. now rewrite <- !app_assoc.
Qed.

(** ** The coordinators *)

Section CoordinatorFacts.
Variable U : ucd.
Variables World Url Resp Getter TestCase Args Data E : Type.
Variable url_eqb : Url -> Url -> bool.
Variable get_url : Url.
Variable bound_get : Getter -> Url -> World -> outcome E Resp * World.
Variable resp_text : Resp -> str.
Variable status_error : Resp -> option (exn E).
Variable original_download :
  Robust.case_type -> Robust.session_arg -> World -> Robust.getter Resp Getter ->
  outcome E (list TestCase) * (World * Robust.getter Resp Getter).
Variable importable : bool.
Variable original_from_html :
  str -> Args -> World -> outcome E Data * World.

Local Abbreviation wstate := (Robust.wstate World Url Resp Getter).
Local Abbreviation call_get :=
  (Robust.call_get World Url Resp Getter E url_eqb get_url bound_get).
Local Abbreviation retry_with_mock :=
  (Robust.retry_with_mock World Url Resp Getter TestCase E original_download).
Local Abbreviation robust_download :=
  (Robust._download_with_robust_parsing U World Url Resp Getter TestCase E
     url_eqb get_url bound_get resp_text status_error original_download
     importable).
Local Abbreviation download_sample_cases :=
  (Robust.download_sample_cases U World Url Resp Getter TestCase E
     url_eqb get_url bound_get resp_text status_error original_download
     importable).
Local Abbreviation download_system_cases :=
  (Robust.download_system_cases U World Url Resp Getter TestCase E
     url_eqb get_url bound_get resp_text status_error original_download
     importable).
Local Abbreviation patched_from_html :=
  (Patch.patched_from_html U World Args Data E original_from_html).
Local Abbreviation TheSession := Robust.TheSession.
Local Abbreviation Download := Robust.Download.
Local Abbreviation Get := Robust.Get.
Local Abbreviation mock_get := Robust.mock_get.

Lemma downloads_app (tr tr' : list (Robust.event Url Resp Getter)) :
  downloads (tr ++ tr') = (downloads tr + downloads tr')%nat.
Proof. induction tr as [|[c g|u] tr IH]; simpl; auto. Qed.

(** The retry: the original operation runs once, with [mock_get] in
    [session.get], and [session.get] is put back whatever it did. *)
Lemma retry_with_mock_runs (c : Robust.case_type) (html : str)
    (resp : Robust.response Resp) (st : wstate) :
  retry_with_mock c TheSession html resp st =
  let hook := mock_get html resp (Robust.session_get st) in
  let '(r, (w', _)) := original_download c TheSession (Robust.world st) hook in
  (r, then_ st w' [Download c hook]).
Proof.
  unfold Robust.retry_with_mock, bind, try_finally,
    Robust.original_download_cases, Robust.read_get, Robust.write_get.
  simpl.
  destruct (original_download c TheSession (Robust.world st)
              (mock_get html resp (Robust.session_get st)))
    as [r [w' g']].
  reflexivity.
Qed.

Ltac unfold_wrapper :=
  unfold Robust._download_with_robust_parsing, Robust.import_libraries,
    Robust.session_get_call,
    Robust.raise_for_status, Robust.read_get, Robust.write_get,
    try_except, bind, ret, throw, lift_result.

Lemma robust_download_ends (c : Robust.case_type)
    (session : Robust.session_arg) (st : wstate) :
  robust_end get_url original_download importable c st
    (robust_download c session st).
Proof.
  unfold_wrapper. destruct importable eqn:Himp; simpl;
    [|now apply end_not_importable].
  destruct session; simpl; [apply end_no_session|].
  destruct (call_get (Robust.session_get st) get_url (Robust.world st))
    as [[resp|e] w1]; simpl; fold (then_ st w1 [Get get_url]).
  - assert (Hfall : forall e' : exn E,
               robust_end get_url original_download true c st
                 (if is_Exception e'
                  then (Return [], then_ st w1 [Get get_url])
                  else (Throw e', then_ st w1 [Get get_url]))).
    { intros e'. destruct (is_Exception e') eqn:He;
        [apply end_fallback|now apply end_interrupted]. }
    destruct resp as [x|content code inner]; simpl;
      [|apply (Hfall (Builtin AttributeError))].
    destruct (status_error x) as [e|]; simpl; [apply Hfall|].
    destruct (Robust.parse_memory_limit_from_html U (resp_text x))
      as [[[|c0 tok]|]|err]; simpl; try apply end_fallback.
    rewrite retry_with_mock_runs. simpl.
    destruct (original_download c TheSession w1 _) as [r [w2 g2]] eqn:Ho.
    pose proof (end_retried get_url original_download true c st _ _ _ _ _ Ho)
      as Hend.
    unfold then_ in *. simpl. rewrite <- app_assoc. simpl.
    destruct r as [cases|e]; simpl; [exact Hend|].
    destruct (is_Exception e); exact Hend.
  - destruct (is_Exception e) eqn:He;
      [apply end_fallback|now apply end_interrupted].
Qed.

Lemma patched_from_html_ends (html : str) (args : Args) (st : Patch.pstate World) :
  patched_end original_from_html html args st (patched_from_html html args st).
Proof.
  unfold Patch.patched_from_html, Patch.original_from_html_call,
    try_except, bind, lift_result, ret, throw.
  destruct (original_from_html html args (Patch.world st)) as [[data|e] w1] eqn:H1.
  - fold (seen st w1 [html]). now apply (end_passed original_from_html html args st _ _ H1).
  - fold (seen st w1 [html]).
    destruct (is_AssertionError e) eqn:He;
      [|now apply (end_passed original_from_html html args st _ _ H1)].
    assert (Hx : is_Exception e = true) by (destruct e; auto; discriminate).
    pose proof (end_reraised original_from_html html args st _ _ H1 He) as Hre.
    destruct (Patch._patched_parse_memory_limit_from_html U html)
      as [[[|c0 tok]|]|err]; simpl; rewrite ?Hx; try exact Hre.
    destruct (Patch.label_missing html); simpl; rewrite ?Hx; try exact Hre.
    destruct (original_from_html (Patch.with_memory_section html (c0 :: tok))
                args w1) as [r w2] eqn:H2.
    pose proof (end_reparsed original_from_html html args st _ _ _ _ _ H1 He H2) as Hend.
    unfold seen in *. simpl. rewrite <- app_assoc. simpl.
    destruct r as [data|e2]; simpl; [exact Hend|].
    destruct (is_Exception e2); exact Hend.
Qed.

(** C5. Only [AssertionError] starts a recovery: another exception of the
    first call goes to the caller as it is, after that one call; and with a
    recovery the original operation is called at most twice in all. *)
Theorem recovery_only_on_assertion :
  (forall session st e w' g',
      original_download Robust.sample session (Robust.world st)
        (Robust.session_get st) = (Throw e, (w', g')) ->
      is_AssertionError e = false ->
      download_sample_cases session st =
      (Throw e,
       {| Robust.world := w'; Robust.session_get := g';
          Robust.trace := Robust.trace st
                            ++ [Download Robust.sample (Robust.session_get st)] |})) /\
  (forall session st e w' g',
      original_download Robust.system session (Robust.world st)
        (Robust.session_get st) = (Throw e, (w', g')) ->
      is_AssertionError e = false ->
      download_system_cases session st =
      (Throw e,
       {| Robust.world := w'; Robust.session_get := g';
          Robust.trace := Robust.trace st
                            ++ [Download Robust.system (Robust.session_get st)] |})) /\
  (forall session st,
      (downloads (Robust.trace (snd (download_sample_cases session st)))
       <= downloads (Robust.trace st) + 2)%nat /\
      (downloads (Robust.trace (snd (download_system_cases session st)))
       <= downloads (Robust.trace st) + 2)%nat) /\
  (forall html args st e w',
      original_from_html html args (Patch.world st) = (Throw e, w') ->
      is_AssertionError e = false ->
      patched_from_html html args st = (Throw e, seen st w' [html])) /\
  (forall html args st,
      (length (Patch.trace (snd (patched_from_html html args st)))
       <= length (Patch.trace st) + 2)%nat).
Proof.
  assert (Hrobust : forall c session st,
             (downloads (Robust.trace (snd (robust_download c session st)))
              <= downloads (Robust.trace st) + 1)%nat).
  { intros c session st.
    destruct (robust_download_ends c session st); unfold then_; simpl;
      rewrite ?downloads_app; simpl; lia. }
  assert (Hfirst : forall c session st,
             (downloads (Robust.trace
                (snd (try_except
                        (Robust.original_download_cases World Url Resp Getter
                           TestCase E original_download c session)
                        is_AssertionError
                        (fun _ => robust_download c session) st)))
              <= downloads (Robust.trace st) + 2)%nat).
  { intros c session st. unfold try_except, Robust.original_download_cases.
    destruct (original_download c session (Robust.world st)
                (Robust.session_get st)) as [[cases|e] [w' g']].
    - simpl. rewrite downloads_app. simpl. lia.
    - destruct (is_AssertionError e).
      + etransitivity; [apply Hrobust|]. simpl. rewrite downloads_app. simpl. lia.
      + simpl. rewrite downloads_app. simpl. lia. }
  split; [|split; [|split; [|split]]].
  - intros session st e w' g' H He.
    unfold Robust.download_sample_cases, try_except,
      Robust.original_download_cases. now rewrite H, He.
  - intros session st e w' g' H He.
    unfold Robust.download_system_cases, try_except,
      Robust.original_download_cases. now rewrite H, He.
  - intros session st. split; apply Hfirst.
  - intros html args st e w' H He.
    unfold Patch.patched_from_html, try_except, Patch.original_from_html_call.
    now rewrite H, He.
  - intros html args st.
    destruct (patched_from_html_ends html args st); unfold seen; simpl;
      rewrite length_app; simpl; lia.
Qed.

(** C8. After [_download_with_robust_parsing], and after its retry alone,
    [session.get] is what it was before, whether the retried operation
    returned or raised, and whatever it did to [session.get]. *)
Theorem session_get_is_restored (c : Robust.case_type)
    (session : Robust.session_arg) (st : wstate) :
  Robust.session_get (snd (robust_download c session st))
  = Robust.session_get st /\
  (forall html resp,
      Robust.session_get (snd (retry_with_mock c session html resp st))
      = Robust.session_get st) /\
  (forall html resp r w' g',
      original_download c TheSession (Robust.world st)
        (mock_get html resp (Robust.session_get st)) = (r, (w', g')) ->
      retry_with_mock c TheSession html resp st
      = (r, then_ st w' [Download c (mock_get html resp (Robust.session_get st))])).
Proof.
  split; [|split].
  - destruct (robust_download_ends c session st); reflexivity.
  - intros html resp. destruct session; [reflexivity|].
    rewrite retry_with_mock_runs. simpl.
    now destruct (original_download c TheSession _ _) as [r [w' g']].
  - intros html resp r w' g' H. rewrite retry_with_mock_runs. simpl.
    now rewrite H.
Qed.

End CoordinatorFacts.

(** ** The recovery, where [requests] and [onlinejudge.type] import *)

Section RecoveryFacts.
Variable U : ucd.
Variables World Url Resp Getter TestCase Args Data E : Type.
Variable url_eqb : Url -> Url -> bool.
Variable get_url : Url.
Variable bound_get : Getter -> Url -> World -> outcome E Resp * World.
Variable resp_text : Resp -> str.
Variable status_error : Resp -> option (exn E).
Variable original_download :
  Robust.case_type -> Robust.session_arg -> World -> Robust.getter Resp Getter ->
  outcome E (list TestCase) * (World * Robust.getter Resp Getter).
Variable original_from_html :
  str -> Args -> World -> outcome E Data * World.

Local Abbreviation wstate := (Robust.wstate World Url Resp Getter).
Local Abbreviation call_get :=
  (Robust.call_get World Url Resp Getter E url_eqb get_url bound_get).
Local Abbreviation robust_download :=
  (Robust._download_with_robust_parsing U World Url Resp Getter TestCase E
     url_eqb get_url bound_get resp_text status_error original_download true).
Local Abbreviation patched_from_html :=
  (Patch.patched_from_html U World Args Data E original_from_html).
Local Abbreviation TheSession := Robust.TheSession.
Local Abbreviation Download := Robust.Download.
Local Abbreviation Get := Robust.Get.
Local Abbreviation mock_get := Robust.mock_get.

Ltac unfold_wrapper :=
  unfold Robust._download_with_robust_parsing, Robust.import_libraries,
    Robust.session_get_call,
    Robust.raise_for_status, Robust.read_get, Robust.write_get,
    try_except, bind, ret, throw, lift_result.

(** C6. Without a token, or when the retry raises an exception again, no
    value is made up: the wrapper returns the empty list and the patch raises
    the first [AssertionError] again.  The page of the example holds no
    token.  Whatever the wrapper or the patch returns besides the empty list
    was returned by the original operation. *)
Theorem nothing_is_made_up :
  Robust.parse_memory_limit_from_html U
    (py "<table><tr><th>Time Limit</th><td>2 sec</td></tr></table>") = Ok None /\
  (forall c st x w1,
      call_get (Robust.session_get st) get_url (Robust.world st)
      = (Return (Robust.Fetched x), w1) ->
      status_error x = None ->
      Robust.parse_memory_limit_from_html U (resp_text x) = Ok None ->
      robust_download c TheSession st = (Return [], then_ st w1 [Get get_url])) /\
  (forall c st x w1 tok e2 w2 g2,
      call_get (Robust.session_get st) get_url (Robust.world st)
      = (Return (Robust.Fetched x), w1) ->
      status_error x = None ->
      Robust.parse_memory_limit_from_html U (resp_text x) = Ok (Some tok) ->
      tok <> [] ->
      let hook := mock_get (Robust.injected (resp_text x) tok)
                    (Robust.Fetched x) (Robust.session_get st) in
      original_download c TheSession w1 hook = (Throw e2, (w2, g2)) ->
      is_Exception e2 = true ->
      robust_download c TheSession st
      = (Return [], then_ st w2 [Get get_url; Download c hook])) /\
  (forall html args st e w1,
      original_from_html html args (Patch.world st) = (Throw e, w1) ->
      is_AssertionError e = true ->
      Patch._patched_parse_memory_limit_from_html U html = Ok None ->
      patched_from_html html args st = (Throw e, seen st w1 [html])) /\
  (forall html args st e w1 tok e2 w2,
      original_from_html html args (Patch.world st) = (Throw e, w1) ->
      is_AssertionError e = true ->
      Patch._patched_parse_memory_limit_from_html U html = Ok (Some tok) ->
      tok <> [] ->
      Patch.label_missing html = true ->
      let html' := Patch.with_memory_section html tok in
      original_from_html html' args w1 = (Throw e2, w2) ->
      is_Exception e2 = true ->
      patched_from_html html args st = (Throw e, seen st w2 [html; html'])) /\
  (forall c session st cases,
      fst (robust_download c session st) = Return cases ->
      cases = [] \/
      exists w1 hook w2 g2,
        original_download c TheSession w1 hook = (Return cases, (w2, g2))) /\
  (forall html args st data,
      fst (patched_from_html html args st) = Return data ->
      exists page w1 w2,
        original_from_html page args w1 = (Return data, w2)).
Proof.
  split; [vm_compute; reflexivity|]. split; [|split; [|split; [|split; [|split]]]].
  - intros c st x w1 Hget Hst Hp. unfold_wrapper. simpl.
    rewrite Hget. simpl. rewrite Hst. simpl. rewrite Hp. reflexivity.
  - intros c st x w1 tok e2 w2 g2 Hget Hst Hp Htok hook Ho He.
    unfold_wrapper. simpl. rewrite Hget. simpl. rewrite Hst. simpl.
    rewrite Hp. simpl. destruct tok as [|c0 tok]; [congruence|].
    rewrite (retry_with_mock_runs World Url Resp Getter TestCase E
               original_download).
    simpl. fold hook. rewrite Ho, He.
    unfold then_. simpl. now rewrite <- app_assoc.
  - intros html args st e w1 H1 He Hp.
    assert (Hx : is_Exception e = true) by (destruct e; auto; discriminate).
    unfold Patch.patched_from_html, try_except, Patch.original_from_html_call,
      bind, lift_result, ret, throw.
    rewrite H1, He, Hp. simpl. now rewrite Hx.
  - intros html args st e w1 tok e2 w2 H1 He Hp Htok Hm html' H2 He2.
    unfold Patch.patched_from_html, try_except, Patch.original_from_html_call,
      bind, lift_result, ret, throw.
    rewrite H1, He, Hp. simpl. destruct tok as [|c0 tok]; [congruence|].
    rewrite Hm. fold html'. simpl. rewrite H2, He2.
    unfold seen. simpl. now rewrite <- app_assoc.
  - intros c session st cases H.
    destruct (robust_download_ends U World Url Resp Getter TestCase E
                url_eqb get_url bound_get resp_text status_error
                original_download true c session st)
      as [ |w1|e w1 He|hook r w1 w2 g2 Ho| ];
      simpl in H; try (inversion H; now left); try discriminate H.
    destruct r as [cases'|e]; [|destruct (is_Exception e)];
      inversion H; subst; eauto 6.
  - intros html args st data H.
    destruct (patched_from_html_ends U World Args Data E original_from_html
                html args st)
      as [r w1 H1 Hr|e w1 H1 He|e w1 html' r w2 H1 He H2]; simpl in H.
    + subst r. eauto.
    + discriminate H.
    + destruct r as [data'|e2]; [|destruct (is_Exception e2)];
        inversion H; subst; eauto.
Qed.

End RecoveryFacts.

(** ** The claims at work on concrete pages *)

(** C1 on a row in mixed letter case whose cell holds " 1 tb ": the page
    states no inline limit, the row strategy is the first, and its cell
    comes back trimmed, far outside the window. *)
Lemma labeled_match_wins_on_row :
  (exists g tok,
      occurs ascii_rows row_en page_with_row g /\
      trimmed ascii_rows g tok /\
      Robust.parse_memory_limit_from_html ascii_rows page_with_row
      = Ok (Some tok)) /\
  Robust.parse_memory_limit_from_html ascii_rows page_with_row
  = Ok (Some (py "1 tb")).
Proof.
  split; [|vm_compute; reflexivity].
  destruct (re_search ascii_rows (pattern_of row_en) page_with_row)
    as [m|] eqn:Hm; [|vm_compute in Hm; discriminate Hm].
  destruct (search_occurs ascii_rows row_en _ m Hm) as (g0 & _ & Ho).
  apply (proj1 (proj2 (labeled_match_wins ascii_rows)) page_with_row row_en g0 Ho).
  intros s' g'.
  destruct s'; simpl; try lia; intros _; apply search_none_no_form;
    vm_compute; reflexivity.
Defined.

(** C3 as the specification has it fails on "Memory Limit: 256mb": the
    token comes back as it is in the page, without a space and in lower
    case. *)
Lemma token_is_not_normalized :
  Robust.parse_memory_limit_from_html ascii_rows (py "Memory Limit: 256mb")
  = Ok (Some (py "256mb")) /\
  ~ normalized_token ascii_rows (py "256mb").
Proof.
  split; [vm_compute; reflexivity|].
  intros (n & unit & _ & Hin & Heq).
  apply (f_equal (@rev Z)) in Heq. rewrite !rev_app_distr in Heq.
  simpl in Hin. destruct Hin as [<-|[<-|[<-|[<-|[]]]]]; discriminate Heq.
Qed.

(** C3, as amended, on a limit in a [span] after the word "limit": the
    token is the text of the span up to its last B. *)
Lemma token_is_page_text_on_limit_span :
  infix (py "up to 1024 MB") page_with_limit_span /\
  py "up to 1024 MB" <> [] /\
  head_kept ascii_rows (py "up to 1024 MB") /\
  head_kept ascii_rows (rev (py "up to 1024 MB")) /\
  ((exists s g,
       occurs ascii_rows s page_with_limit_span g /\
       (forall s' g', (rank s' < rank s)%nat ->
                      ~ occurs ascii_rows s' page_with_limit_span g') /\
       trimmed ascii_rows g (py "up to 1024 MB") /\
       match s with
       | inline_en | inline_ja | before_memory =>
           py "up to 1024 MB" = g /\ token_form ascii_rows (py "up to 1024 MB")
       | row_en | row_ja => cell_form ascii_rows (py "up to 1024 MB")
       | after_limit => numbered_form ascii_rows (py "up to 1024 MB")
       end) \/
   ((forall s g, ~ occurs ascii_rows s page_with_limit_span g) /\
    first_plausible ascii_rows
      (re_findall ascii_rows Robust.pat_scan page_with_limit_span)
      (py "up to 1024 MB") /\
    token_form ascii_rows (py "up to 1024 MB"))).
Proof.
  apply (token_is_page_text ascii_rows page_with_limit_span (py "up to 1024 MB")).
  - exact ascii_rows_ok.
  - vm_compute. reflexivity.
Defined.

(** C4 on the empty page. *)
Lemma extractor_total_on_empty :
  Robust.parse_memory_limit_from_html ascii_rows [] = Ok None.
Proof.
  apply (proj2 (proj2 (proj2 (extractor_total ascii_rows)))).
  - intros p Hp. simpl in Hp.
    destruct Hp as [<-|[<-|[<-|[<-|[<-|[<-|[]]]]]]]; vm_compute; reflexivity.
  - vm_compute. reflexivity.
Defined.

(** C7 on a page with a table and no label. *)
Lemma injection_is_guarded_on_table :
  exists pre post,
    py "<table><tr><td>x</td></tr></table>" = pre ++ py "</table>" ++ post /\
    (forall pre' post',
        py "<table><tr><td>x</td></tr></table>" = pre' ++ py "</table>" ++ post' ->
        (length pre <= length pre')%nat) /\
    Robust.injected (py "<table><tr><td>x</td></tr></table>") (py "256 MB")
    = pre ++ py "<tr><th>Memory Limit</th><td>" ++ py "256 MB" ++ py "</td></tr>"
          ++ py "</table>" ++ post.
Proof.
  assert (Hno : forall needle,
             contains needle (py "<table><tr><td>x</td></tr></table>") = false ->
             ~ infix needle (py "<table><tr><td>x</td></tr></table>")).
  { intros needle H Hin. apply contains_infix in Hin. congruence. }
  apply (proj1 (proj1 (proj2 (proj2 (injection_is_guarded
                  (py "<table><tr><td>x</td></tr></table>") (py "256 MB"))))
                  (Hno (py "Memory Limit") eq_refl)
                  (Hno memory_limit_ja eq_refl))).
  apply contains_infix. reflexivity.
Defined.

(** C10 on "100 B": the loop compares 100 with the window, as it does for
    "100 MB". *)
Lemma bare_b_is_a_token_on_100_B :
  exists x,
    py_float ascii_rows (py "100") = Ok x /\
    plausible ascii_rows (py "100" ++ py " " ++ [ch "B"]) = in_range 64 8192 x /\
    plausible ascii_rows (py "100" ++ py " " ++ [ch "M"; ch "B"])
    = in_range 64 8192 x.
Proof.
  destruct (py_float ascii_rows (py "100")) as [x|e] eqn:Hx;
    [|vm_compute in Hx; discriminate Hx].
  exists x. split; [reflexivity|].
  destruct (proj1 (proj2 (bare_b_is_a_token ascii_rows))
              ascii_rows_ok ascii_rows_apart (py "100") (py " ") (ch "B") x)
    as (_ & _ & H1 & H2 & _).
  - exists (py "100"). split; [discriminate|].
    split; [repeat constructor|left; reflexivity].
  - repeat constructor.
  - reflexivity.
  - exact Hx.
  - split; [exact H1|exact H2].
Defined.

(** C5 where the original operation fails with another exception: it comes
    out as it is, after one call. *)
Lemma recovery_only_on_assertion_other_error :
  Robust.download_sample_cases ascii_rows unit unit str unit unit unit
    (fun _ _ => true) tt one_page_get (fun x => x) (fun _ => None)
    broken_download true Robust.TheSession fresh
  = (Throw (OtherException tt),
     {| Robust.world := tt;
        Robust.session_get := Robust.BoundGet tt;
        Robust.trace := [Robust.Download Robust.sample (Robust.BoundGet tt)] |}).
Proof.
  apply (proj1 (recovery_only_on_assertion ascii_rows
                  unit unit str unit unit unit unit unit
                  (fun _ _ => true) tt one_page_get (fun x => x) (fun _ => None)
                  broken_download true asserting_from_html)
           Robust.TheSession fresh (OtherException tt) tt (Robust.BoundGet tt));
    reflexivity.
Defined.

(** C6 on the page without a limit: the wrapper gives the empty list, the
    patch raises the first error again. *)
Lemma nothing_is_made_up_on_page_without_limit :
  Robust._download_with_robust_parsing ascii_rows unit unit str unit unit unit
    (fun _ _ => true) tt one_page_get (fun x => x) (fun _ => None)
    asserting_download true Robust.sample Robust.TheSession fresh
  = (Return [], then_ fresh tt [Robust.Get tt]) /\
  Patch.patched_from_html ascii_rows unit unit unit unit asserting_from_html
    page_without_limit tt fresh_patch
  = (Throw (AssertionError tt), seen fresh_patch tt [page_without_limit]).
Proof.
  pose proof (nothing_is_made_up ascii_rows
                unit unit str unit unit unit unit unit
                (fun _ _ => true) tt one_page_get (fun x => x) (fun _ => None)
                asserting_download asserting_from_html)
    as (Hpage & Hg & _ & Hs & _).
  split.
  - apply (Hg Robust.sample fresh page_without_limit tt);
      [reflexivity|reflexivity|exact Hpage].
  - apply (Hs page_without_limit tt fresh_patch (AssertionError tt) tt);
      [reflexivity|reflexivity|exact Hpage].
Defined.

(** C8 where the retried operation raises. *)
Lemma session_get_is_restored_after_failure :
  Robust.retry_with_mock unit unit str unit unit unit asserting_download
    Robust.sample Robust.TheSession (py "page")
    (Robust.Fetched page_without_limit) fresh
  = (Throw (AssertionError tt),
     {| Robust.world := tt;
        Robust.session_get := Robust.BoundGet tt;
        Robust.trace :=
          [Robust.Download Robust.sample
             (Robust.mock_get (py "page") (Robust.Fetched page_without_limit)
                (Robust.BoundGet tt))] |}).
Proof.
  apply (proj2 (proj2 (session_get_is_restored ascii_rows
                         unit unit str unit unit unit
                         (fun _ _ => true) tt one_page_get (fun x => x)
                         (fun _ => None) asserting_download true
                         Robust.sample Robust.TheSession fresh))
           (py "page") (Robust.Fetched page_without_limit)
           (Throw (AssertionError tt)) tt
           (Robust.mock_get (py "page") (Robust.Fetched page_without_limit)
              (Robust.BoundGet tt))).
  reflexivity.
Defined.

(** * Further properties of the code *)

(** ** The extractor *)

Section ExtractorProperties.
Variable U : ucd.

Lemma parse_total (html : str) :
  exists r, Robust.parse_memory_limit_from_html U html = Ok r.
Proof.
  unfold Robust.parse_memory_limit_from_html.
  destruct (labeled_total U Robust.patterns html) as ([t|] & ->).
  { intros p Hp. destruct (patterns_spine p Hp) as (G & Hs & HG & _). eauto. }
  - cbn [rbind]. eauto.
  - cbn [rbind].
    destruct (candidates_total U (re_findall U Robust.pat_scan html))
      as ([|c kept] & ->); cbn [rbind]; eauto.
Qed.

(** Where a returned token comes from: a piece [g] of the page that holds a
    letter B; the token is [g], or [g] without the white space around it. *)
Lemma returned_token_source (html tok : str) :
  Robust.parse_memory_limit_from_html U html = Ok (Some tok) ->
  exists g z,
    infix g html /\ In z g /\ ieq U z (ch "b") = true /\
    (tok = strip U g \/ tok = g).
Proof.
  unfold Robust.parse_memory_limit_from_html.
  destruct (Robust.labeled U Robust.patterns html) as [[t|]|e] eqn:Hl;
    cbn [rbind]; [| |discriminate].
  - intros H. inversion H; subst t; clear H.
    destruct (labeled_found U _ _ _ Hl) as (p & m & g & Hp & Hm & Hg & ->).
    destruct (patterns_spine p Hp) as (G & Hs & HG & HGs).
    destruct (search_group U _ _ _ _ Hs HG Hm) as (g' & b & l & Hg' & Hin & Ha).
    rewrite Hg in Hg'. inversion Hg'; subst g'; clear Hg'.
    assert (Hz : exists z, In z g /\ ieq U z (ch "b") = true).
    { destruct HGs as [->|[->| ->]].
      - apply accepts_token_re in Ha. now apply token_form_letter_b.
      - apply accepts_cell_re in Ha. exact (proj2 Ha).
      - apply accepts_numbered_cell_re in Ha. exact (proj2 Ha). }
    destruct Hz as (z & Hz & Hb). exists g, z. auto.
  - destruct (Robust.candidates U (re_findall U Robust.pat_scan html))
      as [[|c kept]|e] eqn:Hc; cbn [rbind]; try discriminate.
    intros H. inversion H; subst c; clear H.
    apply candidates_subset in Hc.
    destruct (scan_values U html tok (Hc tok (or_introl eq_refl))) as (Ht & Hin).
    destruct (token_form_letter_b U _ Ht) as (z & Hz & Hb).
    exists tok, z. auto.
Qed.

(** On a database that is [table_ok], a returned token is not empty: the
    test [if parsed_memory_limit:] of the coordinators fails for [None]
    only. *)
Lemma returned_token_not_empty (html tok : str) :
  table_ok U ->
  Robust.parse_memory_limit_from_html U html = Ok (Some tok) ->
  tok <> [].
Proof.
  intros HU H.
  destruct (returned_token_source _ _ H) as (g & z & _ & Hz & Hb & [->| ->]).
  - intros He.
    pose proof (strip_keeps U g z Hz (letter_b_not_space U z HU Hb)) as Hin.
    rewrite He in Hin. exact Hin.
  - intros ->. exact Hz.
Qed.

(** X1. The loop over the values of the scan is a filter: each value is
    judged by itself, in one round, and the values kept come in the order
    and number in which the scan found them.  The scan finds its values in
    the order of the page: reading from the left, where no value starts it
    moves one character on, where one starts it takes it and goes on behind
    it; on a character database that is [table_ok] and [letters_apart] this
    reading gives one list only.  So, when the page states no labeled limit,
    the result is the first value of the page, from the left, that is
    plausible, and [None] exactly when no value is. *)
Theorem scan_takes_first_plausible :
  (forall values,
      Robust.candidates U values = Ok (filter (plausible U) values)) /\
  (forall html, scanned U [] html (re_findall U Robust.pat_scan html)) /\
  (table_ok U -> letters_apart U ->
   forall html values,
     scanned U [] html values -> values = re_findall U Robust.pat_scan html) /\
  (forall html,
      (forall s g, ~ occurs U s html g) ->
      (forall tok,
          Robust.parse_memory_limit_from_html U html = Ok (Some tok) <->
          first_plausible U (re_findall U Robust.pat_scan html) tok) /\
      (Robust.parse_memory_limit_from_html U html = Ok None <->
       Forall (fun v => plausible U v = false)
         (re_findall U Robust.pat_scan html))).
Proof.
  split; [exact (candidates_filter U)|].
  split; [exact (re_findall_scanned U)|]. split.
  { intros HU HA html values H.
    exact (scanned_unique U HU HA _ _ _ _ H (re_findall_scanned U html)). }
  intros html Hnone. unfold Robust.parse_memory_limit_from_html.
  rewrite (labeled_no_form U _ Hnone). cbn [rbind].
  rewrite candidates_filter. cbn [rbind].
  pose proof (filter_first _ (plausible U) (re_findall U Robust.pat_scan html))
    as Hf.
  destruct (filter (plausible U) (re_findall U Robust.pat_scan html))
    as [|x rest] eqn:Hx.
  - split.
    + intros tok. split; [discriminate|].
      intros (earlier & later & Heq & Htok & _).
      rewrite Heq in Hf. apply Forall_app in Hf. destruct Hf as (_ & Hf).
      inversion Hf; congruence.
    + split; auto.
  - destruct Hf as (earlier & later & Heq & Hpx & Hall). split.
    + intros tok. split.
      * intros H. inversion H; subst tok. exists earlier, later. auto.
      * intros (earlier' & later' & Heq' & Htok & Hall').
        assert (Hsame : filter (plausible U) (earlier' ++ tok :: later')
                        = tok :: filter (plausible U) later').
        { rewrite filter_app. simpl. rewrite Htok.
          replace (filter (plausible U) earlier') with (@nil str); [reflexivity|].
          symmetry. clear -Hall'.
          induction Hall' as [|v l Hv _ IH]; simpl; [reflexivity|].
          now rewrite Hv. }
        rewrite <- Heq', Hx in Hsame. now inversion Hsame.
    + split; [discriminate|].
      intros Hall'. rewrite Heq in Hall'. apply Forall_app in Hall'.
      destruct Hall' as (_ & Hall'). inversion Hall'; congruence.
Qed.

(** X2. Every pattern asks for the letter B: a page without a character
    that matches B under IGNORECASE gives [None], whatever else it holds. *)
Theorem page_without_letter_b_gives_none (html : str) :
  (forall c, In c html -> ieq U c (ch "b") = false) ->
  Robust.parse_memory_limit_from_html U html = Ok None.
Proof.
  intros Hno. destruct (parse_total html) as ([tok|] & H); [|exact H].
  destruct (returned_token_source _ _ H) as (g & z & (x & y & Hin) & Hz & Hb & _).
  rewrite (Hno z) in Hb; [discriminate|].
  rewrite Hin, !in_app_iff. auto.
Qed.

End ExtractorProperties.

(** ** A limit that the page states is found *)

Section StatedLimit.
Variable U : ucd.

Lemma labeled_finds (todo : list regex) (html : str) :
  (forall p, In p todo -> exists G, on_spine 1 G p /\ no_group G = true) ->
  (exists p pre w post cps,
      In p todo /\ html = pre ++ w ++ post /\
      accepts U p (rev pre) w post [] cps) ->
  exists tok, Robust.labeled U todo html = Ok (Some tok).
Proof.
  induction todo as [|q todo IH]; intros Hall (p & pre & w & post & cps & Hp & Hh & Ha).
  - destruct Hp.
  - simpl. destruct (re_search U q html) as [m|] eqn:Hm.
    + destruct (Hall q (or_introl eq_refl)) as (G & Hs & HG).
      destruct (search_group U _ _ _ _ Hs HG Hm) as (g & _ & _ & -> & _).
      simpl. eauto.
    + apply IH; [intros r Hr; apply Hall; now right|].
      exists p, pre, w, post, cps. split; [|auto].
      destruct Hp as [->|Hp]; [|exact Hp].
      exfalso. subst html. now apply (re_search_complete U p pre w post cps Ha).
Qed.

Lemma accepted_pattern_found (p : regex) (pre w post : str) cps :
  In p Robust.patterns ->
  accepts U p (rev pre) w post [] cps ->
  exists tok,
    Robust.parse_memory_limit_from_html U (pre ++ w ++ post) = Ok (Some tok).
Proof.
  intros Hp Ha. unfold Robust.parse_memory_limit_from_html.
  destruct (labeled_finds Robust.patterns (pre ++ w ++ post)) as (tok & ->).
  - intros q Hq. destruct (patterns_spine q Hq) as (G & Hs & HG & _). eauto.
  - exists p, pre, w, post, cps. auto.
  - simpl. eauto.
Qed.

(** X16. A limit that the page states is found.  When one of the six
    labeled patterns is accepted somewhere in the page, the extractor returns
    a token.  In particular it returns one for every page that holds the
    English or the Japanese label, then colons or white space (or nothing),
    then a token; and for every page that holds a header cell with one of the
    labels followed by a data cell without [<] that holds a letter B. *)
Theorem stated_limit_is_found :
  (forall p pre w post cps,
      In p Robust.patterns ->
      accepts U p (rev pre) w post [] cps ->
      exists found,
        Robust.parse_memory_limit_from_html U (pre ++ w ++ post)
        = Ok (Some found)) /\
  (forall pre sep tok post,
      Forall (fun c => in_class U colon_sp c = true) sep ->
      token_form U tok ->
      (exists found,
          Robust.parse_memory_limit_from_html U
            (pre ++ (py "Memory Limit" ++ sep ++ tok) ++ post)
          = Ok (Some found)) /\
      (exists found,
          Robust.parse_memory_limit_from_html U
            (pre ++ (memory_limit_ja ++ sep ++ tok) ++ post)
          = Ok (Some found))) /\
  (forall pre cell post,
      cell_form U cell ->
      (exists found,
          Robust.parse_memory_limit_from_html U
            (pre ++ (py "<th>Memory Limit</th><td>" ++ cell ++ py "</td>") ++ post)
          = Ok (Some found)) /\
      (exists found,
          Robust.parse_memory_limit_from_html U
            (pre ++ (py "<th>" ++ memory_limit_ja ++ py "</th><td>" ++ cell
                       ++ py "</td>") ++ post)
          = Ok (Some found))).
Proof.
  split; [|split].
  - intros p pre w post cps. apply accepted_pattern_found.
  - intros pre sep tok post Hsep Htok.
    assert (Htail : forall b,
               accepts U (Many colon_sp +> Group 1 token_re) b (sep ++ tok) post
                 [] [(1%nat, tok)]).
    { intros b. apply (seq_accepts U _ _ b sep tok post [] [] _).
      - split; auto.
      - apply group_accepts. now apply token_form_accepts. }
    split.
    + apply (accepted_pattern_found Robust.pat_inline_en pre _ post [(1%nat, tok)]).
      * simpl. auto.
      * unfold Robust.pat_inline_en.
        apply (seq_accepts U _ _ _ (py "Memory Limit") (sep ++ tok) post [] [] _).
        -- apply label_en_accepts.
        -- apply Htail.
    + apply (accepted_pattern_found Robust.pat_inline_ja pre _ post [(1%nat, tok)]).
      * simpl. auto.
      * unfold Robust.pat_inline_ja.
        apply (seq_accepts U _ _ _ memory_limit_ja (sep ++ tok) post [] [] _).
        -- apply text_exact_accepts.
        -- apply Htail.
  - intros pre cell post Hcell.
    assert (Hempty : forall k b l, accepts U (Many k) b [] l [] []).
    { intros k b l. split; [constructor|reflexivity]. }
    assert (Htail : forall b,
               accepts U
                 (text_i (py "</th>") +> Many sp +> text_i (py "<td") +>
                  Many not_gt +> text_i (py ">") +> Group 1 cell_re +>
                  text_i (py "</td>"))
                 b (py "</th><td>" ++ cell ++ py "</td>") post
                 [] [(1%nat, cell)]).
    { intros b.
      apply (seq_accepts U _ _ b (py "</th>") (py "<td>" ++ cell ++ py "</td>")
               post [] [] _); [apply text_i_accepts; reflexivity|].
      apply (seq_accepts U _ _ _ [] (py "<td>" ++ cell ++ py "</td>")
               post [] [] _); [apply Hempty|].
      apply (seq_accepts U _ _ _ (py "<td") (py ">" ++ cell ++ py "</td>")
               post [] [] _); [apply text_i_accepts; reflexivity|].
      apply (seq_accepts U _ _ _ [] (py ">" ++ cell ++ py "</td>")
               post [] [] _); [apply Hempty|].
      apply (seq_accepts U _ _ _ (py ">") (cell ++ py "</td>")
               post [] [] _); [apply text_i_accepts; reflexivity|].
      apply (seq_accepts U _ _ _ cell (py "</td>") post []
               [(1%nat, cell)] [(1%nat, cell)]).
      - apply group_accepts. now apply cell_accepts.
      - apply text_i_accepts. reflexivity. }
    assert (Hhead : forall (label : regex) (text : str) b,
               (forall b l, accepts U label b text l [] []) ->
               accepts U
                 (text_i (py "<th") +> Many not_gt +> text_i (py ">") +> label +>
                  text_i (py "</th>") +> Many sp +> text_i (py "<td") +>
                  Many not_gt +> text_i (py ">") +> Group 1 cell_re +>
                  text_i (py "</td>"))
                 b (py "<th>" ++ text ++ py "</th><td>" ++ cell ++ py "</td>")
                 post [] [(1%nat, cell)]).
    { intros label text b Hlabel.
      apply (seq_accepts U _ _ b (py "<th")
               (py ">" ++ text ++ py "</th><td>" ++ cell ++ py "</td>")
               post [] [] _); [apply text_i_accepts; reflexivity|].
      apply (seq_accepts U _ _ _ []
               (py ">" ++ text ++ py "</th><td>" ++ cell ++ py "</td>")
               post [] [] _); [apply Hempty|].
      apply (seq_accepts U _ _ _ (py ">")
               (text ++ py "</th><td>" ++ cell ++ py "</td>")
               post [] [] _); [apply text_i_accepts; reflexivity|].
      apply (seq_accepts U _ _ _ text (py "</th><td>" ++ cell ++ py "</td>")
               post [] [] _); [apply Hlabel|].
      apply Htail. }
    split.
    + apply (accepted_pattern_found Robust.pat_row_en pre _ post [(1%nat, cell)]).
      * simpl. auto.
      * apply (Hhead label_en (py "Memory Limit")).
        intros b l. apply label_en_accepts.
    + apply (accepted_pattern_found Robust.pat_row_ja pre _ post [(1%nat, cell)]).
      * simpl. auto.
      * apply (Hhead (text_exact memory_limit_ja) memory_limit_ja).
        intros b l. apply text_exact_accepts.
Qed.

End StatedLimit.

(** ** The second look at the values of the scan *)

Section ScanValues.
Variable U : ucd.

(** X17. Every value that the scan collects passes the second regular
    expression of the loop, with a number in group 1 that [float] takes: the
    test [if match:] never fails, and the loop raises no [ValueError]. *)
Theorem scan_values_always_split (html value : str) :
  In value (re_findall U Robust.pat_scan html) ->
  exists m number unit x,
    re_match U Robust.pat_split value = Some m /\
    group 1 (caps m) = Some number /\
    group 2 (caps m) = Some unit /\
    number_form U number /\
    py_float U number = Ok x.
Proof.
  intros Hin. destruct (scan_values U html value Hin) as (Ht & _).
  destruct (token_form_splits U value Ht) as (cps & Ha).
  pose proof (match_at_complete U _ _ _ _ _ Ha) as Hm.
  rewrite app_nil_r in Hm. fold (re_match U Robust.pat_split value) in Hm.
  destruct (re_match U Robust.pat_split value) as [m|] eqn:Hre; [|congruence].
  destruct (split_groups U _ _ Hre) as (n & u & Hg1 & Hg2 & Hn & _).
  destruct (py_float_number U _ Hn) as (x & Hx).
  exists m, n, u, x. auto.
Qed.

End ScanValues.

(** ** The token and the row it is put into *)

Section TokenCharacters.
Variable U : ucd.

(** X18. A token that the extractor returns holds no [<].  In the row
    that the coordinators build from it, the text between [<td>] and the
    first [<] after it is the token: the token cannot close the cell or open
    a tag of its own. *)
Theorem token_opens_no_tag (html tok : str) :
  Robust.parse_memory_limit_from_html U html = Ok (Some tok) ->
  ~ In (ch "<") tok /\
  exists tail,
    Robust.memory_section tok
    = py "<tr><th>Memory Limit</th><td>" ++ tok ++ ch "<" :: tail /\
    Patch.memory_section tok = Robust.memory_section tok.
Proof.
  intros H. split; [|exists (py "/td></tr>"); split; reflexivity].
  revert H. unfold Robust.parse_memory_limit_from_html.
  destruct (Robust.labeled U Robust.patterns html) as [[t|]|e] eqn:Hl;
    cbn [rbind]; [| |discriminate].
  - intros H. inversion H; subst t; clear H.
    destruct (labeled_found U _ _ _ Hl) as (p & m & g & Hp & Hm & Hg & ->).
    destruct (patterns_spine p Hp) as (G & Hs & HG & HGs).
    destruct (search_group U _ _ _ _ Hs HG Hm) as (g' & b & l & Hg' & _ & Ha).
    rewrite Hg in Hg'. inversion Hg'; subst g'; clear Hg'.
    assert (Hno : ~ In (ch "<") g).
    { destruct HGs as [->|[->| ->]].
      - apply accepts_token_re in Ha. now apply (token_form_no_lt U).
      - apply accepts_cell_re in Ha. exact (proj1 Ha).
      - apply accepts_numbered_cell_re in Ha. exact (proj1 Ha). }
    intros Hin. apply Hno. destruct (strip_infix U g) as (x & y & Heq).
    rewrite Heq, !in_app_iff. auto.
  - destruct (Robust.candidates U (re_findall U Robust.pat_scan html))
      as [[|c kept]|e] eqn:Hc; cbn [rbind]; try discriminate.
    intros H. inversion H; subst c; clear H.
    apply candidates_subset in Hc.
    destruct (scan_values U html tok (Hc tok (or_introl eq_refl))) as (Ht & _).
    now apply (token_form_no_lt U).
Qed.

End TokenCharacters.

(** ** The coordinators *)

Lemma assertion_is_exception (E : Type) (e : exn E) :
  is_AssertionError e = true -> is_Exception e = true.
Proof. destruct e; auto; discriminate. Qed.

(** ** The wrapper, whether or not its libraries import *)

Section WrapperProperties.
Variable U : ucd.
Variables World Url Resp Getter TestCase E : Type.
Variable url_eqb : Url -> Url -> bool.
Variable get_url : Url.
Variable bound_get : Getter -> Url -> World -> outcome E Resp * World.
Variable resp_text : Resp -> str.
Variable status_error : Resp -> option (exn E).
Variable original_download :
  Robust.case_type -> Robust.session_arg -> World -> Robust.getter Resp Getter ->
  outcome E (list TestCase) * (World * Robust.getter Resp Getter).
Variable importable : bool.

Local Abbreviation wstate := (Robust.wstate World Url Resp Getter).
Local Abbreviation call_get :=
  (Robust.call_get World Url Resp Getter E url_eqb get_url bound_get).
Local Abbreviation robust_download :=
  (Robust._download_with_robust_parsing U World Url Resp Getter TestCase E
     url_eqb get_url bound_get resp_text status_error original_download
     importable).
Local Abbreviation download_sample_cases :=
  (Robust.download_sample_cases U World Url Resp Getter TestCase E
     url_eqb get_url bound_get resp_text status_error original_download
     importable).
Local Abbreviation download_system_cases :=
  (Robust.download_system_cases U World Url Resp Getter TestCase E
     url_eqb get_url bound_get resp_text status_error original_download
     importable).
Local Abbreviation NoSession := Robust.NoSession.
Local Abbreviation TheSession := Robust.TheSession.
Local Abbreviation Download := Robust.Download.
Local Abbreviation Get := Robust.Get.
Local Abbreviation mock_get := Robust.mock_get.
Local Abbreviation MockResponse := Robust.MockResponse.

Ltac unfold_robust :=
  unfold Robust._download_with_robust_parsing, Robust.import_libraries,
    Robust.session_get_call,
    Robust.raise_for_status, Robust.read_get, Robust.write_get,
    try_except, bind, ret, throw, lift_result.

(** The first call of a download operation, and what follows it. *)
Lemma download_first_call (c : Robust.case_type) (session : Robust.session_arg)
    (st : wstate) :
  try_except
    (Robust.original_download_cases World Url Resp Getter TestCase E
       original_download c session)
    is_AssertionError (fun _ => robust_download c session) st
  = let '(r, (w', g')) :=
      original_download c session (Robust.world st) (Robust.session_get st) in
    let st' := {| Robust.world := w'; Robust.session_get := g';
                  Robust.trace := Robust.trace st
                                    ++ [Download c (Robust.session_get st)] |} in
    match r with
    | Return cases => (Return cases, st')
    | Throw e => if is_AssertionError e then robust_download c session st'
                 else (Throw e, st')
    end.
Proof.
  unfold try_except at 1. unfold Robust.original_download_cases.
  destruct (original_download c session (Robust.world st)
              (Robust.session_get st)) as [[cases|e] [w' g']]; reflexivity.
Qed.

(** Where a library is missing, the recovery raises before its [try]. *)
Lemma robust_download_not_importable (c : Robust.case_type)
    (session : Robust.session_arg) (st : wstate) :
  importable = false ->
  robust_download c session st = (Throw (Builtin ModuleNotFoundError), st).
Proof. intros H. unfold_robust. now rewrite H. Qed.

(** X3. No [AssertionError] comes out of the wrapper.  An exception that
    [download_sample_cases] or [download_system_cases] raises is the one the
    first call of the original operation raised, and no [AssertionError]; or
    it is outside [Exception] (an interrupt); or it is the
    [ModuleNotFoundError] of the imports at the head of
    [_download_with_robust_parsing], where [requests] or [onlinejudge.type]
    is missing. *)
Theorem wrapper_lets_no_assertion_out :
  (forall session st e,
      fst (download_sample_cases session st) = Throw e ->
      is_AssertionError e = false /\
      (fst (original_download Robust.sample session (Robust.world st)
              (Robust.session_get st)) = Throw e \/
       is_Exception e = false \/
       (importable = false /\ e = Builtin ModuleNotFoundError))) /\
  (forall session st e,
      fst (download_system_cases session st) = Throw e ->
      is_AssertionError e = false /\
      (fst (original_download Robust.system session (Robust.world st)
              (Robust.session_get st)) = Throw e \/
       is_Exception e = false \/
       (importable = false /\ e = Builtin ModuleNotFoundError))).
Proof.
  assert (Hbase : forall e : exn E,
             is_Exception e = false -> is_AssertionError e = false).
  { intros e He. destruct (is_AssertionError e) eqn:Ha; [|reflexivity].
    apply assertion_is_exception in Ha. congruence. }
  assert (Hboth : forall c session st e,
             fst (try_except
                    (Robust.original_download_cases World Url Resp Getter
                       TestCase E original_download c session)
                    is_AssertionError (fun _ => robust_download c session) st)
             = Throw e ->
             is_AssertionError e = false /\
             (fst (original_download c session (Robust.world st)
                     (Robust.session_get st)) = Throw e \/
              is_Exception e = false \/
              (importable = false /\ e = Builtin ModuleNotFoundError))).
  { intros c session st e. rewrite download_first_call.
    destruct (original_download c session (Robust.world st)
                (Robust.session_get st)) as [[cases|e0] [w' g']]; simpl;
      [discriminate|].
    destruct (is_AssertionError e0) eqn:He0.
    - match goal with
      | |- fst (?run ?s) = _ -> _ =>
          destruct (robust_download_ends U World Url Resp Getter TestCase E
                      url_eqb get_url bound_get resp_text status_error
                      original_download importable c session s)
            as [ |w1|e1 w1 He1|hook r w1 w2 g2 Ho|Himp]
      end; simpl; try discriminate.
      + intros H. inversion H; subst e1. auto.
      + destruct r as [cases|e1]; [discriminate|].
        destruct (is_Exception e1) eqn:He1; [discriminate|].
        intros H. inversion H; subst e1. auto.
      + intros H. inversion H. auto.
    - intros H. inversion H; subst e0. auto. }
  split; intros session st e; apply Hboth.
Qed.

(** X7. How a recovery that does not come to its retry ends.  Where
    [requests] and [onlinejudge.type] import, it ends in the empty list, not
    in an error: with no session (the default [session=None]), with a fetch
    that raises, with a response that has an error status; so with
    [session=None] a download operation whose first call fails with an
    [AssertionError] gives the empty list after that one call.  Where one of
    the libraries is missing, the imports, which stand before the [try],
    raise [ModuleNotFoundError]: nothing is fetched, nothing is retried, and
    the download operation raises this error in place of the
    [AssertionError]. *)
Theorem recovery_without_retry :
  (importable = true ->
   (forall c st, robust_download c NoSession st = (Return [], st)) /\
   (forall c st e w1,
       call_get (Robust.session_get st) get_url (Robust.world st) = (Throw e, w1) ->
       is_Exception e = true ->
       robust_download c TheSession st = (Return [], then_ st w1 [Get get_url])) /\
   (forall c st x e w1,
       call_get (Robust.session_get st) get_url (Robust.world st)
       = (Return (Robust.Fetched x), w1) ->
       status_error x = Some e ->
       is_Exception e = true ->
       robust_download c TheSession st = (Return [], then_ st w1 [Get get_url])) /\
   (forall st e w' g',
       original_download Robust.sample NoSession (Robust.world st)
         (Robust.session_get st) = (Throw e, (w', g')) ->
       is_AssertionError e = true ->
       download_sample_cases NoSession st
       = (Return [],
          {| Robust.world := w'; Robust.session_get := g';
             Robust.trace := Robust.trace st
                               ++ [Download Robust.sample (Robust.session_get st)] |})) /\
   (forall st e w' g',
       original_download Robust.system NoSession (Robust.world st)
         (Robust.session_get st) = (Throw e, (w', g')) ->
       is_AssertionError e = true ->
       download_system_cases NoSession st
       = (Return [],
          {| Robust.world := w'; Robust.session_get := g';
             Robust.trace := Robust.trace st
                               ++ [Download Robust.system (Robust.session_get st)] |}))) /\
  (importable = false ->
   (forall c session st,
       robust_download c session st = (Throw (Builtin ModuleNotFoundError), st)) /\
   (forall session st e w' g',
       original_download Robust.sample session (Robust.world st)
         (Robust.session_get st) = (Throw e, (w', g')) ->
       is_AssertionError e = true ->
       download_sample_cases session st
       = (Throw (Builtin ModuleNotFoundError),
          {| Robust.world := w'; Robust.session_get := g';
             Robust.trace := Robust.trace st
                               ++ [Download Robust.sample (Robust.session_get st)] |})) /\
   (forall session st e w' g',
       original_download Robust.system session (Robust.world st)
         (Robust.session_get st) = (Throw e, (w', g')) ->
       is_AssertionError e = true ->
       download_system_cases session st
       = (Throw (Builtin ModuleNotFoundError),
          {| Robust.world := w'; Robust.session_get := g';
             Robust.trace := Robust.trace st
                               ++ [Download Robust.system (Robust.session_get st)] |}))).
Proof.
  split; intros Himp.
  - assert (Hnone : forall c st, robust_download c NoSession st = (Return [], st)).
    { intros c st. unfold_robust. now rewrite Himp. }
    split; [exact Hnone|]. split; [|split; [|split]].
    + intros c st e w1 Hget He. unfold_robust. rewrite Himp. simpl.
      rewrite Hget. simpl. now rewrite He.
    + intros c st x e w1 Hget Hst He. unfold_robust. rewrite Himp. simpl.
      rewrite Hget. simpl. rewrite Hst. simpl. now rewrite He.
    + intros st e w' g' H He. unfold Robust.download_sample_cases.
      now rewrite download_first_call, H, He, Hnone.
    + intros st e w' g' H He. unfold Robust.download_system_cases.
      now rewrite download_first_call, H, He, Hnone.
  - split; [|split].
    + intros c session st. now apply robust_download_not_importable.
    + intros session st e w' g' H He. unfold Robust.download_sample_cases.
      rewrite download_first_call, H, He.
      now apply robust_download_not_importable.
    + intros session st e w' g' H He. unfold Robust.download_system_cases.
      rewrite download_first_call, H, He.
      now apply robust_download_not_importable.
Qed.

(** X14. What the recovery of the wrapper calls, and in which order:
    nothing (no session, or a library that does not import); or one fetch,
    of the problem's url; or that fetch and then the original operation,
    once, with a [mock_get] in [session.get].  This [mock_get] holds the
    fetched page, with the row for the token the extractor found in it.
    Called with the problem's url it gives a response with this page as its
    text and the status 200, and leaves the world as it is; called with
    another url it does what the [session.get] it replaced does. *)
Theorem recovery_calls (c : Robust.case_type) (session : Robust.session_arg)
    (st : wstate) :
  (exists calls,
      Robust.trace (snd (robust_download c session st))
      = Robust.trace st ++ calls /\
      (calls = [] \/
       calls = [Get get_url] \/
       exists x w1 tok,
         call_get (Robust.session_get st) get_url (Robust.world st)
         = (Return (Robust.Fetched x), w1) /\
         status_error x = None /\
         Robust.parse_memory_limit_from_html U (resp_text x) = Ok (Some tok) /\
         calls = [Get get_url;
                  Download c (mock_get (Robust.injected (resp_text x) tok)
                                (Robust.Fetched x) (Robust.session_get st))])) /\
  (forall page resp original_get url w,
      (url_eqb url get_url = true ->
       call_get (mock_get page resp original_get) url w
       = (Return (MockResponse page 200 resp), w) /\
       Robust.text Resp resp_text (MockResponse page 200 resp) = page) /\
      (url_eqb url get_url = false ->
       call_get (mock_get page resp original_get) url w
       = call_get original_get url w)).
Proof.
  split.
  - unfold_robust. destruct importable; simpl;
      [|exists []; rewrite app_nil_r; auto].
    destruct session; simpl.
    { exists []. rewrite app_nil_r. auto. }
    destruct (call_get (Robust.session_get st) get_url (Robust.world st))
      as [[resp|e] w1] eqn:Hget; simpl.
    + destruct resp as [x|content code inner]; simpl;
        [|exists [Get get_url]; auto].
      destruct (status_error x) as [e|] eqn:Hst; simpl.
      { exists [Get get_url]. destruct (is_Exception e); auto. }
      destruct (Robust.parse_memory_limit_from_html U (resp_text x))
        as [[[|c0 tok]|]|err] eqn:Hp; simpl;
        try (exists [Get get_url]; now auto).
      eexists. split; [|right; right; exists x, w1, (c0 :: tok); eauto].
      unfold Robust.retry_with_mock, bind, try_finally,
        Robust.original_download_cases, Robust.read_get, Robust.write_get.
      simpl.
      destruct (original_download c TheSession w1 _) as [[cases|e] [w2 g2]];
        simpl; [now rewrite <- app_assoc|].
      destruct (is_Exception e); simpl; now rewrite <- app_assoc.
    + exists [Get get_url]. destruct (is_Exception e); auto.
  - intros page resp original_get url w. split; intros Hurl; simpl;
      rewrite Hurl; auto.
Qed.

End WrapperProperties.

(** ** The coordinators at work, where [requests] and [onlinejudge.type]
    import *)

Section CoordinatorProperties.
Variable U : ucd.
Variables World Url Resp Getter TestCase Args Data E : Type.
Variable url_eqb : Url -> Url -> bool.
Variable get_url : Url.
Variable bound_get : Getter -> Url -> World -> outcome E Resp * World.
Variable resp_text : Resp -> str.
Variable status_error : Resp -> option (exn E).
Variable original_download :
  Robust.case_type -> Robust.session_arg -> World -> Robust.getter Resp Getter ->
  outcome E (list TestCase) * (World * Robust.getter Resp Getter).
Variable original_from_html :
  str -> Args -> World -> outcome E Data * World.

Local Abbreviation wstate := (Robust.wstate World Url Resp Getter).
Local Abbreviation call_get :=
  (Robust.call_get World Url Resp Getter E url_eqb get_url bound_get).
Local Abbreviation robust_download :=
  (Robust._download_with_robust_parsing U World Url Resp Getter TestCase E
     url_eqb get_url bound_get resp_text status_error original_download true).
Local Abbreviation download_sample_cases :=
  (Robust.download_sample_cases U World Url Resp Getter TestCase E
     url_eqb get_url bound_get resp_text status_error original_download true).
Local Abbreviation download_system_cases :=
  (Robust.download_system_cases U World Url Resp Getter TestCase E
     url_eqb get_url bound_get resp_text status_error original_download true).
Local Abbreviation patched_from_html :=
  (Patch.patched_from_html U World Args Data E original_from_html).
Local Abbreviation NoSession := Robust.NoSession.
Local Abbreviation TheSession := Robust.TheSession.
Local Abbreviation Download := Robust.Download.
Local Abbreviation Get := Robust.Get.
Local Abbreviation mock_get := Robust.mock_get.

Ltac unfold_robust :=
  unfold Robust._download_with_robust_parsing, Robust.import_libraries,
    Robust.session_get_call,
    Robust.raise_for_status, Robust.read_get, Robust.write_get,
    try_except, bind, ret, throw, lift_result.

Ltac unfold_patch :=
  unfold Patch.patched_from_html, try_except, Patch.original_from_html_call,
    bind, lift_result, ret, throw.

(** The retry of the wrapper, whatever the retried operation does. *)
Lemma robust_download_retried (c : Robust.case_type) (st : wstate)
    (x : Resp) (w1 : World) (tok : str)
    (r : outcome E (list TestCase)) (w2 : World) (g2 : Robust.getter Resp Getter) :
  call_get (Robust.session_get st) get_url (Robust.world st)
  = (Return (Robust.Fetched x), w1) ->
  status_error x = None ->
  Robust.parse_memory_limit_from_html U (resp_text x) = Ok (Some tok) ->
  tok <> [] ->
  original_download c TheSession w1
    (mock_get (Robust.injected (resp_text x) tok) (Robust.Fetched x)
       (Robust.session_get st)) = (r, (w2, g2)) ->
  robust_download c TheSession st
  = (match r with
     | Return cases => Return cases
     | Throw e => if is_Exception e then Return [] else Throw e
     end,
     then_ st w2
       [Get get_url;
        Download c (mock_get (Robust.injected (resp_text x) tok)
                      (Robust.Fetched x) (Robust.session_get st))]).
Proof.
  intros Hget Hst Hp Htok Ho.
  unfold_robust. simpl. rewrite Hget. simpl. rewrite Hst. simpl.
  rewrite Hp. simpl. destruct tok as [|c0 tok]; [congruence|].
  unfold Robust.retry_with_mock, bind, try_finally,
    Robust.original_download_cases, Robust.read_get, Robust.write_get.
  simpl. rewrite Ho. unfold then_. simpl. rewrite <- app_assoc. simpl.
  destruct r as [cases|e]; [reflexivity|].
  now destruct (is_Exception e).
Qed.

Lemma patch_extractor_same (html : str) :
  Patch._patched_parse_memory_limit_from_html U html =
  Robust.parse_memory_limit_from_html U html.
Proof.
  unfold Patch._patched_parse_memory_limit_from_html,
    Robust.parse_memory_limit_from_html.
  assert (Hl : forall todo, Patch.labeled U todo html = Robust.labeled U todo html).
  { induction todo as [|p todo IH]; simpl; [reflexivity|]. now rewrite IH. }
  assert (Hc : forall vs, Patch.candidates U vs = Robust.candidates U vs).
  { induction vs as [|v vs IH]; simpl; [reflexivity|]. now rewrite IH. }
  rewrite Hc. change Patch.patterns with Robust.patterns.
  now rewrite Hl.
Qed.

(** The retry of the patch, whatever the retried method does. *)
Lemma patched_from_html_retried (html : str) (args : Args)
    (st : Patch.pstate World) (e : exn E) (w1 : World) (tok : str)
    (r : outcome E Data) (w2 : World) :
  original_from_html html args (Patch.world st) = (Throw e, w1) ->
  is_AssertionError e = true ->
  Patch._patched_parse_memory_limit_from_html U html = Ok (Some tok) ->
  tok <> [] ->
  Patch.label_missing html = true ->
  original_from_html (Patch.with_memory_section html tok) args w1 = (r, w2) ->
  patched_from_html html args st
  = (match r with
     | Return data => Return data
     | Throw e2 => if is_Exception e2 then Throw e else Throw e2
     end,
     seen st w2 [html; Patch.with_memory_section html tok]).
Proof.
  intros H1 He Hp Htok Hm H2. unfold_patch.
  rewrite H1, He, Hp. simpl. destruct tok as [|c0 tok]; [congruence|].
  rewrite Hm. simpl. rewrite H2. unfold seen. simpl. rewrite <- app_assoc. simpl.
  destruct r as [data|e2]; [reflexivity|].
  now destruct (is_Exception e2).
Qed.

(** X4. An exception that [patched_from_html] raises is the one the first
    call of the original method raised, or it is outside [Exception]: what
    the extractor or the retry raise under [Exception] never reaches the
    caller. *)
Theorem patch_raises_the_first_error (html : str) (args : Args)
    (st : Patch.pstate World) (e : exn E) :
  fst (patched_from_html html args st) = Throw e ->
  fst (original_from_html html args (Patch.world st)) = Throw e \/
  is_Exception e = false.
Proof.
  destruct (patched_from_html_ends U World Args Data E original_from_html
              html args st)
    as [r w1 H1 Hr|e1 w1 H1 He1|e1 w1 html' r w2 H1 He1 H2]; simpl; rewrite H1;
    simpl; auto.
  destruct r as [data|e2]; [discriminate|].
  destruct (is_Exception e2) eqn:He2; intros H; inversion H; subst; auto.
Qed.

(** X5. The recovery of the wrapper, from end to end: the first call fails
    with an [AssertionError], the page is fetched and holds a token, the
    original operation runs again with [mock_get] in place and returns
    cases.  The wrapper returns these cases after three calls, and
    [session.get] is what the first call left. *)
Theorem wrapper_recovers :
  table_ok U ->
  forall st e w0 g0 x w1 tok,
    call_get g0 get_url w0 = (Return (Robust.Fetched x), w1) ->
    status_error x = None ->
    Robust.parse_memory_limit_from_html U (resp_text x) = Ok (Some tok) ->
    is_AssertionError e = true ->
    let hook := mock_get (Robust.injected (resp_text x) tok)
                  (Robust.Fetched x) g0 in
    (forall cases w2 g2,
        original_download Robust.sample TheSession (Robust.world st)
          (Robust.session_get st) = (Throw e, (w0, g0)) ->
        original_download Robust.sample TheSession w1 hook
        = (Return cases, (w2, g2)) ->
        download_sample_cases TheSession st
        = (Return cases,
           {| Robust.world := w2; Robust.session_get := g0;
              Robust.trace :=
                Robust.trace st
                  ++ [Download Robust.sample (Robust.session_get st);
                      Get get_url; Download Robust.sample hook] |})) /\
    (forall cases w2 g2,
        original_download Robust.system TheSession (Robust.world st)
          (Robust.session_get st) = (Throw e, (w0, g0)) ->
        original_download Robust.system TheSession w1 hook
        = (Return cases, (w2, g2)) ->
        download_system_cases TheSession st
        = (Return cases,
           {| Robust.world := w2; Robust.session_get := g0;
              Robust.trace :=
                Robust.trace st
                  ++ [Download Robust.system (Robust.session_get st);
                      Get get_url; Download Robust.system hook] |})).
Proof.
  intros HU st e w0 g0 x w1 tok Hget Hst Hp He hook.
  pose proof (returned_token_not_empty U _ _ HU Hp) as Htok.
  assert (Hboth : forall c cases w2 g2,
             original_download c TheSession (Robust.world st)
               (Robust.session_get st) = (Throw e, (w0, g0)) ->
             original_download c TheSession w1 hook = (Return cases, (w2, g2)) ->
             try_except
               (Robust.original_download_cases World Url Resp Getter TestCase E
                  original_download c TheSession)
               is_AssertionError (fun _ => robust_download c TheSession) st
             = (Return cases,
                {| Robust.world := w2; Robust.session_get := g0;
                   Robust.trace :=
                     Robust.trace st
                       ++ [Download c (Robust.session_get st);
                           Get get_url; Download c hook] |})).
  { intros c cases w2 g2 H1 H2.
    rewrite (download_first_call U World Url Resp Getter TestCase E
               url_eqb get_url bound_get resp_text status_error
               original_download true), H1, He.
    rewrite (robust_download_retried c _ x w1 tok (Return cases) w2 g2);
      auto.
    unfold then_. simpl. now rewrite <- app_assoc. }
  split; intros cases w2 g2; apply Hboth.
Qed.

(** X6. The recovery of the patch, from end to end: the first call fails
    with an [AssertionError], the page holds a token and no label, and the
    original method returns data for the page with the row put in.  The patch
    returns this data after these two calls. *)
Theorem patch_recovers (html : str) (args : Args) (st : Patch.pstate World)
    (e : exn E) (w1 : World) (tok : str) (data : Data) (w2 : World) :
  table_ok U ->
  original_from_html html args (Patch.world st) = (Throw e, w1) ->
  is_AssertionError e = true ->
  Patch._patched_parse_memory_limit_from_html U html = Ok (Some tok) ->
  Patch.label_missing html = true ->
  original_from_html (Patch.with_memory_section html tok) args w1
  = (Return data, w2) ->
  patched_from_html html args st
  = (Return data, seen st w2 [html; Patch.with_memory_section html tok]).
Proof.
  intros HU H1 He Hp Hm H2.
  assert (Htok : tok <> []).
  { apply (returned_token_not_empty U html); [exact HU|].
    now rewrite <- patch_extractor_same. }
  now rewrite (patched_from_html_retried html args st e w1 tok (Return data) w2).
Qed.

(** X8. On a page that holds a label already the two files differ.  The
    patch calls the original method once and gives its result or exception as
    it is: no retry, even with a token in the page.  The wrapper runs the
    original operation again, with [mock_get] serving the page as it was
    fetched. *)
Theorem labeled_page_patch_stops_wrapper_retries :
  (forall html args st,
      Patch.label_missing html = false ->
      patched_from_html html args st
      = (fst (original_from_html html args (Patch.world st)),
         seen st (snd (original_from_html html args (Patch.world st))) [html])) /\
  (forall c st x w1 tok r w2 g2,
      table_ok U ->
      call_get (Robust.session_get st) get_url (Robust.world st)
      = (Return (Robust.Fetched x), w1) ->
      status_error x = None ->
      Robust.parse_memory_limit_from_html U (resp_text x) = Ok (Some tok) ->
      Robust.label_missing (resp_text x) = false ->
      let hook := mock_get (resp_text x) (Robust.Fetched x)
                    (Robust.session_get st) in
      original_download c TheSession w1 hook = (r, (w2, g2)) ->
      robust_download c TheSession st
      = (match r with
         | Return cases => Return cases
         | Throw e => if is_Exception e then Return [] else Throw e
         end,
         then_ st w2 [Get get_url; Download c hook])).
Proof.
  split.
  - intros html args st Hm. unfold_patch.
    destruct (original_from_html html args (Patch.world st))
      as [[data|e] w1]; simpl; [reflexivity|].
    destruct (is_AssertionError e) eqn:He; [|reflexivity].
    pose proof (assertion_is_exception _ _ He) as Hx.
    destruct (Patch._patched_parse_memory_limit_from_html U html)
      as [[[|c0 tok]|]|err]; simpl; rewrite ?Hm; simpl; rewrite ?Hx;
      reflexivity.
  - intros c st x w1 tok r w2 g2 HU Hget Hst Hp Hm hook Ho.
    pose proof (returned_token_not_empty U _ _ HU Hp) as Htok.
    assert (Hsame : Robust.injected (resp_text x) tok = resp_text x)
      by (unfold Robust.injected; now rewrite Hm).
    rewrite (robust_download_retried c st x w1 tok r w2 g2); auto;
      rewrite Hsame; [reflexivity|exact Ho].
Qed.

(** X9. [MockResponse] has no [raise_for_status].  When [session.get] is a
    [mock_get] already (the wrapper at work inside a retry), the recovery
    gets the mock response for the problem's url without a fetch, fails on
    [raise_for_status], and ends in the empty list without calling the
    original operation. *)
Theorem mock_response_has_no_status_check (c : Robust.case_type) (st : wstate)
    (html : str) (resp : Robust.response Resp)
    (original_get : Robust.getter Resp Getter) :
  Robust.session_get st = mock_get html resp original_get ->
  url_eqb get_url get_url = true ->
  robust_download c TheSession st
  = (Return [], then_ st (Robust.world st) [Get get_url]).
Proof.
  intros Hg Hurl. unfold_robust. simpl. rewrite Hg. simpl. rewrite Hurl.
  simpl. unfold then_. now rewrite Hg.
Qed.

(** X10. An exception outside [Exception] (KeyboardInterrupt, SystemExit)
    is kept by neither file: raised by the fetch or by the retried operation
    it comes out of the wrapper, with [session.get] put back, and raised by
    the retried method it comes out of the patch in place of the first
    [AssertionError]. *)
Theorem interrupt_passes_through :
  (forall c st e w1,
      call_get (Robust.session_get st) get_url (Robust.world st) = (Throw e, w1) ->
      is_Exception e = false ->
      robust_download c TheSession st = (Throw e, then_ st w1 [Get get_url])) /\
  (forall c st x w1 tok e2 w2 g2,
      table_ok U ->
      call_get (Robust.session_get st) get_url (Robust.world st)
      = (Return (Robust.Fetched x), w1) ->
      status_error x = None ->
      Robust.parse_memory_limit_from_html U (resp_text x) = Ok (Some tok) ->
      let hook := mock_get (Robust.injected (resp_text x) tok)
                    (Robust.Fetched x) (Robust.session_get st) in
      original_download c TheSession w1 hook = (Throw e2, (w2, g2)) ->
      is_Exception e2 = false ->
      robust_download c TheSession st
      = (Throw e2, then_ st w2 [Get get_url; Download c hook])) /\
  (forall html args st e w1 tok e2 w2,
      table_ok U ->
      original_from_html html args (Patch.world st) = (Throw e, w1) ->
      is_AssertionError e = true ->
      Patch._patched_parse_memory_limit_from_html U html = Ok (Some tok) ->
      Patch.label_missing html = true ->
      original_from_html (Patch.with_memory_section html tok) args w1
      = (Throw e2, w2) ->
      is_Exception e2 = false ->
      patched_from_html html args st
      = (Throw e2, seen st w2 [html; Patch.with_memory_section html tok])).
Proof.
  split; [|split].
  - intros c st e w1 Hget He. unfold_robust. simpl. rewrite Hget. simpl.
    now rewrite He.
  - intros c st x w1 tok e2 w2 g2 HU Hget Hst Hp hook Ho He2.
    pose proof (returned_token_not_empty U _ _ HU Hp) as Htok.
    rewrite (robust_download_retried c st x w1 tok (Throw e2) w2 g2); auto.
    now rewrite He2.
  - intros html args st e w1 tok e2 w2 HU H1 He Hp Hm H2 He2.
    assert (Htok : tok <> []).
    { apply (returned_token_not_empty U html); [exact HU|].
      now rewrite <- patch_extractor_same. }
    rewrite (patched_from_html_retried html args st e w1 tok (Throw e2) w2);
      auto.
    now rewrite He2.
Qed.

(** X15. The pages the patch gives to the original method: the page it was
    given; and then, only after an [AssertionError] and for a page without a
    label, that page with the row for the token the extractor found in it. *)
Theorem patch_pages (html : str) (args : Args) (st : Patch.pstate World) :
  Patch.trace (snd (patched_from_html html args st)) = Patch.trace st ++ [html] \/
  exists e w1 tok,
    original_from_html html args (Patch.world st) = (Throw e, w1) /\
    is_AssertionError e = true /\
    Patch._patched_parse_memory_limit_from_html U html = Ok (Some tok) /\
    Patch.label_missing html = true /\
    Patch.trace (snd (patched_from_html html args st))
    = Patch.trace st ++ [html; Patch.with_memory_section html tok].
Proof.
  unfold_patch.
  destruct (original_from_html html args (Patch.world st)) as [[data|e] w1] eqn:H1;
    simpl; [now left|].
  destruct (is_AssertionError e) eqn:He; [|now left].
  pose proof (assertion_is_exception _ _ He) as Hx.
  destruct (Patch._patched_parse_memory_limit_from_html U html)
    as [[[|c0 tok]|]|err] eqn:Hp; simpl; rewrite ?Hx; simpl; auto.
  destruct (Patch.label_missing html) eqn:Hm; simpl; rewrite ?Hx; simpl; auto.
  right. exists e, w1, (c0 :: tok). repeat (split; [reflexivity|]).
  destruct (original_from_html (Patch.with_memory_section html (c0 :: tok))
              args w1) as [[data|e2] w2]; simpl; [now rewrite <- app_assoc|].
  destruct (is_Exception e2); simpl; now rewrite <- app_assoc.
Qed.

End CoordinatorProperties.

(** ** The patch applied more than once *)

Section PatchedPages.
Variable U : ucd.
Variables World Args Data E : Type.
Variable original_from_html :
  str -> Args -> World -> outcome E Data * World.

(** The pages [patched_from_html] gives to the method it wraps: the page it
    was given and, only when that page holds no label, the page with the row
    put in. *)
Lemma patched_from_html_pages (html : str) (args : Args)
    (st : Patch.pstate World) :
  let final :=
    Patch.world (snd (Patch.patched_from_html U World Args Data E
                        original_from_html html args st)) in
  final = snd (original_from_html html args (Patch.world st)) \/
  exists e w1 tok,
    Patch.label_missing html = true /\
    original_from_html html args (Patch.world st) = (Throw e, w1) /\
    final = snd (original_from_html (Patch.with_memory_section html tok) args w1).
Proof.
  unfold Patch.patched_from_html, Patch.original_from_html_call,
    try_except, bind, lift_result, ret, throw.
  destruct (original_from_html html args (Patch.world st)) as [[data|e] w1] eqn:H1;
    simpl; [now left|].
  destruct (is_AssertionError e) eqn:He; [|now left].
  pose proof (assertion_is_exception _ _ He) as Hx.
  destruct (Patch._patched_parse_memory_limit_from_html U html)
    as [[[|c0 tok]|]|err]; simpl; rewrite ?Hx; simpl; auto.
  destruct (Patch.label_missing html) eqn:Hm; simpl; rewrite ?Hx; simpl; auto.
  right. exists e, w1, (c0 :: tok). split; [reflexivity|]. split; [reflexivity|].
  destruct (original_from_html (Patch.with_memory_section html (c0 :: tok))
              args w1) as [[data|e2] w2]; simpl; [reflexivity|].
  now destruct (is_Exception e2).
Qed.

End PatchedPages.

Section NestedPatches.
Variable U : ucd.
Variables World Args Data E : Type.
Variable upstream : str -> Args -> World -> outcome E Data * World.

(** The calls of the upstream method counted after a call of a value of
    [_from_html], from a count of [n]. *)
Local Abbreviation calls_after f html args w n :=
  (snd (snd (Patch.call_from_html U (World * nat) Args Data E
               (counting upstream) f html args (w, n)))).

Lemma nested_calls (f : Patch.from_html) :
  forall html args w n,
    (n + 1 <= calls_after f html args w n <= n + patches f + 1)%nat /\
    (Patch.label_missing html = false ->
     calls_after f html args w n = (n + 1)%nat).
Proof.
  induction f as [|g IH]; intros html args w n.
  - simpl. unfold counting. simpl.
    destruct (upstream html args w) as [r w']. simpl. lia.
  - cbn [Patch.call_from_html patches].
    pose proof (patched_from_html_pages U (World * nat) Args Data E
                  (Patch.call_from_html U (World * nat) Args Data E
                     (counting upstream) g)
                  html args {| Patch.world := (w, n); Patch.trace := [] |})
      as Hpages.
    destruct (Patch.patched_from_html U (World * nat) Args Data E _ html args _)
      as [r st]. cbn [snd fst Patch.world] in *.
    destruct Hpages as [->|(e & [w1 n1] & tok & Hm & H1 & ->)].
    + destruct (IH html args w n) as (Hb & Hl). split; [lia|exact Hl].
    + destruct (IH html args w n) as (Hb & _). rewrite H1 in Hb. simpl in Hb.
      destruct (IH (Patch.with_memory_section html tok) args w1 n1) as (_ & Hl).
      rewrite (Hl (with_memory_section_label html tok)).
      split; [lia|]. rewrite Hm. discriminate.
Qed.

(** X11. [apply_atcoder_memory_limit_patch] does not look whether the
    method it finds is a patch already: applied again it wraps the patch in a
    patch.  With [k] patches in place a call reaches the upstream method at
    least once and at most [k + 1] times, and exactly once for a page that
    holds a label; with two patches, an upstream method that always fails and
    a page with a limit and no label it is called three times. *)
Theorem patch_upon_patch :
  (forall f,
      Patch.apply_atcoder_memory_limit_patch
        (Patch.apply_atcoder_memory_limit_patch
           (Patch.AtCoderProblemData (Some f)))
      = Patch.AtCoderProblemData (Some (Patch.patched (Patch.patched f)))) /\
  (forall f html args w n,
      (n + 1 <= calls_after f html args w n <= n + patches f + 1)%nat) /\
  (forall f html args w n,
      Patch.label_missing html = false ->
      calls_after f html args w n = (n + 1)%nat) /\
  snd (snd (Patch.call_from_html ascii_rows (unit * nat) unit unit unit
              (counting asserting_from_html)
              (Patch.patched (Patch.patched Patch.upstream_from_html))
              page_with_bare_limit tt (tt, 0%nat))) = 3%nat.
Proof.
  split; [reflexivity|]. split; [|split].
  - intros f html args w n. apply nested_calls.
  - intros f html args w n. apply nested_calls.
  - vm_compute. reflexivity.
Qed.

End NestedPatches.

(** ** [wrap_atcoder_problem] *)

(** X12. With the upstream library in place, what [wrap_atcoder_problem]
    returns is returned as it is when it is wrapped again: a wrapper is no
    [AtCoderProblem], so it is never put into a second wrapper, and a
    recovery never runs inside a recovery through this function. *)
Theorem wrap_is_idempotent (Obj : Type) (is_AtCoderProblem : Obj -> bool)
    (problem wrapped : Robust.pyobject Obj) :
  Robust.wrap_atcoder_problem Obj is_AtCoderProblem true problem
  = Robust.Imported wrapped ->
  Robust.wrap_atcoder_problem Obj is_AtCoderProblem true wrapped
  = Robust.Imported wrapped.
Proof.
  unfold Robust.wrap_atcoder_problem.
  destruct (Robust.isinstance_AtCoderProblem Obj is_AtCoderProblem problem)
    eqn:Hp; intros H; inversion H; subst wrapped; [reflexivity|].
  now rewrite Hp.
Qed.

(** ** The tests of the repository *)

(** X13. The tests of the repository pass: each of the six pages gives the
    result that both test files expect; the object of the wrapper test, no
    [AtCoderProblem], comes back as it is; and [run_tests] of
    [tests/atcoder_robust.py] returns [True] exactly when the upstream library
    can be imported. *)
Theorem repository_tests_pass (U : ucd) :
  tests_atcoder_robust.test_memory_limit_parsing (with_japanese_letters U)
  = Ok true /\
  (forall installed,
      tests_atcoder_robust.test_wrapper_functionality installed
      = (installed, installed)) /\
  (forall installed,
      tests_atcoder_robust.run_tests (with_japanese_letters U) installed
      = Ok installed) /\
  test_memory_limit_patch.run_tests (with_japanese_letters U)
  = Ok [true; true; true; true; true; true].
Proof.
  split; [vm_compute; reflexivity|].
  split; [intros []; reflexivity|].
  split; [intros []; vm_compute; reflexivity|].
  vm_compute. reflexivity.
Qed.

(** ** The properties at work on concrete pages *)

(** X1 on a page with three values and no label: the scan reads "8 MB",
    "64 MB" and "128 MB" in this order; "8 MB" is below the window, and of
    the two plausible values the one to the left, "64 MB", is taken. *)
Lemma scan_takes_first_plausible_on_three_values :
  scanned ascii_rows [] page_with_three_values
    [py "8 MB"; py "64 MB"; py "128 MB"] /\
  Robust.parse_memory_limit_from_html ascii_rows page_with_three_values
  = Ok (Some (py "64 MB")).
Proof.
  split.
  - assert (H : re_findall ascii_rows Robust.pat_scan page_with_three_values
                = [py "8 MB"; py "64 MB"; py "128 MB"])
      by (vm_compute; reflexivity).
    rewrite <- H. apply (proj1 (proj2 (scan_takes_first_plausible ascii_rows))).
  - apply (proj1 (proj2 (proj2 (proj2 (scan_takes_first_plausible ascii_rows)))
                    page_with_three_values
                    ltac:(intros s g; apply search_none_no_form; destruct s;
                          vm_compute; reflexivity))).
    exists [py "8 MB"], [py "128 MB"].
    split; [vm_compute; reflexivity|]. split; [vm_compute; reflexivity|].
    constructor; [vm_compute; reflexivity|constructor].
Defined.

(** X2 on a labeled limit with its unit cut short. *)
Lemma page_without_letter_b_gives_none_on_256_M :
  Robust.parse_memory_limit_from_html ascii_rows (py "Memory Limit: 256 M")
  = Ok None.
Proof.
  apply (page_without_letter_b_gives_none ascii_rows).
  intros c Hc. simpl in Hc.
  repeat (destruct Hc as [<-|Hc]; [vm_compute; reflexivity|]).
  destruct Hc.
Defined.

(** X3 where a library is missing: the error of the imports comes out,
    not the [AssertionError] of the first call. *)
Lemma wrapper_lets_no_assertion_out_missing_library :
  is_AssertionError (Builtin ModuleNotFoundError : exn unit) = false /\
  (fst (asserting_download Robust.sample Robust.TheSession tt (Robust.BoundGet tt))
   = Throw (Builtin ModuleNotFoundError) \/
   is_Exception (Builtin ModuleNotFoundError : exn unit) = false \/
   (false = false /\
    (Builtin ModuleNotFoundError : exn unit) = Builtin ModuleNotFoundError)).
Proof.
  apply (proj1 (wrapper_lets_no_assertion_out ascii_rows
                  unit unit str unit unit unit
                  (fun _ _ => true) tt one_page_get (fun x => x) (fun _ => None)
                  asserting_download false)
           Robust.TheSession fresh (Builtin ModuleNotFoundError)).
  reflexivity.
Defined.

(** X4 on the page without a limit. *)
Lemma patch_raises_the_first_error_without_limit :
  fst (asserting_from_html page_without_limit tt tt) = Throw (AssertionError tt) \/
  is_Exception (AssertionError tt : exn unit) = false.
Proof.
  apply (patch_raises_the_first_error ascii_rows unit unit unit unit
           asserting_from_html page_without_limit tt fresh_patch
           (AssertionError tt)).
  vm_compute. reflexivity.
Defined.

(** X5 on the page with a limit and no label. *)
Lemma wrapper_recovers_on_bare_limit :
  Robust.download_sample_cases ascii_rows unit unit str unit str unit
    (fun _ _ => true) tt bare_limit_get (fun x => x) (fun _ => None)
    needs_label_download true Robust.TheSession fresh
  = (Return [Robust.injected page_with_bare_limit (py "1024 MB")],
     {| Robust.world := tt;
        Robust.session_get := Robust.BoundGet tt;
        Robust.trace :=
          Robust.trace fresh
            ++ [Robust.Download Robust.sample (Robust.session_get fresh);
                Robust.Get tt;
                Robust.Download Robust.sample
                  (Robust.mock_get
                     (Robust.injected page_with_bare_limit (py "1024 MB"))
                     (Robust.Fetched page_with_bare_limit)
                     (Robust.BoundGet tt))] |}).
Proof.
  apply (proj1 (wrapper_recovers ascii_rows unit unit str unit str unit
                  (fun _ _ => true) tt bare_limit_get (fun x => x)
                  (fun _ => None) needs_label_download
                  ascii_rows_ok fresh (AssertionError tt) tt (Robust.BoundGet tt)
                  page_with_bare_limit tt (py "1024 MB")
                  eq_refl eq_refl
                  ltac:(vm_compute; reflexivity) eq_refl)
           [Robust.injected page_with_bare_limit (py "1024 MB")] tt
           (Robust.mock_get
              (Robust.injected page_with_bare_limit (py "1024 MB"))
              (Robust.Fetched page_with_bare_limit) (Robust.BoundGet tt))).
  - reflexivity.
  - vm_compute. reflexivity.
Defined.

(** X6 on the same page. *)
Lemma patch_recovers_on_bare_limit :
  Patch.patched_from_html ascii_rows unit unit str unit needs_label_from_html
    page_with_bare_limit tt fresh_patch
  = (Return (Patch.with_memory_section page_with_bare_limit (py "1024 MB")),
     seen fresh_patch tt
       [page_with_bare_limit;
        Patch.with_memory_section page_with_bare_limit (py "1024 MB")]).
Proof.
  apply (patch_recovers ascii_rows unit unit str unit needs_label_from_html
           page_with_bare_limit tt fresh_patch (AssertionError tt) tt
           (py "1024 MB")).
  - exact ascii_rows_ok.
  - vm_compute. reflexivity.
  - reflexivity.
  - vm_compute. reflexivity.
  - vm_compute. reflexivity.
  - vm_compute. reflexivity.
Defined.

(** X7 where the network is down, and where a library is missing. *)
Lemma recovery_without_retry_network_down :
  Robust._download_with_robust_parsing ascii_rows unit unit str unit unit unit
    (fun _ _ => true) tt failing_get (fun x => x) (fun _ => None)
    asserting_download true Robust.sample Robust.TheSession fresh
  = (Return [], then_ fresh tt [Robust.Get tt]) /\
  Robust.download_sample_cases ascii_rows unit unit str unit unit unit
    (fun _ _ => true) tt one_page_get (fun x => x) (fun _ => None)
    asserting_download false Robust.TheSession fresh
  = (Throw (Builtin ModuleNotFoundError),
     {| Robust.world := tt;
        Robust.session_get := Robust.BoundGet tt;
        Robust.trace :=
          Robust.trace fresh
            ++ [Robust.Download Robust.sample (Robust.session_get fresh)] |}).
Proof.
  split.
  - apply (proj1 (proj2 (proj1 (recovery_without_retry ascii_rows
                                  unit unit str unit unit unit
                                  (fun _ _ => true) tt failing_get (fun x => x)
                                  (fun _ => None) asserting_download true)
                           eq_refl))
             Robust.sample fresh (OtherException tt) tt);
      reflexivity.
  - apply (proj1 (proj2 (proj2 (recovery_without_retry ascii_rows
                                  unit unit str unit unit unit
                                  (fun _ _ => true) tt one_page_get (fun x => x)
                                  (fun _ => None) asserting_download false)
                           eq_refl))
             Robust.TheSession fresh (AssertionError tt) tt (Robust.BoundGet tt));
      reflexivity.
Defined.

(** X8 on a page with label and limit that the upstream library does not
    take. *)
Lemma labeled_page_patch_stops_on_256_MB :
  Patch.patched_from_html ascii_rows unit unit unit unit asserting_from_html
    (py "Memory Limit: 256 MB") tt fresh_patch
  = (fst (asserting_from_html (py "Memory Limit: 256 MB") tt tt),
     seen fresh_patch
       (snd (asserting_from_html (py "Memory Limit: 256 MB") tt tt))
       [py "Memory Limit: 256 MB"]).
Proof.
  apply (proj1 (labeled_page_patch_stops_wrapper_retries ascii_rows
                  unit unit str unit unit unit unit unit
                  (fun _ _ => true) tt one_page_get (fun x => x) (fun _ => None)
                  asserting_download asserting_from_html)
           (py "Memory Limit: 256 MB") tt fresh_patch).
  vm_compute. reflexivity.
Defined.

(** X9 with a mock in [session.get]. *)
Lemma mock_response_has_no_status_check_in_retry :
  Robust._download_with_robust_parsing ascii_rows unit unit str unit unit unit
    (fun _ _ => true) tt one_page_get (fun x => x) (fun _ => None)
    asserting_download true Robust.sample Robust.TheSession inside_retry
  = (Return [], then_ inside_retry (Robust.world inside_retry) [Robust.Get tt]).
Proof.
  apply (mock_response_has_no_status_check ascii_rows
           unit unit str unit unit unit
           (fun _ _ => true) tt one_page_get (fun x => x) (fun _ => None)
           asserting_download Robust.sample inside_retry page_with_bare_limit
           (Robust.Fetched page_with_bare_limit) (Robust.BoundGet tt));
    reflexivity.
Defined.

(** X10 where the user interrupts the retry. *)
Lemma interrupt_passes_through_the_retry :
  Robust._download_with_robust_parsing ascii_rows unit unit str unit str unit
    (fun _ _ => true) tt bare_limit_get (fun x => x) (fun _ => None)
    interrupted_download true Robust.sample Robust.TheSession fresh
  = (Throw (BaseOnly tt),
     then_ fresh tt
       [Robust.Get tt;
        Robust.Download Robust.sample
          (Robust.mock_get
             (Robust.injected page_with_bare_limit (py "1024 MB"))
             (Robust.Fetched page_with_bare_limit) (Robust.BoundGet tt))]) /\
  Patch.patched_from_html ascii_rows unit unit str unit interrupted_from_html
    page_with_bare_limit tt fresh_patch
  = (Throw (BaseOnly tt),
     seen fresh_patch tt
       [page_with_bare_limit;
        Patch.with_memory_section page_with_bare_limit (py "1024 MB")]).
Proof.
  pose proof (interrupt_passes_through ascii_rows
                unit unit str unit str unit str unit
                (fun _ _ => true) tt bare_limit_get (fun x => x) (fun _ => None)
                interrupted_download interrupted_from_html)
    as (_ & Hg & Hs).
  split.
  - apply (Hg Robust.sample fresh page_with_bare_limit tt (py "1024 MB")
             (BaseOnly tt) tt
             (Robust.mock_get
                (Robust.injected page_with_bare_limit (py "1024 MB"))
                (Robust.Fetched page_with_bare_limit) (Robust.BoundGet tt)));
      try reflexivity; try exact ascii_rows_ok; vm_compute; reflexivity.
  - apply (Hs page_with_bare_limit tt fresh_patch (AssertionError tt) tt
             (py "1024 MB") (BaseOnly tt) tt);
      try reflexivity; try exact ascii_rows_ok; vm_compute; reflexivity.
Defined.

(** X11 on a page that holds a label, under two patches. *)
Lemma patch_upon_patch_on_labeled_page :
  snd (snd (Patch.call_from_html ascii_rows (unit * nat) unit unit unit
              (counting asserting_from_html)
              (Patch.patched (Patch.patched Patch.upstream_from_html))
              (py "Memory Limit: 256 MB") tt (tt, 0%nat))) = 1%nat.
Proof.
  apply (proj1 (proj2 (proj2 (patch_upon_patch ascii_rows unit unit unit unit
                                asserting_from_html)))
           (Patch.patched (Patch.patched Patch.upstream_from_html))
           (py "Memory Limit: 256 MB") tt tt 0%nat).
  vm_compute. reflexivity.
Defined.

(** X12 on an [AtCoderProblem]. *)
Lemma wrap_is_idempotent_on_problem :
  Robust.wrap_atcoder_problem bool (fun o => o) true
    (Robust.RobustAtCoderProblem (Robust.Object true))
  = Robust.Imported (Robust.RobustAtCoderProblem (Robust.Object true)).
Proof.
  apply (wrap_is_idempotent bool (fun o => o) (Robust.Object true)).
  reflexivity.
Defined.

(** X16 on a page that states its limit after the English label. *)
Lemma stated_limit_is_found_on_256_MB :
  exists found,
    Robust.parse_memory_limit_from_html ascii_rows
      (py "<p>" ++ (py "Memory Limit" ++ py ": " ++ py "256 MB") ++ py "</p>")
    = Ok (Some found).
Proof.
  apply (proj1 (proj1 (proj2 (stated_limit_is_found ascii_rows))
                  (py "<p>") (py ": ") (py "256 MB") (py "</p>")
                  ltac:(repeat constructor)
                  ltac:(exists (py "256"), (py " "), (py "M"), (ch "B");
                        split; [reflexivity|];
                        split; [exists (py "256"); split; [discriminate|];
                                split; [repeat constructor|now left]|];
                        split; [repeat constructor|];
                        split; [right; exists (ch "M"); split; reflexivity
                               |reflexivity]))).
Defined.

(** X17 on the page "8 MB". *)
Lemma scan_values_always_split_on_8_MB :
  exists m number unit x,
    re_match ascii_rows Robust.pat_split (py "8 MB") = Some m /\
    group 1 (caps m) = Some number /\
    group 2 (caps m) = Some unit /\
    number_form ascii_rows number /\
    py_float ascii_rows number = Ok x.
Proof.
  apply (scan_values_always_split ascii_rows (py "8 MB") (py "8 MB")).
  vm_compute. auto.
Defined.

(** X18 on the page "Memory Limit: 256mb". *)
Lemma token_opens_no_tag_on_256mb :
  ~ In (ch "<") (py "256mb") /\
  exists tail,
    Robust.memory_section (py "256mb")
    = py "<tr><th>Memory Limit</th><td>" ++ py "256mb" ++ ch "<" :: tail /\
    Patch.memory_section (py "256mb") = Robust.memory_section (py "256mb").
Proof.
  apply (token_opens_no_tag ascii_rows (py "Memory Limit: 256mb") (py "256mb")).
  vm_compute. reflexivity.
Defined.

(** X14 with two urls: the mock serves its page for the problem's url and
    lets the network answer for the other one. *)
Lemma recovery_calls_two_urls :
  (Robust.call_get unit bool str unit unit Bool.eqb true two_page_get
     (Robust.mock_get (py "page with the row")
        (Robust.Fetched page_with_bare_limit) (Robust.BoundGet tt)) true tt
   = (Return (Robust.MockResponse (py "page with the row") 200
                (Robust.Fetched page_with_bare_limit)), tt) /\
   Robust.text str (fun x => x)
     (Robust.MockResponse (py "page with the row") 200
        (Robust.Fetched page_with_bare_limit))
   = py "page with the row") /\
  Robust.call_get unit bool str unit unit Bool.eqb true two_page_get
    (Robust.mock_get (py "page with the row")
       (Robust.Fetched page_with_bare_limit) (Robust.BoundGet tt)) false tt
  = Robust.call_get unit bool str unit unit Bool.eqb true two_page_get
      (Robust.BoundGet tt) false tt.
Proof.
  pose proof (proj2 (recovery_calls ascii_rows unit bool str unit unit unit
                       Bool.eqb true two_page_get (fun x => x) (fun _ => None)
                       (fun c s w g => (Return [], (w, g))) true
                       Robust.sample Robust.TheSession
                       {| Robust.world := tt;
                          Robust.session_get := Robust.BoundGet tt;
                          Robust.trace := [] |})
                (py "page with the row") (Robust.Fetched page_with_bare_limit)
                (Robust.BoundGet tt)) as H.
  split.
  - apply (proj1 (H true tt)). reflexivity.
  - apply (proj2 (H false tt)). reflexivity.
Defined.
